(** * Configuration merging, validation dispatch and error reporting

    A shallow embedding of [homeassistant/config.py]: the annotation lookup
    ([find_annotation]), the package merger ([_recursive_merge],
    [merge_packages_config]), the merge-policy resolver
    ([_identify_config_schema]), the per-domain validator
    ([async_process_component_config]) and the error formatter
    ([stringify_invalid]).

    Python exceptions are modelled with an explicit [result] type; in-place
    mutation of the configuration document is modelled by passing the
    document through every operation and returning the updated document,
    also when an exception escapes. *)

From Stdlib Require Import List String Ascii ZArith Bool Lia DecimalString.
From Stdlib Require Import Permutation Sorted.
From Stdlib Require OrderedTypeEx.
Import ListNotations.
Local Set Warnings "-register-all".
Open Scope list_scope.
Open Scope string_scope.

(** ** Exceptions and results *)

(** A path segment: a mapping key or a sequence index. *)
Inductive seg : Type :=
| SKey (s : string)
| SIdx (i : Z).

(** A structured validation error ([vol.Invalid]): the path to the offending
    node, [error_message], [error_type] and the text [Exception.__str__]
    gives. *)
Record invalid : Type := Invalid {
  path : list seg;
  error_message : string;
  error_type : option string;
  exception_str : string
}.

(** The exception classes the module distinguishes in its [except] clauses,
    taken as disjoint. *)
Inductive exn : Type :=
| KeyError
| IndexError
| TypeError
| AttributeError
| ImportError (name : string) (msg : string)
| FileNotFoundError (msg : string)
| IntegrationNotFound (msg : string)
| RequirementsNotFound (msg : string)
| VolInvalid (ex : invalid)
| HomeAssistantError (msg : string)
| OtherException (msg : string).

Inductive result (A : Type) : Type :=
| Ok (a : A)
| Raise (e : exn).
Arguments Ok {A} a.
Arguments Raise {A} e.

Definition bind {A B : Type} (r : result A) (k : A -> result B) : result B :=
  match r with
  | Ok a => k a
  | Raise e => Raise e
  end.

Notation "'do' x <- r ; k" := (bind r (fun x => k))
  (at level 10, x name, r at level 100, k at level 200).

(** ** The annotated document tree *)

(** The parser attaches [__config_file__] and, usually, [__line__] to the
    nodes it builds. *)
Record tag : Type := Tag { config_file : string; line_attr : option Z }.

(** [getattr(item, "__line__", "?")]. *)
Inductive line : Type :=
| LineNo (n : Z)
| LineUnknown.

Definition annotation : Type := (string * line)%type.

(** A mapping key.  Keys are strings, as in the source's [dict[str, Any]];
    a key produced by the parser is a tagged string. *)
Record dkey : Type := DKey { key_tag : option tag; key_str : string }.

(** A parsed value.  Strings, lists and mappings can carry a tag; [None],
    booleans and integers cannot. *)
Inductive value : Type :=
| VNone
| VBool (b : bool)
| VInt (z : Z)
| VStr (t : option tag) (s : string)
| VList (t : option tag) (items : list value)
| VDict (t : option tag) (items : list (dkey * value)).

(** An untagged key, as written by code rather than by the parser. *)
Definition plain (s : string) : dkey := DKey None s.

Definition isinstance_dict (v : value) : bool :=
  match v with VDict _ _ => true | _ => false end.

Definition isinstance_list (v : value) : bool :=
  match v with VList _ _ => true | _ => false end.

(** *** Ordered mappings *)

Definition dict : Type := list (dkey * value).

(** [d.get(key)] distinguishes nothing between an absent key and a key
    bound to [None]; [dict_find] keeps the difference. *)
Fixpoint dict_find (d : dict) (k : string) : option value :=
  match d with
  | [] => None
  | (k', v) :: rest => if String.eqb (key_str k') k then Some v else dict_find rest k
  end.

Definition dict_get (d : dict) (k : string) : value :=
  match dict_find d k with
  | Some v => v
  | None => VNone
  end.

Definition dict_contains (d : dict) (k : string) : bool :=
  match dict_find d k with
  | Some _ => true
  | None => false
  end.

(** [d[key] = v]: an existing entry keeps its position and its key object,
    a new entry goes last. *)
Fixpoint dict_set (d : dict) (k : dkey) (v : value) : dict :=
  match d with
  | [] => [(k, v)]
  | (k', v') :: rest =>
      if String.eqb (key_str k') (key_str k) then (k', v) :: rest
      else (k', v') :: dict_set rest k v
  end.

Definition keys (d : dict) : list string := map (fun kv => key_str (fst kv)) d.

(** ** Annotation model *)

Definition tag_annotation (t : tag) : annotation :=
  (config_file t,
   match line_attr t with
   | Some n => LineNo n
   | None => LineUnknown
   end).

Definition value_tag (v : value) : option tag :=
  match v with
  | VStr t _ | VList t _ | VDict t _ => t
  | _ => None
  end.

Definition _get_annotation (item : value) : option annotation :=
  option_map tag_annotation (value_tag item).

Definition _get_annotation_key (key : dkey) : option annotation :=
  option_map tag_annotation (key_tag key).

(** Python sequence indexing: a negative index counts from the end. *)
Definition py_index {A : Type} (l : list A) (i : Z) : option A :=
  let n := Z.of_nat (List.length l) in
  if (0 <=? i)%Z then nth_error l (Z.to_nat i)
  else if (0 <=? n + i)%Z then nth_error l (Z.to_nat (n + i))
  else None.

Definition chars (s : string) : list string :=
  map (fun c => String c EmptyString) (list_ascii_of_string s).

(** [operator.getitem(data, item)]. *)
Definition getitem (data : value) (item : seg) : result value :=
  match data, item with
  | VDict _ d, SKey k =>
      match dict_find d k with
      | Some v => Ok v
      | None => Raise KeyError
      end
  | VDict _ _, SIdx _ => Raise KeyError
  | VList _ l, SIdx i =>
      match py_index l i with
      | Some v => Ok v
      | None => Raise IndexError
      end
  | VStr _ s, SIdx i =>
      match py_index (chars s) i with
      | Some c => Ok (VStr None c)
      | None => Raise IndexError
      end
  | _, _ => Raise TypeError
  end.

Definition reduce_getitem (items : list seg) (data : value) : result value :=
  fold_left (fun acc item => do v <- acc; getitem v item) items (Ok data).

(** Every exception [getitem] can raise is one of the three caught. *)
Definition _get_by_path (data : value) (items : list seg) : value :=
  match reduce_getitem items data with
  | Ok v => v
  | Raise _ => VNone
  end.

(** [key == tail] for the objects a [for key in item] loop can yield. *)
Definition key_eq_seg (k : dkey) (tail : seg) : bool :=
  match tail with
  | SKey s => String.eqb (key_str k) s
  | SIdx _ => false
  end.

Definition value_eq_seg (v : value) (tail : seg) : bool :=
  match v, tail with
  | VStr _ s, SKey s' => String.eqb s s'
  | VInt z, SIdx i => Z.eqb z i
  | VBool b, SIdx i => Z.eqb (if b then 1 else 0) i
  | _, _ => false
  end.

(** The loop of [find_annotation_for_key] over a mapping: the first key
    equal to [tail] decides. *)
Fixpoint scan_keys (d : dict) (tail : seg) : option annotation :=
  match d with
  | [] => None
  | (key, _) :: rest =>
      if key_eq_seg key tail then _get_annotation_key key
      else scan_keys rest tail
  end.

(** The same loop over the elements of a sequence. *)
Fixpoint scan_items (l : list value) (tail : seg) : option annotation :=
  match l with
  | [] => None
  | key :: rest =>
      if value_eq_seg key tail then _get_annotation key
      else scan_items rest tail
  end.

(** [for key in item] raises [TypeError] when [item] is not iterable. *)
Definition find_annotation_for_key (item : value) (tail : seg)
  : result (option annotation) :=
  match item with
  | VDict _ d => Ok (scan_keys d tail)
  | VList _ l => Ok (scan_items l tail)
  | VStr _ s => Ok (scan_items (map (VStr None) (chars s)) tail)
  | VNone | VBool _ | VInt _ => Raise TypeError
  end.

(** [find_annotation_rec].  The path is held reversed, so that [path.pop()]
    takes the head, [path[-1]] is the head and [path[:-1]] is the rest. *)
Fixpoint find_annotation_rec (config : value) (rpath : list seg) (tail : option seg)
  : result (option annotation) :=
  let item := _get_by_path config (rev rpath) in
  do tail_annotation <-
     match tail with
     | Some t => if isinstance_dict item then find_annotation_for_key item t else Ok None
     | None => Ok None
     end;
  match tail_annotation with
  | Some a => Ok (Some a)
  | None =>
      do key_annotation <-
         match rpath with
         | last :: init =>
             if isinstance_dict item || isinstance_list item
             then find_annotation_for_key (_get_by_path config (rev init)) last
             else Ok None
         | [] => Ok None
         end;
      match key_annotation with
      | Some a => Ok (Some a)
      | None =>
          match _get_annotation item with
          | Some a => Ok (Some a)
          | None =>
              match rpath with
              | [] => Ok None
              | t :: rest =>
                  do annotation <- find_annotation_rec config rest (Some t);
                  match annotation with
                  | Some a => Ok (Some a)
                  | None => Ok (_get_annotation item)
                  end
              end
          end
      end
  end.

Definition find_annotation (config : value) (path : list seg)
  : result (option annotation) :=
  find_annotation_rec config (rev path) None.

(** ** Modules, schemas and the loader collaborator *)

(** A validator is called on a document node and returns the validated
    node or raises. *)
Definition validator : Type := value -> result value.

(** The [default] attribute of a key of a mapping schema: a plain key has
    none, a marker has [Undefined] or a factory. *)
Inductive key_default : Type :=
| NoDefaultAttr
| Undefined
| DefaultFactory (v : value).

(** A key of a mapping schema: the string it compares equal to, if any
    (a plain string or the [schema] of a marker), and its [default]. *)
Record schema_key : Type := SchemaKey {
  key_literal : option string;
  default : key_default
}.

(** What [_identify_config_schema] can see of a schema: a mapping (each
    sub-schema known by its [str()]), a [vol.All] of validators, another
    iterable (list, tuple), a string, or something opaque. *)
Inductive schema_node : Type :=
| SDict (entries : list (schema_key * string))
| SAll (validators : list schema_node)
| SSeq (elems : list schema_node)
| SLit (s : string)
| SOpaque.

(** A [CONFIG_SCHEMA] attribute: whether it is a [vol.Schema], its
    [.schema], and what calling it does. *)
Record config_schema : Type := ConfigSchema {
  isinstance_vol_Schema : bool;
  schema : schema_node;
  call : validator
}.

(** A Python module, seen through the attributes the code probes with
    [hasattr] and [getattr]. *)
Record module : Type := Module {
  DOMAIN : string;
  CONFIG_SCHEMA : option config_schema;
  PLATFORM_SCHEMA : option validator;
  PLATFORM_SCHEMA_BASE : option validator;
  async_validate_config : option validator;
  PACKAGE_MERGE_HINT : option string
}.

Record integration : Type := Integration {
  domain : string;
  documentation : option string;
  pkg_path : string;
  get_component : result module;
  get_platform : string -> result module
}.

(** ** Package merger *)

(** Python's truth value of a document node. *)
Definition truthy (v : value) : bool :=
  match v with
  | VNone => false
  | VBool b => b
  | VInt z => negb (Z.eqb z 0)
  | VStr _ s => negb (String.eqb s "")
  | VList _ l => match l with [] => false | _ => true end
  | VDict _ d => match d with [] => false | _ => true end
  end.

(** Modelled from the spec: [cv.ensure_list], of the helper module
    [helpers/config_validation.py]: "absent/None becomes the empty
    sequence, a scalar is wrapped as a singleton"; a sequence is itself. *)
Definition ensure_list (v : value) : list value :=
  match v with
  | VNone => []
  | VList _ l => l
  | _ => [v]
  end.

(** Modelled from the spec: [cv.remove_falsy], of the same helper module:
    "drop falsy elements (None or empty-mapping entries), preserving
    relative order".  Falsy is Python's truth value, of which [None] and
    the empty mapping are the cases the spec names. *)
Definition remove_falsy (l : list value) : list value := filter truthy l.

Definition is_not_none (v : value) : bool :=
  match v with VNone => false | _ => true end.

(** [isinstance(pack_conf, dict) and not pack_conf]. *)
Definition is_empty_mapping (v : value) : bool :=
  match v with VDict _ [] => true | _ => false end.

(** How the [for] loop of [_recursive_merge] is left: by running out of
    keys, by [return key], or by an exception. *)
Inductive loop_exit : Type :=
| Finished (duplicate_key : option dkey)
| Returned (key : dkey)
| Raised (e : exn).

(** What the call returns or raises in each case. *)
Definition exit_result (x : loop_exit) : result (option dkey) :=
  match x with
  | Finished duplicate_key => Ok duplicate_key
  | Returned key => Ok (Some key)
  | Raised e => Raise e
  end.

(** The [for] loop of [_recursive_merge], entered with the current value of
    the local [duplicate_key]; [nested] stands for the recursive call
    [_recursive_merge(conf=conf[key], package=pack_conf)].  The first
    component of the result is the mapping [conf] as the loop leaves it.  A
    [conf[key]] that is not a mapping has no [get]: the nested call raises
    [AttributeError] at its first entry that is not an empty mapping, which
    it skips before it touches [conf]; with only such entries it returns
    [None]. *)
Section MergeLoop.
Variable nested : value -> dict -> dict * result (option dkey).

Fixpoint merge_loop (duplicate_key : option dkey) (conf : dict) (package : dict)
  {struct package} : dict * loop_exit :=
  match package with
  | [] => (conf, Finished duplicate_key)
  | (key, pack_conf) :: rest =>
      match pack_conf with
      | VDict _ [] => merge_loop duplicate_key conf rest
      | VDict _ entries =>
          let current :=
            match dict_find conf (key_str key) with
            | Some v => v
            | None => VDict None []
            end in
          let conf1 := dict_set conf key current in
          match current with
          | VDict t target =>
              let (target', r) := nested pack_conf target in
              let conf2 := dict_set conf1 key (VDict t target') in
              match r with
              | Ok dup => merge_loop dup conf2 rest
              | Raise e => (conf2, Raised e)
              end
          | _ =>
              if existsb (fun entry => negb (is_empty_mapping (snd entry))) entries
              then (conf1, Raised AttributeError)
              else merge_loop None conf1 rest
          end
      | VList _ _ =>
          let merged :=
            remove_falsy (ensure_list (dict_get conf (key_str key))
                          ++ ensure_list pack_conf)%list in
          merge_loop duplicate_key (dict_set conf key (VList None merged)) rest
      | _ =>
          if is_not_none (dict_get conf (key_str key)) then (conf, Returned key)
          else merge_loop duplicate_key (dict_set conf key pack_conf) rest
      end
  end.
End MergeLoop.

(** [_recursive_merge] on a package given as a document node. *)
Fixpoint merge_node (package : value) (conf : dict) {struct package}
  : dict * result (option dkey) :=
  match package with
  | VDict _ items =>
      let (conf', x) := merge_loop merge_node None conf items in
      (conf', exit_result x)
  | _ => (conf, Raise AttributeError)
  end.

Definition _recursive_merge (conf : dict) (package : dict)
  : dict * result (option dkey) :=
  let (conf', x) := merge_loop merge_node None conf package in
  (conf', exit_result x).

(** ** Merge-policy resolver *)

Definition schema_key_eq (k : schema_key) (s : string) : bool :=
  match key_literal k with
  | Some l => String.eqb l s
  | None => false
  end.

Definition node_eq (n : schema_node) (s : string) : bool :=
  match n with
  | SLit l => String.eqb l s
  | _ => false
  end.

(** The [for ... else] over [schema.validators]. *)
Fixpoint first_dict (validators : list schema_node) : option schema_node :=
  match validators with
  | [] => None
  | SDict entries :: _ => Some (SDict entries)
  | _ :: rest => first_dict rest
  end.

(** [isinstance(v, dict)], [isinstance(v, list)] on the default value. *)
Definition classify_value (default_value : value) : option string :=
  if isinstance_dict default_value then Some "dict"
  else if isinstance_list default_value then Some "list"
  else None.

Fixpoint contains (needle hay : string) : bool :=
  String.prefix needle hay
  || match hay with
     | EmptyString => false
     | String _ rest => contains needle rest
     end.

Definition classify_text (t_schema : string) : option string :=
  if String.prefix "{" t_schema || contains "schema_with_slug_keys" t_schema
  then Some "dict"
  else if String.prefix "[" t_schema || String.prefix "All(<function ensure_list" t_schema
  then Some "list"
  else None.

Definition _identify_config_schema (module_ : module) : result (option string) :=
  match CONFIG_SCHEMA module_ with
  | None => Raise AttributeError
  | Some config_schema_ =>
      if negb (isinstance_vol_Schema config_schema_) then Ok None
      else
        let selected :=
          match schema config_schema_ with
          | SAll validators => first_dict validators
          | other => Some other
          end in
        match selected with
        | None => Ok None
        | Some (SDict entries) =>
            match find (fun kv => schema_key_eq (fst kv) (DOMAIN module_)) entries with
            | None => Ok None
            | Some (key, domain_schema) =>
                match default key with
                | DefaultFactory v =>
                    do validated <-
                       call config_schema_ (VDict None [(plain (DOMAIN module_), v)]);
                    do default_value <- getitem validated (SKey (DOMAIN module_));
                    Ok (classify_value default_value)
                | _ => Ok (classify_text domain_schema)
                end
            end
        | Some (SSeq elems) =>
            match find (fun k => node_eq k (DOMAIN module_)) elems with
            | None => Ok None
            | Some _ => Raise TypeError
            end
        | Some (SLit s) =>
            match find (fun c => String.eqb c (DOMAIN module_)) (chars s) with
            | None => Ok None
            | Some _ => Raise TypeError
            end
        | Some (SAll _) | Some SOpaque => Ok None
        end
  end.

(** ** Merging packages into the document *)

(** A call of [_log_pkg_error(hass, package, component, config, message)]. *)
Record pkg_error : Type := PkgError {
  err_package : string;
  err_component : string;
  err_message : string
}.

(** [comp_name.partition(" ")[0]]. *)
Fixpoint partition_head (s : string) : string :=
  match s with
  | EmptyString => EmptyString
  | String c rest =>
      if Ascii.eqb c " "%char then EmptyString else String c (partition_head rest)
  end.

(** [str(ex)] for the exceptions whose text is logged. *)
Definition str_exn (e : exn) : string :=
  match e with
  | ImportError _ msg | FileNotFoundError msg | IntegrationNotFound msg
  | RequirementsNotFound msg | HomeAssistantError msg | OtherException msg => msg
  | VolInvalid ex => exception_str ex
  | KeyError => "KeyError"
  | IndexError => "IndexError"
  | TypeError => "TypeError"
  | AttributeError => "AttributeError"
  end.

Definition LOAD_EXCEPTIONS (e : exn) : bool :=
  match e with
  | ImportError _ _ | FileNotFoundError _ => true
  | _ => false
  end.

Definition INTEGRATION_LOAD_EXCEPTIONS (e : exn) : bool :=
  match e with
  | IntegrationNotFound _ | RequirementsNotFound _ => true
  | _ => false
  end.

(** Modelled from the spec: [PACKAGES_CONFIG_SCHEMA] is built by
    [cv.schema_with_slug_keys] and the schema library, both outside this
    module: "a structural shape check (slug-named keys,
    mapping-or-list-or-null values)".  What a slug is, is left to the
    helper module: [is_slug] is a parameter. *)
Definition component_value_ok (v : value) : bool :=
  match v with
  | VDict _ _ | VList _ _ | VNone => true
  | _ => false
  end.

Definition package_shape_ok (pack_conf : value) : bool :=
  match pack_conf with
  | VDict _ comps => forallb (fun kv => component_value_ok (snd kv)) comps
  | _ => false
  end.

Definition packages_shape_ok (is_slug : string -> bool) (packages : value) : bool :=
  match packages with
  | VDict _ packs =>
      forallb (fun kv => is_slug (key_str (fst kv)) && package_shape_ok (snd kv)) packs
  | _ => false
  end.

Definition shape_error : invalid :=
  Invalid [] "invalid packages" None "invalid packages".

Definition PACKAGES_CONFIG_SCHEMA (is_slug : string -> bool) : validator :=
  fun packages =>
    if packages_shape_ok is_slug packages then Ok packages
    else Raise (VolInvalid shape_error).

(** The state the merge works on: the document, mutated in place, and the
    calls of [_log_pkg_error] made so far. *)
Record merge_state : Type := MergeState {
  config_of : dict;
  log_of : list pkg_error
}.

Definition log_error (st : merge_state) (package component message : string)
  : merge_state :=
  MergeState (config_of st) (log_of st ++ [PkgError package component message])%list.

Section Merger.
Variable CONF_CORE : string.
Variable is_slug : string -> bool.
Variable async_get_integration_with_requirements : string -> result integration.

(** The three steps that decide [merge_list]. *)
Definition resolve_merge_list (integration_ : integration) (component : module)
  : result bool :=
  let config_platform :=
    match get_platform integration_ "config" with
    | Ok m => match async_validate_config m with Some _ => Ok (Some m) | None => Ok None end
    | Raise (ImportError _ _) => Ok None
    | Raise e => Raise e
    end in
  do config_platform <- config_platform;
  do merge_list <-
     match config_platform with
     | Some m =>
         match PACKAGE_MERGE_HINT m with
         | Some hint => Ok (String.eqb hint "list")
         | None => Raise AttributeError
         end
     | None => Ok false
     end;
  let merge_list :=
    if negb merge_list
    then match PLATFORM_SCHEMA component with Some _ => true | None => false end
    else merge_list in
  if negb merge_list
  then match CONFIG_SCHEMA component with
       | Some _ =>
           do kind <- _identify_config_schema component;
           Ok match kind with Some k => String.eqb k "list" | None => false end
       | None => Ok merge_list
       end
  else Ok merge_list.

(** The body of the inner loop of [merge_packages_config], for one
    [(comp_name, comp_conf)] of the package [pack_name]. *)
Definition merge_component (st : merge_state) (pack_name : string)
  (comp_name : dkey) (comp_conf : value) : merge_state * result unit :=
  let name := key_str comp_name in
  if String.eqb name CONF_CORE then (st, Ok tt)
  else
    let domain_ := partition_head name in
    let loaded :=
      do integration_ <- async_get_integration_with_requirements domain_;
      do component <- get_component integration_;
      Ok (integration_, component) in
    match loaded with
    | Raise ex =>
        if LOAD_EXCEPTIONS ex
        then (log_error st pack_name name
                ("Integration " ++ name ++ " caused error: " ++ str_exn ex), Ok tt)
        else if INTEGRATION_LOAD_EXCEPTIONS ex
        then (log_error st pack_name name (str_exn ex), Ok tt)
        else (st, Raise ex)
    | Ok (integration_, component) =>
        match resolve_merge_list integration_ component with
        | Raise ex => (st, Raise ex)
        | Ok true =>
            let merged :=
              remove_falsy (ensure_list (dict_get (config_of st) name)
                            ++ ensure_list comp_conf)%list in
            (MergeState (dict_set (config_of st) comp_name (VList None merged))
                        (log_of st), Ok tt)
        | Ok false =>
            let comp_conf := match comp_conf with VNone => VDict None [] | c => c end in
            match comp_conf with
            | VDict _ fragment =>
                let config :=
                  if negb (dict_contains (config_of st) name)
                     || negb (is_not_none (dict_get (config_of st) name))
                  then dict_set (config_of st) comp_name (VDict None [])
                  else config_of st in
                match dict_get config name with
                | VDict t target =>
                    let (target', r) := _recursive_merge target fragment in
                    let st' :=
                      MergeState (dict_set config comp_name (VDict t target')) (log_of st) in
                    match r with
                    | Raise ex => (st', Raise ex)
                    | Ok (Some duplicate_key) =>
                        if negb (String.eqb (key_str duplicate_key) "")
                        then (log_error st' pack_name name
                                ("integration '" ++ name ++ "' has duplicate key '"
                                 ++ key_str duplicate_key ++ "'"), Ok tt)
                        else (st', Ok tt)
                    | Ok None => (st', Ok tt)
                    end
                | _ =>
                    (log_error (MergeState config (log_of st)) pack_name name
                       ("integration '" ++ name
                        ++ "' cannot be merged, dict expected in main config"), Ok tt)
                end
            | _ =>
                (log_error st pack_name name
                   ("integration '" ++ name ++ "' cannot be merged, expected a dict"),
                 Ok tt)
            end
        end
    end.

(** [for comp_name, comp_conf in pack_conf.items()]. *)
Fixpoint merge_package (st : merge_state) (pack_name : string) (pack_conf : dict)
  : merge_state * result unit :=
  match pack_conf with
  | [] => (st, Ok tt)
  | (comp_name, comp_conf) :: rest =>
      match merge_component st pack_name comp_name comp_conf with
      | (st', Ok _) => merge_package st' pack_name rest
      | (st', Raise ex) => (st', Raise ex)
      end
  end.

(** [for pack_name, pack_conf in packages.items()]. *)
Fixpoint merge_packages (st : merge_state) (packages : dict)
  : merge_state * result unit :=
  match packages with
  | [] => (st, Ok tt)
  | (pack_name, pack_conf) :: rest =>
      match pack_conf with
      | VDict _ comps =>
          match merge_package st (key_str pack_name) comps with
          | (st', Ok _) => merge_packages st' rest
          | (st', Raise ex) => (st', Raise ex)
          end
      | _ => (st, Raise AttributeError)
      end
  end.

(** [merge_packages_config(hass, config, packages)]: the document and the
    logged failures as the call leaves them, and the document returned or
    the exception raised. *)
Definition merge_packages_config (config : dict) (packages : value)
  : merge_state * result dict :=
  let st := MergeState config [] in
  match PACKAGES_CONFIG_SCHEMA is_slug packages with
  | Raise ex => (st, Raise ex)
  | Ok _ =>
      match packages with
      | VDict _ packs =>
          match merge_packages st packs with
          | (st', Ok _) => (st', Ok (config_of st'))
          | (st', Raise ex) => (st', Raise ex)
          end
      | _ => (st, Raise AttributeError)
      end
  end.
End Merger.

(** ** Error reporter *)

Definition str_int (z : Z) : string := NilZero.string_of_int (Z.to_int z).

Definition str_seg (m : seg) : string :=
  match m with
  | SKey s => s
  | SIdx i => str_int i
  end.

Definition str_line (l : line) : string :=
  match l with
  | LineNo n => str_int n
  | LineUnknown => "?"
  end.

(** [sep.join(parts)]. *)
Fixpoint join (sep : string) (parts : list string) : string :=
  match parts with
  | [] => ""
  | [p] => p
  | p :: rest => p ++ sep ++ join sep rest
  end.

(** [s[:n]], with Python's reading of a negative bound. *)
Definition slice_to (s : string) (n : Z) : string :=
  if (0 <=? n)%Z then String.substring 0 (Z.to_nat n) s
  else String.substring 0 (Z.to_nat (Z.of_nat (String.length s) + n)) s.

(** Truth value of [link: str | None]. *)
Definition link_truthy (link : option string) : bool :=
  match link with
  | Some l => negb (String.eqb l "")
  | None => false
  end.

Definition link_text (link : option string) : string :=
  match link with
  | Some l => l
  | None => "None"
  end.

(** [seq[-1]]. *)
Definition last_item {A : Type} (l : list A) : result A :=
  match rev l with
  | x :: _ => Ok x
  | [] => Raise IndexError
  end.

Section Reporter.
Variable CONF_CORE : string.
(** [_relpath(hass, path)] and the builtin [repr]. *)
Variable _relpath : string -> string.
Variable repr : value -> string.

Definition message_suffix (domain_ : string) (link : option string) : string :=
  if negb (String.eqb domain_ CONF_CORE) && link_truthy link
  then ", please check the docs at " ++ link_text link
  else "".

Definition stringify_invalid (ex : invalid) (domain_ : string) (config : value)
  (link : option string) (max_sub_error_length : Z) : result string :=
  let message_prefix := "Invalid config for '" ++ domain_ ++ "'" in
  let message_suffix := message_suffix domain_ link in
  do found <- find_annotation config (path ex);
  let message_prefix :=
    match found with
    | Some annotation =>
        message_prefix ++ " at " ++ _relpath (fst annotation)
        ++ ", line " ++ str_line (snd annotation)
    | None => message_prefix
    end in
  let path_ := join "->" (map str_seg (path ex)) in
  if String.eqb (error_message ex) "extra keys not allowed" then
    do last <- last_item (path ex);
    Ok (message_prefix ++ ": '" ++ str_seg last ++ "' is an invalid option for '"
        ++ domain_ ++ "', check: " ++ path_ ++ message_suffix)
  else if String.eqb (error_message ex) "required key not provided" then
    do last <- last_item (path ex);
    Ok (message_prefix ++ ": required key '" ++ str_seg last ++ "' not provided"
        ++ message_suffix)
  else
    let output := exception_str ex in
    let output :=
      match error_type ex with
      | Some error_type_ =>
          if negb (String.eqb error_type_ "") then output ++ " for " ++ error_type_
          else output
      | None => output
      end in
    let offending_item_summary := repr (_get_by_path config (path ex)) in
    let offending_item_summary :=
      if (max_sub_error_length <? Z.of_nat (String.length offending_item_summary))%Z
      then slice_to offending_item_summary (max_sub_error_length - 3) ++ "..."
      else offending_item_summary in
    Ok (message_prefix ++ ": " ++ output ++ " '" ++ path_ ++ "', got "
        ++ offending_item_summary ++ message_suffix).
End Reporter.

(** ** Domain validator *)

Inductive ConfigErrorTranslationKey : Type :=
| CONFIG_VALIDATION_ERR
| PLATFORM_CONFIG_VALIDATION_ERR
| COMPONENT_IMPORT_ERR
| CONFIG_PLATFORM_IMPORT_ERR
| CONFIG_VALIDATOR_UNKNOWN_ERR
| CONFIG_SCHEMA_UNKNOWN_ERR
| PLATFORM_VALIDATOR_UNKNOWN_ERR
| PLATFORM_COMPONENT_LOAD_ERR
| PLATFORM_COMPONENT_LOAD_EXC
| PLATFORM_SCHEMA_VALIDATOR_ERR
| INTEGRATION_CONFIG_ERROR.

Record ConfigExceptionInfo : Type := MkExceptionInfo {
  exception : exn;
  translation_key : ConfigErrorTranslationKey;
  platform_name : string;
  config : value;
  integration_link : option string
}.

Record IntegrationConfigInfo : Type := MkConfigInfo {
  info_config : option value;
  exception_info_list : list ConfigExceptionInfo
}.

Definition isinstance_vol_Invalid (e : exn) : bool :=
  match e with VolInvalid _ => true | _ => false end.

Definition isinstance_HomeAssistantError (e : exn) : bool :=
  match e with HomeAssistantError _ => true | _ => false end.

(** [str(p_name)] and the [{p_name}] of an f-string. *)
Definition str_name (p_name : option string) : string :=
  match p_name with
  | Some n => n
  | None => "None"
  end.

(** What one turn of the per-platform loop does: append a validated entry,
    append a failure and [continue], or let an exception escape. *)
Inductive entry_outcome : Type :=
| Validated (p_validated : value)
| Failed (exc_info : ConfigExceptionInfo)
| Escaped (e : exn).

Section Validator.
Variable async_get_integration_with_requirements : string -> result integration.
(** The platform-entry extraction collaborator, of [helpers]. *)
Variable config_per_platform : dict -> string -> list (option string * value).
Variable extract_domain_configs : dict -> string -> list string.

Definition config_without_domain (config_ : dict) (domain_ : string) : dict :=
  let filter_keys := extract_domain_configs config_ domain_ in
  filter (fun kv => negb (existsb (String.eqb (key_str (fst kv))) filter_keys)) config_.

(** The body of [for p_name, p_config in config_per_platform(config, domain)]. *)
Definition process_platform (config_ : dict) (domain_ : string)
  (integration_docs : option string) (component_platform_schema : validator)
  (p_name : option string) (p_config : value) : entry_outcome :=
  let platform_name_ := domain_ ++ "." ++ str_name p_name in
  match component_platform_schema p_config with
  | Raise exc =>
      if isinstance_vol_Invalid exc
      then Failed (MkExceptionInfo exc PLATFORM_CONFIG_VALIDATION_ERR domain_
                     p_config integration_docs)
      else Failed (MkExceptionInfo exc PLATFORM_SCHEMA_VALIDATOR_ERR (str_name p_name)
                     (VDict None config_) integration_docs)
  | Ok p_validated =>
      match p_name with
      | None => Validated p_validated
      | Some name =>
          match async_get_integration_with_requirements name with
          | Raise exc =>
              if INTEGRATION_LOAD_EXCEPTIONS exc
              then Failed (MkExceptionInfo exc PLATFORM_COMPONENT_LOAD_ERR
                             platform_name_ p_config integration_docs)
              else Escaped exc
          | Ok p_integration =>
              match get_platform p_integration domain_ with
              | Raise exc =>
                  if LOAD_EXCEPTIONS exc
                  then Failed (MkExceptionInfo exc PLATFORM_COMPONENT_LOAD_EXC
                                 platform_name_ p_config integration_docs)
                  else Escaped exc
              | Ok platform =>
                  match PLATFORM_SCHEMA platform with
                  | Some platform_schema =>
                      match platform_schema p_config with
                      | Raise exc =>
                          if isinstance_vol_Invalid exc
                          then Failed (MkExceptionInfo exc PLATFORM_CONFIG_VALIDATION_ERR
                                         platform_name_ p_config
                                         (documentation p_integration))
                          else Failed (MkExceptionInfo exc PLATFORM_SCHEMA_VALIDATOR_ERR
                                         name p_config (documentation p_integration))
                      | Ok p_validated => Validated p_validated
                      end
                  | None => Validated p_validated
                  end
              end
          end
      end
  end.

(** The loop, threading [platforms] and [config_exceptions]. *)
Fixpoint process_platforms (config_ : dict) (domain_ : string)
  (integration_docs : option string) (component_platform_schema : validator)
  (entries : list (option string * value))
  (platforms : list value) (config_exceptions : list ConfigExceptionInfo)
  : result (list value * list ConfigExceptionInfo) :=
  match entries with
  | [] => Ok (platforms, config_exceptions)
  | (p_name, p_config) :: rest =>
      match process_platform config_ domain_ integration_docs
              component_platform_schema p_name p_config with
      | Validated p_validated =>
          process_platforms config_ domain_ integration_docs
            component_platform_schema rest (platforms ++ [p_validated])%list
            config_exceptions
      | Failed exc_info =>
          process_platforms config_ domain_ integration_docs
            component_platform_schema rest platforms
            (config_exceptions ++ [exc_info])%list
      | Escaped e => Raise e
      end
  end.

(** A domain-level failure: no config, one [ConfigExceptionInfo]. *)
Definition domain_failure (config_ : dict) (integration_ : integration)
  (exc : exn) (key : ConfigErrorTranslationKey) : IntegrationConfigInfo :=
  MkConfigInfo None
    [MkExceptionInfo exc key (domain integration_) (VDict None config_)
       (documentation integration_)].

(** [async_process_component_config] from the test
    [config_validator is not None and hasattr(...)] on: the custom
    validator, then the whole schema, then the per-platform loop. *)
Definition process_after_probe (config_ : dict) (integration_ : integration)
  (component : module) (config_validator : option module)
  : result IntegrationConfigInfo :=
  let domain_ := domain integration_ in
  let integration_docs := documentation integration_ in
  let whole := VDict None config_ in
  match match config_validator with
        | Some m => async_validate_config m
        | None => None
        end with
  | Some validate =>
      match validate whole with
      | Ok validated => Ok (MkConfigInfo (Some validated) [])
      | Raise exc =>
          if isinstance_vol_Invalid exc || isinstance_HomeAssistantError exc
          then Ok (domain_failure config_ integration_ exc CONFIG_VALIDATION_ERR)
          else Ok (domain_failure config_ integration_ exc CONFIG_VALIDATOR_UNKNOWN_ERR)
      end
  | None =>
      match CONFIG_SCHEMA component with
      | Some config_schema_ =>
          match call config_schema_ whole with
          | Ok validated => Ok (MkConfigInfo (Some validated) [])
          | Raise exc =>
              if isinstance_vol_Invalid exc
              then Ok (domain_failure config_ integration_ exc CONFIG_VALIDATION_ERR)
              else Ok (domain_failure config_ integration_ exc CONFIG_SCHEMA_UNKNOWN_ERR)
          end
      | None =>
          let component_platform_schema :=
            match PLATFORM_SCHEMA_BASE component with
            | Some s => Some s
            | None => PLATFORM_SCHEMA component
            end in
          match component_platform_schema with
          | None => Ok (MkConfigInfo (Some whole) [])
          | Some platform_schema =>
              do looped <-
                 process_platforms config_ domain_ integration_docs
                   platform_schema (config_per_platform config_ domain_) [] [];
              let (platforms, config_exceptions) := looped in
              let config' :=
                dict_set (config_without_domain config_ domain_)
                  (plain domain_) (VList None platforms) in
              Ok (MkConfigInfo (Some (VDict None config')) config_exceptions)
          end
      end
  end.

(** [async_process_component_config(hass, config, integration)]: loading
    the component and probing for the config platform. *)
Definition async_process_component_config (config_ : dict) (integration_ : integration)
  : result IntegrationConfigInfo :=
  match get_component integration_ with
  | Raise exc =>
      if LOAD_EXCEPTIONS exc
      then Ok (domain_failure config_ integration_ exc COMPONENT_IMPORT_ERR)
      else Raise exc
  | Ok component =>
      match get_platform integration_ "config" with
      | Ok config_validator =>
          process_after_probe config_ integration_ component (Some config_validator)
      | Raise (ImportError name msg) =>
          if negb (String.eqb name (pkg_path integration_ ++ ".config"))
          then Ok (domain_failure config_ integration_ (ImportError name msg)
                     CONFIG_PLATFORM_IMPORT_ERR)
          else process_after_probe config_ integration_ component None
      | Raise e => Raise e
      end
  end.
End Validator.

(** ** Logging a package failure *)

Section PackageLog.
Variable CONF_CORE : string.
Variable CONF_PACKAGES : string.
Variable _relpath : string -> string.

(** [_log_pkg_error(hass, package, component, config, message)]: the text
    handed to the logger, ["%s failed: %s"] filled in. *)
Definition _log_pkg_error (package component : string) (config : value)
  (message : string) : result string :=
  let message_prefix := "Setup of package '" ++ package ++ "'" in
  do found <- find_annotation config [SKey CONF_CORE; SKey CONF_PACKAGES; SKey package];
  let message_prefix :=
    match found with
    | Some annotation =>
        message_prefix ++ " at " ++ _relpath (fst annotation)
        ++ ", line " ++ str_line (snd annotation)
    | None => message_prefix
    end in
  Ok (message_prefix ++ " failed: " ++ message).
End PackageLog.

(** ** Bundled errors and generic errors *)

(** A structured error, or a bundle of them ([vol.MultipleInvalid]). *)
Inductive vol_error : Type :=
| SingleInvalid (ex : invalid)
| MultipleInvalid (errors : list vol_error).

(** The builtin [sorted] on a list of strings: ascending in the order of
    [<] on [str], which compares code points and so, on the encoded text,
    bytes. *)
Fixpoint insert_sorted (x : string) (l : list string) : list string :=
  match l with
  | [] => [x]
  | y :: rest => if String.leb x y then x :: l else y :: insert_sorted x rest
  end.

Fixpoint sorted (l : list string) : list string :=
  match l with
  | [] => []
  | x :: rest => insert_sorted x (sorted rest)
  end.

(** A generator consumed in order: the first exception ends it. *)
Section MapResult.
Variables A B : Type.
Variable f : A -> result B.

Fixpoint map_result (l : list A) : result (list B) :=
  match l with
  | [] => Ok []
  | x :: rest =>
      do y <- f x;
      do ys <- map_result rest;
      Ok (y :: ys)
  end.
End MapResult.
Arguments map_result {A B} f l.

Definition newline : string := String (ascii_of_nat 10) EmptyString.

Section Formatters.
Variable CONF_CORE : string.
Variable _relpath : string -> string.
Variable repr : value -> string.
(** [MAX_VALIDATION_ERROR_ITEM_LENGTH], of the schema library. *)
Variable MAX_VALIDATION_ERROR_ITEM_LENGTH : Z.
(** The builtins [str] and [repr] on an exception. *)
Variable str_exception : exn -> string.
Variable repr_exception : exn -> string.

Fixpoint humanize_error (validation_error : vol_error) (domain_ : string)
  (config : value) (link : option string) (max_sub_error_length : Z)
  {struct validation_error} : result string :=
  match validation_error with
  | MultipleInvalid errors =>
      do parts <-
         map_result
           (fun sub_error =>
              humanize_error sub_error domain_ config link max_sub_error_length)
           errors;
      Ok (join newline (sorted parts))
  | SingleInvalid ex =>
      stringify_invalid CONF_CORE _relpath repr ex domain_ config link
        max_sub_error_length
  end.

Definition format_schema_error (ex : vol_error) (domain_ : string) (config : value)
  (link : option string) : result string :=
  humanize_error ex domain_ config link MAX_VALIDATION_ERROR_ITEM_LENGTH.

Definition format_homeassistant_error (ex : exn) (domain_ : string) (config : value)
  (link : option string) : result string :=
  let message_prefix := "Invalid config for '" ++ domain_ ++ "'" in
  do found <- find_annotation config [SKey domain_];
  let message_prefix :=
    match found with
    | Some annotation =>
        message_prefix ++ " at " ++ _relpath (fst annotation)
        ++ ", line " ++ str_line (snd annotation)
    | None => message_prefix
    end in
  let text :=
    if negb (String.eqb (str_exception ex) "") then str_exception ex
    else repr_exception ex in
  let message := message_prefix ++ ": " ++ text in
  if negb (String.eqb domain_ CONF_CORE) && link_truthy link
  then Ok (message ++ ", please check the docs at " ++ link_text link)
  else Ok message.
End Formatters.

(** ** Handling the failures of a domain *)

(** The [ConfigValidationError] the handler raises: its message, the
    exceptions it bundles, its translation key and placeholders. *)
Record ConfigValidationError : Type := MkConfigValidationError {
  cve_message : string;
  cve_exceptions : list exn;
  cve_translation_key : ConfigErrorTranslationKey;
  cve_placeholders : list (string * string)
}.

(** A call of [_LOGGER.error(log_message, exc_info=...)]. *)
Record log_record : Type := LogError {
  logged_message : string;
  exc_info : option exn
}.

(** How [async_handle_component_errors] ends: it returns the config, raises
    the [ConfigValidationError], or lets an exception of the formatters
    escape. *)
Inductive handled : Type :=
| HandledReturn (config_ : option value)
| HandledRaise (error : ConfigValidationError)
| HandledEscape (e : exn).

Section Handler.
Variable CONF_CORE : string.
Variable _relpath : string -> string.
Variable repr : value -> string.
Variable MAX_VALIDATION_ERROR_ITEM_LENGTH : Z.
Variable str_exception : exn -> string.
Variable repr_exception : exn -> string.

(** The placeholders a found annotation adds. *)
Definition annotation_placeholders (found : option annotation) : list (string * string) :=
  match found with
  | Some annotation => [("config_file", fst annotation); ("line", str_line (snd annotation))]
  | None => []
  end.

(** [_get_log_message_and_stack_print_pref].  An [exn] carries one
    structured error, so [format_schema_error] is called on a
    [SingleInvalid]. *)
Definition _get_log_message_and_stack_print_pref (domain_ : string)
  (platform_exception : ConfigExceptionInfo)
  : result (string * bool * list (string * string)) :=
  let exception_ := exception platform_exception in
  let platform_name_ := platform_name platform_exception in
  let platform_config := config platform_exception in
  let link := integration_link platform_exception in
  let placeholders := [("domain", domain_); ("error", str_exception exception_)] in
  match translation_key platform_exception with
  | COMPONENT_IMPORT_ERR =>
      Ok ("Unable to import " ++ domain_ ++ ": " ++ str_exception exception_,
          false, placeholders)
  | CONFIG_PLATFORM_IMPORT_ERR =>
      Ok ("Error importing config platform " ++ domain_ ++ ": "
          ++ str_exception exception_, false, placeholders)
  | CONFIG_VALIDATOR_UNKNOWN_ERR =>
      Ok ("Unknown error calling " ++ domain_ ++ " config validator", true, placeholders)
  | CONFIG_SCHEMA_UNKNOWN_ERR =>
      Ok ("Unknown error calling " ++ domain_ ++ " CONFIG_SCHEMA", true, placeholders)
  | PLATFORM_VALIDATOR_UNKNOWN_ERR =>
      Ok ("Unknown error validating " ++ platform_name_ ++ " platform config with "
          ++ domain_ ++ " component platform schema", true, placeholders)
  | PLATFORM_COMPONENT_LOAD_ERR =>
      Ok ("Platform error: " ++ domain_ ++ " - " ++ str_exception exception_,
          false, placeholders)
  | PLATFORM_COMPONENT_LOAD_EXC =>
      Ok ("Platform error: " ++ domain_ ++ " - " ++ str_exception exception_,
          true, placeholders)
  | PLATFORM_SCHEMA_VALIDATOR_ERR =>
      Ok ("Unknown error validating config for " ++ platform_name_ ++ " platform for "
          ++ domain_ ++ " component with PLATFORM_SCHEMA", true, placeholders)
  | CONFIG_VALIDATION_ERR | PLATFORM_CONFIG_VALIDATION_ERR | INTEGRATION_CONFIG_ERROR =>
      match exception_ with
      | VolInvalid ex =>
          do log_message <-
             format_schema_error CONF_CORE _relpath repr MAX_VALIDATION_ERROR_ITEM_LENGTH
               (SingleInvalid ex) platform_name_ platform_config link;
          do found <- find_annotation platform_config (path ex);
          Ok (log_message, false, (placeholders ++ annotation_placeholders found)%list)
      | _ =>
          do log_message <-
             format_homeassistant_error CONF_CORE _relpath str_exception repr_exception
               exception_ platform_name_ platform_config link;
          do found <- find_annotation platform_config [SKey platform_name_];
          Ok (log_message, true, (placeholders ++ annotation_placeholders found)%list)
      end
  end.

(** The [for] loop of the handler: the records logged so far, and the
    [log_message], [placeholders] and [platform_exception] of the last
    turn. *)
Fixpoint log_failures (domain_ : string) (failures : list ConfigExceptionInfo)
  (logged : list log_record)
  (last : option (string * list (string * string) * ConfigExceptionInfo))
  : list log_record
    * result (option (string * list (string * string) * ConfigExceptionInfo)) :=
  match failures with
  | [] => (logged, Ok last)
  | platform_exception :: rest =>
      match _get_log_message_and_stack_print_pref domain_ platform_exception with
      | Raise e => (logged, Raise e)
      | Ok (log_message, show_stack_trace, placeholders) =>
          let record :=
            LogError log_message
              (if show_stack_trace then Some (exception platform_exception) else None) in
          log_failures domain_ rest (logged ++ [record])%list
            (Some (log_message, placeholders, platform_exception))
      end
  end.

Definition async_handle_component_errors (integration_config_info : IntegrationConfigInfo)
  (integration_ : integration) (raise_on_failure : bool) : list log_record * handled :=
  let config_exception_info := exception_info_list integration_config_info in
  match config_exception_info with
  | [] => ([], HandledReturn (info_config integration_config_info))
  | _ =>
      let domain_ := domain integration_ in
      match log_failures domain_ config_exception_info [] None with
      | (logged, Raise e) => (logged, HandledEscape e)
      | (logged, Ok None) => (logged, HandledReturn (info_config integration_config_info))
      | (logged, Ok (Some (log_message, placeholders, platform_exception))) =>
          if negb raise_on_failure
          then (logged, HandledReturn (info_config integration_config_info))
          else
            let exceptions := map exception config_exception_info in
            if Nat.eqb (List.length config_exception_info) 1
            then (logged,
                  HandledRaise
                    (MkConfigValidationError log_message exceptions
                       (translation_key platform_exception) placeholders))
            else
              let errors := str_int (Z.of_nat (List.length config_exception_info)) in
              (logged,
               HandledRaise
                 (MkConfigValidationError
                    ("Failed to process component config for integration " ++ domain_
                     ++ " due to multiple errors (" ++ errors
                     ++ "), check the logs for more information.")
                    exceptions INTEGRATION_CONFIG_ERROR
                    [("domain", domain_); ("errors", errors)]))
      end
  end.
End Handler.

(** ** Processing a domain and handling its failures *)

Section ProcessAndHandle.
Variable CONF_CORE : string.
Variable _relpath : string -> string.
Variable repr : value -> string.
Variable MAX_VALIDATION_ERROR_ITEM_LENGTH : Z.
Variable str_exception : exn -> string.
Variable repr_exception : exn -> string.
Variable async_get_integration_with_requirements : string -> result integration.
Variable config_per_platform : dict -> string -> list (option string * value).
Variable extract_domain_configs : dict -> string -> list string.

(** [async_process_component_and_handle_errors]: an exception of the first
    call leaves the function before anything is handled. *)
Definition async_process_component_and_handle_errors (config_ : dict)
  (integration_ : integration) (raise_on_failure : bool)
  : result (list log_record * handled) :=
  do integration_config_info <-
     async_process_component_config async_get_integration_with_requirements
       config_per_platform extract_domain_configs config_ integration_;
  Ok (async_handle_component_errors CONF_CORE _relpath repr
        MAX_VALIDATION_ERROR_ITEM_LENGTH str_exception repr_exception
        integration_config_info integration_ raise_on_failure).
End ProcessAndHandle.

(** ** Duplicate auth providers and MFA modules *)

(** What a [set] holds of the values of a document: [None], numbers and
    strings.  [True] is equal to [1] and [False] to [0], with the same
    hash; a sequence or a mapping has no hash. *)
Inductive hashable : Type :=
| HNone
| HInt (z : Z)
| HStr (s : string).

Definition hash_value (v : value) : result hashable :=
  match v with
  | VNone => Ok HNone
  | VBool b => Ok (HInt (if b then 1 else 0))
  | VInt z => Ok (HInt z)
  | VStr _ s => Ok (HStr s)
  | VList _ _ | VDict _ _ => Raise TypeError
  end.

Definition hashable_eqb (a b : hashable) : bool :=
  match a, b with
  | HNone, HNone => true
  | HInt x, HInt y => Z.eqb x y
  | HStr x, HStr y => String.eqb x y
  | _, _ => false
  end.

Definition hashable_pair_eqb (a b : hashable * hashable) : bool :=
  hashable_eqb (fst a) (fst b) && hashable_eqb (snd a) (snd b).

(** The loop both functions share: [key in config_keys], [raise], and
    [config_keys.add(key)]. *)
Section DuplicateScan.
Variable K : Type.
Variable key_eqb : K -> K -> bool.
Variable key_of : value -> result K.
Variable duplicate : value -> result exn.

Fixpoint scan_duplicates (configs : list value) (config_keys : list K) : result unit :=
  match configs with
  | [] => Ok tt
  | config_ :: rest =>
      do key <- key_of config_;
      if existsb (key_eqb key) config_keys
      then do error <- duplicate config_; Raise error
      else scan_duplicates rest (key :: config_keys)
  end.
End DuplicateScan.
Arguments scan_duplicates {K} key_eqb key_of duplicate configs config_keys.

Section NoDuplicates.
Variable CONF_TYPE : string.
Variable CONF_ID : string.
(** The builtin [str] on a value, as an f-string applies it. *)
Variable str_value : value -> string.

(** [vol.Invalid(f"Duplicate ... {config[CONF_TYPE]} found. ...")]. *)
Definition duplicate_error (what : string) (config_ : value) : result exn :=
  do type_ <- getitem config_ (SKey CONF_TYPE);
  let message :=
    "Duplicate " ++ what ++ " " ++ str_value type_ ++ " found. "
    ++ "Please add unique IDs "
    ++ "if you want to have the same " ++ what ++ " twice" in
  Ok (VolInvalid (Invalid [] message None message)).

(** [(config[CONF_TYPE], config.get(CONF_ID))], hashed for the set. *)
Definition provider_key (config_ : value) : result (hashable * hashable) :=
  do type_ <- getitem config_ (SKey CONF_TYPE);
  match config_ with
  | VDict _ d =>
      do hashed_type <- hash_value type_;
      do hashed_id <- hash_value (dict_get d CONF_ID);
      Ok (hashed_type, hashed_id)
  | _ => Raise AttributeError
  end.

Definition _no_duplicate_auth_provider (configs : list value) : result (list value) :=
  do _ <- scan_duplicates hashable_pair_eqb provider_key
            (duplicate_error "auth provider") configs [];
  Ok configs.

(** [config.get(CONF_ID, config[CONF_TYPE])], hashed for the set: the
    method is looked up before its argument is evaluated. *)
Definition mfa_key (config_ : value) : result hashable :=
  match config_ with
  | VDict _ d =>
      do type_ <- getitem config_ (SKey CONF_TYPE);
      hash_value match dict_find d CONF_ID with
                 | Some id_ => id_
                 | None => type_
                 end
  | _ => Raise AttributeError
  end.

Definition _no_duplicate_auth_mfa_module (configs : list value) : result (list value) :=
  do _ <- scan_duplicates hashable_eqb mfa_key (duplicate_error "mfa module") configs [];
  Ok configs.
End NoDuplicates.

(** ** Loading the configuration file *)

(** [node.get(key, default)]: only a mapping has [get]. *)
Definition value_get (node : value) (k : string) (default_ : value) : result value :=
  match node with
  | VDict _ d =>
      Ok match dict_find d k with
         | Some v => v
         | None => default_
         end
  | _ => Raise AttributeError
  end.

(** [value or {}]. *)
Definition or_empty (v : value) : value :=
  if truthy v then v else VDict None [].

Section Loading.
(** [load_yaml(config_path, secrets)], of the YAML helper, and
    [os.path.basename]. *)
Variable load_yaml : string -> result value.
Variable basename : string -> string.
Variable CONF_CORE : string.
Variable CONF_PACKAGES : string.
Variable is_slug : string -> bool.
Variable async_get_integration_with_requirements : string -> result integration.

(** [load_yaml_config_file(config_path, secrets)]: the loop assigns under
    the keys of the mapping it iterates. *)
Definition load_yaml_config_file (config_path : string) : result dict :=
  do conf_dict <- load_yaml config_path;
  match conf_dict with
  | VDict _ items =>
      Ok (fold_left (fun conf kv => dict_set conf (fst kv) (or_empty (snd kv)))
            items items)
  | _ =>
      Raise (HomeAssistantError
               ("The configuration file " ++ basename config_path
                ++ " does not contain a dictionary"))
  end.

(** [async_hass_config_yaml(hass)] on the path of the configuration file.
    The [except] clause re-raises what it caught; the file names it rewrites
    on the marks of a YAML error are not part of [exn]. *)
Definition async_hass_config_yaml (config_path : string) : merge_state * result dict :=
  match load_yaml_config_file config_path with
  | Raise ex => (MergeState [] [], Raise ex)
  | Ok config_ =>
      let core_config :=
        match dict_find config_ CONF_CORE with
        | Some v => v
        | None => VDict None []
        end in
      match value_get core_config CONF_PACKAGES (VDict None []) with
      | Raise ex => (MergeState config_ [], Raise ex)
      | Ok packages =>
          match merge_packages_config CONF_CORE is_slug
                  async_get_integration_with_requirements config_ packages with
          | (st, Ok _) => (st, Ok (config_of st))
          | (st, Raise ex) => (st, Raise ex)
          end
      end
  end.
End Loading.

(** ** The configuration directory *)

(** What a path names: a regular file with its text, or a directory. *)
Inductive fs_node : Type :=
| RegularFile (text : string)
| Dir.

(** The paths that exist, each once. *)
Definition filesystem : Type := list (string * fs_node).

Fixpoint fs_find (fs : filesystem) (p : string) : option fs_node :=
  match fs with
  | [] => None
  | (q, node) :: rest => if String.eqb q p then Some node else fs_find rest p
  end.

Fixpoint fs_set (fs : filesystem) (p : string) (node : fs_node) : filesystem :=
  match fs with
  | [] => [(p, node)]
  | (q, old) :: rest =>
      if String.eqb q p then (q, node) :: rest else (q, old) :: fs_set rest p node
  end.

Definition fs_remove (fs : filesystem) (p : string) : filesystem :=
  filter (fun entry => negb (String.eqb (fst entry) p)) fs.

Definition os_path_exists (fs : filesystem) (p : string) : bool :=
  match fs_find fs p with
  | Some _ => true
  | None => false
  end.

Definition os_path_isfile (fs : filesystem) (p : string) : bool :=
  match fs_find fs p with
  | Some (RegularFile _) => true
  | _ => false
  end.

(** [os.remove(path)]: a regular file goes; a directory or a missing path
    is an [OSError]. *)
Definition os_remove (fs : filesystem) (p : string) : filesystem * result unit :=
  match fs_find fs p with
  | Some (RegularFile _) => (fs_remove fs p, Ok tt)
  | Some Dir => (fs, Raise (OtherException "IsADirectoryError"))
  | None => (fs, Raise (FileNotFoundError p))
  end.

(** [with open(path, "w") as f: f.write(text)]: [None] stands for the
    [OSError] of a path that is a directory or that [writable] refuses. *)
Definition write_file (writable : string -> bool) (fs : filesystem) (p text : string)
  : option filesystem :=
  match fs_find fs p with
  | Some Dir => None
  | _ => if writable p then Some (fs_set fs p (RegularFile text)) else None
  end.

Section ConfigDir.
Variable os_path_join : string -> string -> string.
Variable writable : string -> bool.
Variable YAML_CONFIG_FILE : string.
Variable SECRET_YAML : string.
Variable VERSION_FILE : string.
Variable AUTOMATION_CONFIG_PATH : string.
Variable SCRIPT_CONFIG_PATH : string.
Variable SCENE_CONFIG_PATH : string.
Variable SAFE_MODE_FILENAME : string.
Variable DEFAULT_CONFIG : string.
Variable DEFAULT_SECRETS : string.
Variable __version__ : string.

(** [if not os.path.isfile(path): with open(path, "w") ...]. *)
Definition write_unless_file (fs : filesystem) (p text : string) : option filesystem :=
  if negb (os_path_isfile fs p) then write_file writable fs p text else Some fs.

(** [_write_default_config(config_dir)]: the files as the call leaves them
    and what it returns; the first [OSError] ends the [try] block. *)
Definition _write_default_config (fs : filesystem) (config_dir : string)
  : filesystem * bool :=
  let config_path := os_path_join config_dir YAML_CONFIG_FILE in
  let secret_path := os_path_join config_dir SECRET_YAML in
  let version_path := os_path_join config_dir VERSION_FILE in
  let automation_yaml_path := os_path_join config_dir AUTOMATION_CONFIG_PATH in
  let script_yaml_path := os_path_join config_dir SCRIPT_CONFIG_PATH in
  let scene_yaml_path := os_path_join config_dir SCENE_CONFIG_PATH in
  match write_file writable fs config_path DEFAULT_CONFIG with
  | None => (fs, false)
  | Some fs1 =>
  match write_unless_file fs1 secret_path DEFAULT_SECRETS with
  | None => (fs1, false)
  | Some fs2 =>
  match write_file writable fs2 version_path __version__ with
  | None => (fs2, false)
  | Some fs3 =>
  match write_unless_file fs3 automation_yaml_path "[]" with
  | None => (fs3, false)
  | Some fs4 =>
  match write_unless_file fs4 script_yaml_path "" with
  | None => (fs4, false)
  | Some fs5 =>
  match write_unless_file fs5 scene_yaml_path "" with
  | None => (fs5, false)
  | Some fs6 => (fs6, true)
  end end end end end end.

(** [safe_mode_enabled(config_dir)]. *)
Definition safe_mode_enabled (fs : filesystem) (config_dir : string)
  : filesystem * result bool :=
  let safe_mode_path := os_path_join config_dir SAFE_MODE_FILENAME in
  let safe_mode := os_path_exists fs safe_mode_path in
  if safe_mode
  then match os_remove fs safe_mode_path with
       | (fs', Ok _) => (fs', Ok safe_mode)
       | (fs', Raise e) => (fs', Raise e)
       end
  else (fs, Ok safe_mode).
End ConfigDir.

(** [Path(path).touch()]: nothing changes when the path exists, an empty
    file is created when it does not; a path [writable] refuses is an
    [OSError]. *)
Definition touch (writable : string -> bool) (fs : filesystem) (p : string)
  : filesystem * result unit :=
  if negb (writable p) then (fs, Raise (OtherException "PermissionError"))
  else match fs_find fs p with
       | Some _ => (fs, Ok tt)
       | None => (fs_set fs p (RegularFile ""), Ok tt)
       end.

Section SafeModeFlag.
(** [hass.config.path], of the core module. *)
Variable hass_config_path : string -> string.
Variable writable : string -> bool.
Variable SAFE_MODE_FILENAME : string.

(** [async_enable_safe_mode(hass)]: the job it hands to the executor. *)
Definition async_enable_safe_mode (fs : filesystem) : filesystem * result unit :=
  touch writable fs (hass_config_path SAFE_MODE_FILENAME).
End SafeModeFlag.

(** ** Customize sections of packages *)

(** [d.update(other)]: the bindings of [other] are written in order. *)
Definition dict_update (d other : dict) : dict :=
  fold_left (fun acc kv => dict_set acc (fst kv) (snd kv)) other d.

(** The three customize mappings, and the packages warned about. *)
Record customize_state : Type := CustomizeState {
  cust_exact : dict;
  cust_domain : dict;
  cust_glob : dict;
  warned : list string
}.

Section Customize.
Variable CONF_CORE : string.
Variable CONF_CUSTOMIZE : string.
Variable CONF_CUSTOMIZE_DOMAIN : string.
Variable CONF_CUSTOMIZE_GLOB : string.
Variable CONF_PACKAGES : string.
Variable CUSTOMIZE_CONFIG_SCHEMA : validator.

(** A section of the validated configuration as a mapping.  The schemas
    let only mappings through; anything else is taken to raise. *)
Definition section_of (config_ : value) (key : string) : result dict :=
  do found <- getitem config_ (SKey key);
  match found with
  | VDict _ d => Ok d
  | _ => Raise TypeError
  end.

(** The body of [for name, pkg in config[CONF_PACKAGES].items()] in
    [async_process_ha_core_config]. *)
Definition customize_package (st : customize_state) (name : string) (pkg : value)
  : result customize_state :=
  do pkg_cust <- value_get pkg CONF_CORE VNone;
  match pkg_cust with
  | VNone => Ok st
  | _ =>
      match CUSTOMIZE_CONFIG_SCHEMA pkg_cust with
      | Raise (VolInvalid _) =>
          Ok (CustomizeState (cust_exact st) (cust_domain st) (cust_glob st)
                (warned st ++ [name])%list)
      | Raise e => Raise e
      | Ok validated =>
          do exact <- section_of validated CONF_CUSTOMIZE;
          do by_domain <- section_of validated CONF_CUSTOMIZE_DOMAIN;
          do glob <- section_of validated CONF_CUSTOMIZE_GLOB;
          Ok (CustomizeState (dict_update (cust_exact st) exact)
                (dict_update (cust_domain st) by_domain)
                (dict_update (cust_glob st) glob)
                (warned st))
      end
  end.

Fixpoint customize_packages (st : customize_state) (packages : dict)
  : result customize_state :=
  match packages with
  | [] => Ok st
  | (name, pkg) :: rest =>
      do st' <- customize_package st (key_str name) pkg;
      customize_packages st' rest
  end.

(** The customize part of [async_process_ha_core_config]: what is handed
    to [EntityValues], from the validated core configuration. *)
Definition customize_from_packages (config_ : value) : result customize_state :=
  do exact <- section_of config_ CONF_CUSTOMIZE;
  do by_domain <- section_of config_ CONF_CUSTOMIZE_DOMAIN;
  do glob <- section_of config_ CONF_CUSTOMIZE_GLOB;
  do packages <- section_of config_ CONF_PACKAGES;
  customize_packages (CustomizeState exact by_domain glob []) packages.
End Customize.

(** ** Specification vocabulary *)

(** A scalar (terminal) fragment value: neither a mapping nor a sequence. *)
Definition is_scalar (v : value) : bool :=
  negb (isinstance_dict v) && negb (isinstance_list v).

(** The node a sequence of mapping keys leads to, through mappings only. *)
Fixpoint lookup_path (d : dict) (p : list string) : option value :=
  match p with
  | [] => None
  | [k] => dict_find d k
  | k :: rest =>
      match dict_find d k with
      | Some (VDict _ sub) => lookup_path sub rest
      | _ => None
      end
  end.

(** Mappings have one entry per key, at every depth. *)
Fixpoint unique_keys (v : value) : Prop :=
  match v with
  | VDict _ items =>
      NoDup (keys items)
      /\ (fix all (l : list (dkey * value)) : Prop :=
            match l with
            | [] => True
            | (_, x) :: rest => unique_keys x /\ all rest
            end) items
  | _ => True
  end.

(** *** The merge policy, as the specification words it *)

Inductive MergePolicy : Type :=
| PolicyDict
| PolicyList.

(** The value [_identify_config_schema] returns for a policy; [None] is
    the indeterminate policy. *)
Definition policy_name (p : option MergePolicy) : option string :=
  match p with
  | Some PolicyDict => Some "dict"
  | Some PolicyList => Some "list"
  | None => None
  end.

(** "If the schema is a composed sequence of sub-schemas, find the first
    sub-schema that is itself a mapping type and use it; if none found,
    policy is indeterminate." *)
Definition spec_is_mapping (n : schema_node) : bool :=
  match n with SDict _ => true | _ => false end.

Definition spec_mapping (declared : schema_node) : option schema_node :=
  match declared with
  | SAll sub_schemas => find spec_is_mapping sub_schemas
  | other => Some other
  end.

(** "The concrete resulting type at the domain key: mapping, sequence,
    anything else." *)
Definition spec_policy_of_type (v : value) : option MergePolicy :=
  match v with
  | VDict _ _ => Some PolicyDict
  | VList _ _ => Some PolicyList
  | _ => None
  end.

(** "A form beginning with a mapping-opening token or containing the marker
    for slug-keyed mapping; a form beginning with a sequence-opening token
    or the marker for coerced-to-list wrapping; otherwise indeterminate." *)
Definition spec_policy_of_text (form : string) : option MergePolicy :=
  if String.prefix "{" form || contains "schema_with_slug_keys" form
  then Some PolicyDict
  else if String.prefix "[" form || String.prefix "All(<function ensure_list" form
  then Some PolicyList
  else None.

Definition spec_declared_default (k : schema_key) : option value :=
  match default k with
  | DefaultFactory v => Some v
  | _ => None
  end.

(** The resolver on a mapping schema that has an entry for the domain. *)
Definition spec_resolve_entry (instantiate : validator) (domain_ : string)
  (key : schema_key) (sub_schema_form : string) : result (option MergePolicy) :=
  match spec_declared_default key with
  | Some v =>
      do instance <- instantiate (VDict None [(plain domain_, v)]);
      do at_domain <- getitem instance (SKey domain_);
      Ok (spec_policy_of_type at_domain)
  | None => Ok (spec_policy_of_text sub_schema_form)
  end.

(** *** Stages of the domain validator *)

(** The domain has no custom validator: its config platform is missing, or
    lacks the entry point. *)
Definition no_custom_validator (integration_ : integration) : Prop :=
  (exists msg,
      get_platform integration_ "config"
      = Raise (ImportError (pkg_path integration_ ++ ".config") msg))
  \/ (exists m,
         get_platform integration_ "config" = Ok m /\ async_validate_config m = None).

(** The domain is validated entry by entry with [platform_schema]: its
    component loads, it has no custom validator and no whole schema. *)
Definition per_platform_stage (integration_ : integration) (component : module)
  (platform_schema : validator) : Prop :=
  get_component integration_ = Ok component
  /\ no_custom_validator integration_
  /\ CONFIG_SCHEMA component = None
  /\ match PLATFORM_SCHEMA_BASE component with
     | Some s => s
     | None => match PLATFORM_SCHEMA component with
               | Some s => s
               | None => fun _ => Raise AttributeError
               end
     end = platform_schema
  /\ (PLATFORM_SCHEMA_BASE component <> None \/ PLATFORM_SCHEMA component <> None).

(** An entry passes all applicable checks with validated form [validated]:
    the component's per-platform schema accepts it and, if it names a
    platform, the platform loads and its own schema, if any, accepts it. *)
Definition passes_checks (loader : string -> result integration) (domain_ : string)
  (component_platform_schema : validator) (p_name : option string) (p_config : value)
  (validated : value) : Prop :=
  exists v0,
    component_platform_schema p_config = Ok v0
    /\ match p_name with
       | None => validated = v0
       | Some name =>
           exists p_integration platform,
             loader name = Ok p_integration
             /\ get_platform p_integration domain_ = Ok platform
             /\ match PLATFORM_SCHEMA platform with
                | Some platform_schema => platform_schema p_config = Ok validated
                | None => validated = v0
                end
       end.

(** An entry is invalid against the platform schema with the structured
    error [ex]: the component's per-platform schema rejects it, or the
    schema of the platform it names does. *)
Definition invalid_against_platform_schema (loader : string -> result integration)
  (domain_ : string) (component_platform_schema : validator) (p_name : option string)
  (p_config : value) (ex : invalid) : Prop :=
  component_platform_schema p_config = Raise (VolInvalid ex)
  \/ (exists v0 name p_integration platform platform_schema,
         p_name = Some name
         /\ component_platform_schema p_config = Ok v0
         /\ loader name = Ok p_integration
         /\ get_platform p_integration domain_ = Ok platform
         /\ PLATFORM_SCHEMA platform = Some platform_schema
         /\ platform_schema p_config = Raise (VolInvalid ex)).

(** The same integration with another component module. *)
Definition with_component (integration_ : integration) (component : module) : integration :=
  Integration (domain integration_) (documentation integration_) (pkg_path integration_)
    (Ok component) (get_platform integration_).

(** *** Annotations along a path *)

(** The annotation of the node a path addresses; a path that does not
    resolve addresses nothing. *)
Definition node_annotation (config_ : value) (q : list seg) : option annotation :=
  _get_annotation (_get_by_path config_ q).

(** The annotation of the mapping key a path ends with: the key of the
    parent mapping equal to the last segment. *)
Definition key_annotation (config_ : value) (q : list seg) : option annotation :=
  match rev q with
  | [] => None
  | last :: init =>
      match _get_by_path config_ (rev init) with
      | VDict _ d => scan_keys d last
      | _ => None
      end
  end.

(** No ancestor along [path] (the addressed node included) carries a tag,
    neither on the node nor on the key leading to it. *)
Definition no_tag_along (config_ : value) (path_ : list seg) : Prop :=
  forall n : nat,
    (n <= List.length path_)%nat ->
    node_annotation config_ (firstn n path_) = None
    /\ key_annotation config_ (firstn n path_) = None.

Definition is_none {A : Type} (o : option A) : bool :=
  match o with None => true | Some _ => false end.

(** A node without any tag, on itself, its keys or anything below. *)
Fixpoint no_tags (v : value) : bool :=
  match v with
  | VStr t _ => is_none t
  | VList t l => is_none t && forallb no_tags l
  | VDict t d =>
      is_none t && forallb (fun kv => is_none (key_tag (fst kv)) && no_tags (snd kv)) d
  | _ => true
  end.

(** A node with no tag below it; a mapping or sequence may carry its own. *)
Definition no_tags_inside (v : value) : bool :=
  match v with
  | VList _ l => forallb no_tags l
  | VDict _ d => forallb (fun kv => is_none (key_tag (fst kv)) && no_tags (snd kv)) d
  | other => no_tags other
  end.

(** The first annotation present, in the order the lookup tries them. *)
Definition or_else {A : Type} (a b : option A) : option A :=
  match a with Some x => Some x | None => b end.

(** The annotation of the key [tail] names inside the node [item]. *)
Definition tail_annotation (tail : option seg) (item : value) : option annotation :=
  match tail, item with
  | Some t, VDict _ d => scan_keys d t
  | _, _ => None
  end.

(** What [find_annotation_rec] computes, without the exceptions: at each
    level the key named by [tail] inside the node, then (for a mapping or a
    sequence) the key leading to the node, then the node itself, then the
    same one level up. *)
Fixpoint nearest (config_ : value) (rpath : list seg) (tail : option seg)
  : option annotation :=
  let item := _get_by_path config_ (rev rpath) in
  or_else (tail_annotation tail item)
    (or_else
       (if isinstance_dict item || isinstance_list item
        then key_annotation config_ (rev rpath) else None)
       (or_else (_get_annotation item)
          match rpath with
          | [] => None
          | t :: rest => nearest config_ rest (Some t)
          end)).

(** The tags the lookup meets level by level, from the addressed node up. *)
Fixpoint levels_untagged (config_ : value) (rpath : list seg) : Prop :=
  node_annotation config_ (rev rpath) = None
  /\ key_annotation config_ (rev rpath) = None
  /\ match rpath with
     | [] => True
     | _ :: rest => levels_untagged config_ rest
     end.

(** *** Error messages *)

(** The two shapes whose text names the last segment of the path. *)
Definition names_last_segment (ex : invalid) : Prop :=
  error_message ex = "extra keys not allowed"
  \/ error_message ex = "required key not provided".

(** The order of [sorted]. *)
Definition string_le (a b : string) : Prop := String.leb a b = true.

(** A failure the formatters can print: not a structured error of the
    extra-key or missing-key shape with an empty path. *)
Definition formattable (failure : ConfigExceptionInfo) : Prop :=
  forall ex, exception failure = VolInvalid ex ->
             ~ (names_last_segment ex /\ path ex = []).

(** *** What a packages block names *)

(** The component keys of all packages of a block. *)
Definition component_names (packs : dict) : list string :=
  flat_map (fun kv => match snd kv with VDict _ comps => keys comps | _ => [] end) packs.

(** *** What probing the config platform finds *)

(** The outcome of [integration.get_platform("config")] followed by the
    [hasattr] test: no validator entry point (the platform does not import
    or has none), or an entry point together with the merge hint. *)
Inductive probe : Type :=
| NoValidator
| Hint (hint : string).

Definition probes_as (integration_ : integration) (p : probe) : Prop :=
  match p with
  | NoValidator =>
      (exists name msg, get_platform integration_ "config" = Raise (ImportError name msg))
      \/ (exists m, get_platform integration_ "config" = Ok m
                    /\ async_validate_config m = None)
  | Hint hint =>
      exists m v, get_platform integration_ "config" = Ok m
                  /\ async_validate_config m = Some v
                  /\ PACKAGE_MERGE_HINT m = Some hint
  end.

(** *** Flat fragments *)

Definition flat_scalars (fragment : dict) : Prop :=
  forall kv, In kv fragment -> is_scalar (snd kv) = true.

Definition no_space (s : string) : bool :=
  forallb (fun c => negb (Ascii.eqb c " "%char)) (list_ascii_of_string s).

(** *** Categories of failure *)



(** Loading fails only with the exceptions the validator catches. *)
Definition loads_cleanly (loader : string -> result integration)
  (integration_ : integration) : Prop :=
  (forall e, get_component integration_ = Raise e -> LOAD_EXCEPTIONS e = true)
  /\ (forall e, get_platform integration_ "config" = Raise e ->
                exists name msg, e = ImportError name msg)
  /\ (forall name e, loader name = Raise e -> INTEGRATION_LOAD_EXCEPTIONS e = true)
  /\ (forall name p_integration e,
         loader name = Ok p_integration ->
         get_platform p_integration (domain integration_) = Raise e ->
         LOAD_EXCEPTIONS e = true).

(** *** The error for a duplicate *)

(** The validation error raised for a duplicate of kind [what] whose type
    prints as [type_text]. *)
Definition duplicate_invalid (what type_text : string) : invalid :=
  let message :=
    "Duplicate " ++ what ++ " " ++ type_text ++ " found. Please add unique IDs "
    ++ "if you want to have the same " ++ what ++ " twice" in
  Invalid [] message None message.

(** A fragment all of whose values are sequences. *)
Definition flat_lists (fragment : dict) : Prop :=
  forall kv, In kv fragment -> isinstance_list (snd kv) = true.

(** *** Layers of customization *)

(** What one package contributes to the customizations of [section]:
    that section of its validated core section, or nothing when it has no
    core section or an invalid one. *)
Definition customize_layer (CONF_CORE : string) (CUSTOMIZE_CONFIG_SCHEMA : validator)
  (section : string) (pkg : value) : dict :=
  match pkg with
  | VDict _ d =>
      match dict_get d CONF_CORE with
      | VNone => []
      | pkg_cust =>
          match CUSTOMIZE_CONFIG_SCHEMA pkg_cust with
          | Ok (VDict _ validated) =>
              match dict_find validated section with
              | Some (VDict _ layer) => layer
              | _ => []
              end
          | _ => []
          end
      end
  | _ => []
  end.

(** A package the loop gets through: a mapping whose core section, if it
    has one, is either rejected by the customize schema as invalid or
    validated to a mapping with the three customize sections. *)
Definition customizable (CONF_CORE CONF_CUSTOMIZE CONF_CUSTOMIZE_DOMAIN
  CONF_CUSTOMIZE_GLOB : string) (CUSTOMIZE_CONFIG_SCHEMA : validator) (pkg : value)
  : Prop :=
  exists t d,
    pkg = VDict t d
    /\ (dict_get d CONF_CORE = VNone
        \/ (exists ex, CUSTOMIZE_CONFIG_SCHEMA (dict_get d CONF_CORE) = Raise (VolInvalid ex))
        \/ (exists tv validated t1 exact t2 by_domain t3 glob,
               CUSTOMIZE_CONFIG_SCHEMA (dict_get d CONF_CORE) = Ok (VDict tv validated)
               /\ dict_find validated CONF_CUSTOMIZE = Some (VDict t1 exact)
               /\ dict_find validated CONF_CUSTOMIZE_DOMAIN = Some (VDict t2 by_domain)
               /\ dict_find validated CONF_CUSTOMIZE_GLOB = Some (VDict t3 glob))).

(** The binding of a key in a stack of layers: a later layer wins, and
    within a layer the binding written last. *)
Fixpoint lookup_layers (layers : list dict) (k : string) : option value :=
  match layers with
  | [] => None
  | layer :: rest =>
      match lookup_layers rest k with
      | Some v => Some v
      | None => dict_find (rev layer) k
      end
  end.

(** *** The head of a validation message *)

(** Where a message says the error is: the file and line of the annotation
    found for the path, if any. *)
Definition message_location (_relpath : string -> string) (config_ : value)
  (path_ : list seg) : string :=
  match find_annotation config_ path_ with
  | Ok (Some annotation) =>
      " at " ++ _relpath (fst annotation) ++ ", line " ++ str_line (snd annotation)
  | _ => ""
  end.

(** *** Where a logged failure comes from *)

(** The failure is attributed to a component other than the core section
    of a package of the block. *)
Definition from_a_package (CONF_CORE : string) (packs : dict) (e : pkg_error) : Prop :=
  exists pack t comps,
    In (pack, VDict t comps) packs
    /\ err_package e = key_str pack
    /\ In (err_component e) (keys comps)
    /\ err_component e <> CONF_CORE.

(** *** A document without packages *)

(** The loaded document asks for no package merge: it has no core section,
    or a core section that is empty, or one without a packages block, or
    with an empty one. *)
Definition packages_free (CONF_CORE CONF_PACKAGES : string) (items : dict) : Prop :=
  match dict_find items CONF_CORE with
  | None => True
  | Some core =>
      truthy core = false
      \/ exists t d,
           core = VDict t d
           /\ (dict_find d CONF_PACKAGES = None
               \/ exists t', dict_find d CONF_PACKAGES = Some (VDict t' []))
  end.

(** The document [load_yaml_config_file] returns for a mapping. *)
Definition normalised (items : dict) : dict :=
  map (fun kv => (fst kv, or_empty (snd kv))) items.

(** ** Example collaborators and documents *)

(** A slug: lower-case letters, digits and underscores. *)
Definition slug_char (c : ascii) : bool :=
  let n := nat_of_ascii c in
  ((97 <=? n) && (n <=? 122) || (48 <=? n) && (n <=? 57) || (n =? 95))%nat.

Definition example_is_slug (s : string) : bool :=
  forallb slug_char (list_ascii_of_string s).

(** An integration whose component declares no schema at all and which has
    no companion config platform. *)
Definition bare_module (name : string) : module :=
  Module name None None None None None.

Definition bare_integration (name : string) : integration :=
  Integration name None ("homeassistant.components." ++ name)
    (Ok (bare_module name))
    (fun platform =>
       Raise (ImportError ("homeassistant.components." ++ name ++ "." ++ platform)
                "No module")).

Definition bare_loader (name : string) : result integration :=
  Ok (bare_integration name).

(** The scenario of two packages setting the same scalar of one domain. *)
Definition threshold_package (n : Z) : value :=
  VDict None [(plain "sensor", VDict None [(plain "threshold", VInt n)])].

Definition threshold_packages : value :=
  VDict None [(plain "pkg1", threshold_package 1); (plain "pkg2", threshold_package 2)].

(** A fragment with two scalar keys, merged over a document that sets both. *)
Definition two_conflicts_document : dict :=
  [(plain "sensor", VDict None [(plain "a", VInt 1); (plain "b", VInt 1)])].

Definition two_conflicts_packages : value :=
  VDict None
    [(plain "pkg2",
      VDict None [(plain "sensor", VDict None [(plain "a", VInt 2); (plain "b", VInt 3)])])].

(** An integration whose component declares a per-platform schema, which
    accepts every entry. *)
Definition platform_integration (name : string) : integration :=
  Integration name None ("homeassistant.components." ++ name)
    (Ok (Module name None (Some (fun p_config => Ok p_config)) None None None))
    (fun platform =>
       Raise (ImportError ("homeassistant.components." ++ name ++ "." ++ platform)
                "No module")).

Definition platform_loader (name : string) : result integration :=
  Ok (platform_integration name).

(** Two packages contributing platform entries to [light]. *)
Definition hue_entry : value := VDict None [(plain "platform", VStr None "hue")].
Definition zwave_entry : value := VDict None [(plain "platform", VStr None "zwave")].

Definition light_packages : value :=
  VDict None
    [(plain "pkg1", VDict None [(plain "light", VList None [hue_entry; VNone])]);
     (plain "pkg2", VDict None [(plain "light", zwave_entry)])].

(** A document with one tag, on the key of the package [demo]. *)
Definition demo_tag : tag := Tag "packages.yaml" (Some 3%Z).

Definition demo_document : value :=
  VDict None
    [(plain "core",
      VDict None
        [(plain "packages",
          VDict None
            [(DKey (Some demo_tag) "demo",
              VDict None
                [(plain "light", VList None [hue_entry; zwave_entry]);
                 (plain "sensor", VDict None [(plain "threshold", VInt 1)])])])]);
     (plain "light", VList None [])].

(** A component whose whole schema is a [vol.All] of a deprecation check
    and a mapping with a defaulted key. *)
Definition zone_schema : config_schema :=
  ConfigSchema true
    (SAll [SOpaque;
           SDict [(SchemaKey (Some "zone") (DefaultFactory (VList None [])),
                   "All(<function ensure_list at 0x7f>, [<function a>])")]])
    (fun v => Ok v).

Definition zone_module : module :=
  Module "zone" (Some zone_schema) None None None None.

(** A structured failure for a missing key [bar] of [light]. *)
Definition missing_bar : invalid :=
  Invalid [SKey "light"; SKey "bar"] "required key not provided" None
    "required key not provided".

(** A domain validated entry by entry: its per-platform schema rejects an
    entry that has the key [bad]. *)
Definition bad_key : invalid :=
  Invalid [SKey "bad"] "extra keys not allowed" None "extra keys not allowed".

Definition example_platform_schema : validator :=
  fun p_config =>
    match p_config with
    | VDict _ d => if dict_contains d "bad" then Raise (VolInvalid bad_key) else Ok p_config
    | _ => Raise (VolInvalid bad_key)
    end.

Definition light_integration : integration :=
  Integration "light" (Some "https://example.org/light") "homeassistant.components.light"
    (Ok (Module "light" None (Some example_platform_schema) None None None))
    (fun platform =>
       Raise (ImportError ("homeassistant.components.light." ++ platform) "No module")).

(** The integrations of the platforms: each has a platform module for any
    domain, without a schema of its own. *)
Definition example_platform_loader (name : string) : result integration :=
  Ok (Integration name None ("homeassistant.components." ++ name)
        (Ok (bare_module name)) (fun _ => Ok (bare_module name))).

Definition entry_platform (item : value) : option string :=
  match item with
  | VDict _ d => match dict_get d "platform" with VStr _ n => Some n | _ => None end
  | _ => None
  end.

Definition example_config_per_platform (config_ : dict) (domain_ : string)
  : list (option string * value) :=
  map (fun item => (entry_platform item, item)) (ensure_list (dict_get config_ domain_)).

Definition example_extract_domain_configs (config_ : dict) (domain_ : string)
  : list string := [domain_].

Definition entry_a : value := VDict None [(plain "platform", VStr None "a")].
Definition entry_b : value :=
  VDict None [(plain "platform", VStr None "b"); (plain "bad", VInt 1)].
Definition entry_c : value := VDict None [(plain "platform", VStr None "c")].

Definition three_entries_document : dict :=
  [(plain "light", VList None [entry_a; entry_b; entry_c])].

(** A domain with a custom validator that raises the application's generic
    error. *)
Definition failing_validator_integration : integration :=
  Integration "zone" None "homeassistant.components.zone"
    (Ok (bare_module "zone"))
    (fun _ =>
       Ok (Module "zone" None None None
             (Some (fun _ => Raise (HomeAssistantError "boom"))) (Some "dict"))).

(** Two failures of one domain: a structured one and a platform that did
    not load. *)
Definition two_failures : list ConfigExceptionInfo :=
  [MkExceptionInfo (VolInvalid bad_key) PLATFORM_CONFIG_VALIDATION_ERR "light"
     entry_b (Some "https://example.org/light");
   MkExceptionInfo (IntegrationNotFound "Integration 'nope' not found.")
     PLATFORM_COMPONENT_LOAD_ERR "light.nope" entry_a None].

(** An integration with a config platform that has a validator and gives
    [hint] as its merge hint. *)
Definition hinted_integration (hint : string) (component : module) : integration :=
  Integration (DOMAIN component) None ("homeassistant.components." ++ DOMAIN component)
    (Ok component)
    (fun _ => Ok (Module (DOMAIN component) None None None (Some (fun c => Ok c))
                    (Some hint))).

(** Auth configurations: two of one type told apart by their ids, and a
    module whose id is the type of another. *)
Definition auth_config (type_ : string) (id_ : option string) : value :=
  VDict None
    ((plain "type", VStr None type_)
     :: match id_ with
        | Some i => [(plain "id", VStr None i)]
        | None => []
        end)%list.

(** A configuration file with an empty core section and one domain. *)
Definition example_load_yaml (config_path : string) : result value :=
  Ok (VDict None [(plain "homeassistant", VNone);
                  (plain "light", VList None [hue_entry])]).

(** A configuration directory with a secrets file and the safe-mode flag. *)
Definition example_join (config_dir name : string) : string :=
  config_dir ++ "/" ++ name.

Definition example_filesystem : filesystem :=
  [("/config/secrets.yaml", RegularFile "some_password: welcome");
   ("/config/safe-mode", RegularFile "")].

(** Writing the default files into that directory, every path writable. *)
Definition example_write_default_config : filesystem * bool :=
  _write_default_config example_join (fun _ => true) "configuration.yaml" "secrets.yaml"
    ".HA_VERSION" "automations.yaml" "scripts.yaml" "scenes.yaml" "default_config:"
    "some_password: welcome" "2024.1.0" example_filesystem "/config".

(** A customize schema that fills in the three sections and rejects a
    core section with the key [bad]. *)
Definition section_or_empty (d : dict) (k : string) : value :=
  match dict_find d k with
  | Some v => v
  | None => VDict None []
  end.

Definition example_customize_schema : validator :=
  fun pkg_cust =>
    match pkg_cust with
    | VDict t d =>
        if dict_contains d "bad" then Raise (VolInvalid bad_key)
        else Ok (VDict t [(plain "customize", section_or_empty d "customize");
                          (plain "customize_domain", section_or_empty d "customize_domain");
                          (plain "customize_glob", section_or_empty d "customize_glob")])
    | _ => Raise (VolInvalid bad_key)
    end.

Definition friendly (name : string) : value :=
  VDict None [(plain "friendly_name", VStr None name)].

(** Three packages: one renames the kitchen light, one has an invalid core
    section, one has none. *)
Definition customize_packages_block : dict :=
  [(plain "pkg1",
    VDict None
      [(plain "homeassistant",
        VDict None [(plain "customize",
                     VDict None [(plain "light.kitchen", friendly "Cooking")])])]);
   (plain "pkg2",
    VDict None [(plain "homeassistant", VDict None [(plain "bad", VInt 1)])]);
   (plain "pkg3", VDict None [(plain "light", VList None [])])].

Definition customize_core_config : value :=
  VDict None
    [(plain "customize", VDict None [(plain "light.kitchen", friendly "Kitchen");
                                     (plain "light.hall", friendly "Hall")]);
     (plain "customize_domain", VDict None []);
     (plain "customize_glob", VDict None []);
     (plain "packages", VDict None customize_packages_block)].

(** * Properties *)

Open Scope list_scope.

(** ** Ordered mappings *)

Lemma dict_find_set_same (d : dict) (k : dkey) (v : value) :
  dict_find (dict_set d k v) (key_str k) = Some v.
Proof.
  induction d as [|[k' v'] d IH]; simpl.
  - now rewrite String.eqb_refl.
  - destruct (String.eqb (key_str k') (key_str k)) eqn:E; simpl; rewrite E; auto.
Qed.

Lemma dict_find_set_other (d : dict) (k : dkey) (v : value) (s : string) :
  key_str k <> s -> dict_find (dict_set d k v) s = dict_find d s.
Proof.
  intros Hne. induction d as [|[k' v'] d IH]; simpl.
  - destruct (String.eqb_spec (key_str k) s); congruence.
  - destruct (String.eqb_spec (key_str k') (key_str k)) as [E|E]; simpl.
    + destruct (String.eqb_spec (key_str k') s); congruence.
    + now rewrite IH.
Qed.

Lemma dict_get_set_same (d : dict) (k : dkey) (v : value) :
  dict_get (dict_set d k v) (key_str k) = v.
Proof. unfold dict_get. now rewrite dict_find_set_same. Qed.

Lemma dict_get_set_other (d : dict) (k : dkey) (v : value) (s : string) :
  key_str k <> s -> dict_get (dict_set d k v) s = dict_get d s.
Proof. intros. unfold dict_get. now rewrite dict_find_set_other. Qed.

(** Writing back the value a key already has changes nothing. *)
Lemma dict_set_found (d : dict) (k : dkey) (v : value) :
  dict_find d (key_str k) = Some v -> dict_set d k v = d.
Proof.
  induction d as [|[k' v'] d IH]; simpl; [discriminate|].
  destruct (String.eqb (key_str k') (key_str k)); intros H.
  - congruence.
  - now rewrite IH.
Qed.

Lemma dict_find_not_in (d : dict) (s : string) :
  ~ In s (keys d) -> dict_find d s = None.
Proof.
  induction d as [|[k v] d IH]; simpl; auto.
  intros H. destruct (String.eqb_spec (key_str k) s); [tauto|].
  apply IH. tauto.
Qed.

(** ** The merge loop *)

Section MergeLoopFacts.
Variable nested : value -> dict -> dict * result (option dkey).

(** The loop writes only under the keys of the package. *)
Lemma merge_loop_frame (package : dict) :
  forall (dup : option dkey) (conf : dict) (s : string),
    ~ In s (keys package) ->
    dict_find (fst (merge_loop nested dup conf package)) s = dict_find conf s.
Proof.
  induction package as [|[key pack_conf] rest IH]; intros dup conf s Hs; simpl; auto.
  simpl in Hs.
  assert (Hk : key_str key <> s) by tauto.
  assert (Hr : ~ In s (keys rest)) by tauto.
  destruct pack_conf as [| b | z | t str | t l | t [|e sub]].
  1-4: destruct (is_not_none _); simpl; auto;
       rewrite IH by assumption; now apply dict_find_set_other.
  - rewrite IH by assumption. now apply dict_find_set_other.
  - now apply IH.
  - destruct (dict_find conf (key_str key)) as [cur|] eqn:Hf.
    + rewrite (dict_set_found _ _ _ Hf).
      destruct cur;
        try (match goal with
             | |- context [if ?c then _ else _] => destruct c
             end; simpl; auto; now apply IH).
      destruct (nested _ _) as [target' [dup'|e']]; simpl.
      * rewrite IH by assumption. now apply dict_find_set_other.
      * now apply dict_find_set_other.
    + destruct (nested _ _) as [target' [dup'|e']]; simpl.
      * rewrite IH by assumption.
        rewrite dict_find_set_other by assumption.
        now apply dict_find_set_other.
      * rewrite dict_find_set_other by assumption.
        now apply dict_find_set_other.
Qed.

(** The loop over a package in two parts: the second part runs only if the
    first ran out of keys. *)
Lemma merge_loop_app (pre post : dict) :
  forall (dup : option dkey) (conf : dict),
    merge_loop nested dup conf (pre ++ post)
    = match merge_loop nested dup conf pre with
      | (conf1, Finished dup1) => merge_loop nested dup1 conf1 post
      | stopped => stopped
      end.
Proof.
  induction pre as [|[key pack_conf] pre IH]; intros dup conf; simpl.
  - reflexivity.
  - destruct pack_conf as [| b | z | t str | t l | t [|e sub]].
    1-4: destruct (is_not_none _); auto.
    + apply IH.
    + apply IH.
    + destruct (dict_find conf (key_str key)) as [cur|].
      * destruct cur;
          try (match goal with
               | |- context [if ?c then _ else _] => destruct c
               end; auto).
        destruct (nested _ _) as [target' [dup'|e']]; auto.
      * destruct (nested _ _) as [target' [dup'|e']]; auto.
Qed.
End MergeLoopFacts.

Lemma recursive_merge_fst (conf package : dict) :
  fst (_recursive_merge conf package) = fst (merge_loop merge_node None conf package).
Proof. unfold _recursive_merge. now destruct (merge_loop _ _ _ _). Qed.

Lemma merge_node_dict (t : option tag) (items conf : dict) :
  merge_node (VDict t items) conf = _recursive_merge conf items.
Proof. reflexivity. Qed.

(** The first entry of a mapping under a key splits the mapping. *)
Lemma dict_find_split (d : dict) (s : string) (v : value) :
  dict_find d s = Some v ->
  exists pre key post,
    d = pre ++ (key, v) :: post /\ key_str key = s /\ ~ In s (keys pre).
Proof.
  induction d as [|[k x] d IH]; simpl; [discriminate|].
  destruct (String.eqb_spec (key_str k) s) as [E|E]; intros H.
  - exists [], k, d. inversion H; subst. simpl. tauto.
  - destruct (IH H) as (pre & key & post & -> & Hk & Hpre).
    exists ((k, x) :: pre), key, post. simpl. intuition congruence.
Qed.

Lemma keys_app (a b : dict) : keys (a ++ b) = keys a ++ keys b.
Proof. unfold keys. apply map_app. Qed.

Lemma unique_split (pre post : dict) (key : dkey) (v : value) :
  NoDup (keys (pre ++ (key, v) :: post)) ->
  ~ In (key_str key) (keys pre) /\ ~ In (key_str key) (keys post).
Proof.
  rewrite keys_app. simpl. intros H.
  apply NoDup_remove_2 in H. rewrite in_app_iff in H. tauto.
Qed.

(** A scalar whose target is set stops the loop at once. *)
Lemma merge_loop_conflict (nested : value -> dict -> dict * result (option dkey))
  (dup : option dkey) (conf post : dict) (key : dkey) (v : value) :
  is_scalar v = true ->
  is_not_none (dict_get conf (key_str key)) = true ->
  merge_loop nested dup conf ((key, v) :: post) = (conf, Returned key).
Proof.
  intros Hs Hn. destruct v; try discriminate; simpl; now rewrite Hn.
Qed.

(** Entries that are all empty mappings: none of them is anything else. *)
Lemma only_empty_mappings (entries : dict) :
  forallb (fun entry => is_empty_mapping (snd entry)) entries = true ->
  existsb (fun entry => negb (is_empty_mapping (snd entry))) entries = false.
Proof.
  induction entries as [|entry rest IH]; cbn [forallb existsb]; [reflexivity|].
  intros H. apply andb_true_iff in H. destruct H as [He Hrest].
  rewrite He, (IH Hrest). reflexivity.
Qed.

(** C9. During the recursive merge, a fragment key whose value is an empty
    mapping is skipped by the loop, and the merge leaves the target's entry
    under that key as it was: the same value if there was one, absent if
    there was none.  This holds one level down as well, also where the
    target has no mapping to merge into: a nested fragment that holds only
    empty mappings is skipped entry by entry, so that the loop goes on with
    the target as it was instead of raising. *)
Theorem empty_mapping_fragment_is_noop :
  (forall (dup : option dkey) (conf rest : dict) (key : dkey) (t : option tag),
      merge_loop merge_node dup conf ((key, VDict t []) :: rest)
      = merge_loop merge_node dup conf rest)
  /\ (forall (conf fragment : dict) (key : dkey) (t : option tag),
         NoDup (keys fragment) ->
         In (key, VDict t []) fragment ->
         dict_find (fst (_recursive_merge conf fragment)) (key_str key)
         = dict_find conf (key_str key))
  /\ (forall (dup : option dkey) (conf rest : dict) (key : dkey) (t : option tag)
             (entries : dict) (x : value),
         dict_find conf (key_str key) = Some x ->
         isinstance_dict x = false ->
         entries <> [] ->
         forallb (fun entry => is_empty_mapping (snd entry)) entries = true ->
         merge_loop merge_node dup conf ((key, VDict t entries) :: rest)
         = merge_loop merge_node None conf rest).
Proof.
  split; [reflexivity|]. split.
  - intros conf fragment key t Hu Hin.
    apply in_split in Hin. destruct Hin as (pre & post & ->).
    destruct (unique_split _ _ _ _ Hu) as [Hpre Hpost].
    rewrite recursive_merge_fst, merge_loop_app.
    pose proof (merge_loop_frame merge_node pre None conf _ Hpre) as Hf.
    destruct (merge_loop merge_node None conf pre) as [conf1 [dup1|k1|e1]]; simpl in *; auto.
    now rewrite merge_loop_frame.
  - intros dup conf rest key t entries x Hfind Hx Hsome Hall.
    destruct entries as [|entry entries']; [congruence|].
    cbn [merge_loop]. rewrite Hfind, (dict_set_found _ _ _ Hfind).
    rewrite (only_empty_mappings _ Hall).
    destruct x as [| b | z | tx str | tx l | tx d]; try reflexivity; discriminate.
Qed.

Lemma empty_mapping_witness :
  dict_find
    (fst (_recursive_merge [(plain "threshold", VInt 1)]
            [(plain "threshold", VDict None []); (plain "unit", VDict (Some demo_tag) [])]))
    (key_str (plain "unit"))
  = dict_find [(plain "threshold", VInt 1)] (key_str (plain "unit"))
  /\ merge_loop merge_node None [(plain "k", VInt 5)]
       [(plain "k", VDict None [(plain "a", VDict None [])]); (plain "z", VInt 7)]
     = merge_loop merge_node None [(plain "k", VInt 5)] [(plain "z", VInt 7)].
Proof.
  split.
  - apply (proj1 (proj2 empty_mapping_fragment_is_noop) [(plain "threshold", VInt 1)]
             [(plain "threshold", VDict None []); (plain "unit", VDict (Some demo_tag) [])]
             (plain "unit") (Some demo_tag)).
    + repeat constructor; simpl; intuition discriminate.
    + right. left. reflexivity.
  - apply (proj2 (proj2 empty_mapping_fragment_is_noop) None [(plain "k", VInt 5)]
             [(plain "z", VInt 7)] (plain "k") None [(plain "a", VDict None [])] (VInt 5)).
    + reflexivity.
    + reflexivity.
    + discriminate.
    + reflexivity.
Defined.

(** The run of the program on a nested fragment of empty mappings over a
    scalar: the scalar stays, the next key is merged, nothing is reported. *)
Example nested_empty_mappings_over_a_scalar :
  _recursive_merge [(plain "k", VInt 5)]
    [(plain "k", VDict None [(plain "a", VDict None [])]); (plain "z", VInt 7)]
  = ([(plain "k", VInt 5); (plain "z", VInt 7)], Ok None).
Proof. reflexivity. Qed.

(** ** One fragment, one failure *)

Section MergerFacts.
Variable CONF_CORE : string.
Variable loader : string -> result integration.

(** One turn of the inner loop of [merge_packages_config] logs at most
    one failure. *)
Lemma merge_component_logs_at_most_one (st : merge_state) (pack_name : string)
  (comp_name : dkey) (comp_conf : value) :
  exists extra,
    log_of (fst (merge_component CONF_CORE loader st pack_name comp_name comp_conf))
    = log_of st ++ extra
    /\ (List.length extra <= 1)%nat.
Proof.
  assert (H0 : exists extra, log_of st = log_of st ++ extra /\ (List.length extra <= 1)%nat).
  { exists []. rewrite app_nil_r. auto. }
  assert (H1 : forall p c m, exists extra,
               log_of (log_error st p c m) = log_of st ++ extra
               /\ (List.length extra <= 1)%nat).
  { intros. eexists. split; [reflexivity|]. simpl. lia. }
  assert (H2 : forall c p n m, exists extra,
               log_of (log_error (MergeState c (log_of st)) p n m) = log_of st ++ extra
               /\ (List.length extra <= 1)%nat).
  { intros. eexists. split; [reflexivity|]. simpl. lia. }
  unfold merge_component.
  repeat match goal with
         | |- context [let (_, _) := ?x in _] => destruct x
         | |- context [match ?x with _ => _ end] => destruct x
         end;
    cbn [fst log_of]; solve [exact H0 | apply H1 | apply H2].
Qed.
End MergerFacts.

(** C10. When the merge loop reaches a scalar key whose target is already
    set to a non-null value, [_recursive_merge] returns that key at once:
    the document is as the keys before it left it, whatever keys follow in
    the fragment; and the merge of one (package, domain) pair logs at most
    one failure, however many keys conflict. *)
Theorem scalar_conflict_stops_the_merge :
  (forall (conf conf1 pre post : dict) (dup : option dkey) (key : dkey) (v : value),
      merge_loop merge_node None conf pre = (conf1, Finished dup) ->
      is_scalar v = true ->
      is_not_none (dict_get conf1 (key_str key)) = true ->
      _recursive_merge conf (pre ++ (key, v) :: post) = (conf1, Ok (Some key)))
  /\ (forall (CONF_CORE : string) (loader : string -> result integration)
             (st : merge_state) (pack_name : string) (comp_name : dkey)
             (comp_conf : value),
         exists extra,
           log_of (fst (merge_component CONF_CORE loader st pack_name comp_name comp_conf))
           = log_of st ++ extra
           /\ (List.length extra <= 1)%nat).
Proof.
  split.
  - intros conf conf1 pre post dup key v Hpre Hs Hn.
    unfold _recursive_merge. rewrite merge_loop_app, Hpre.
    now rewrite merge_loop_conflict.
  - intros. apply merge_component_logs_at_most_one.
Qed.

Lemma scalar_conflict_witness :
  _recursive_merge [(plain "a", VInt 1); (plain "b", VInt 1)]
    ([(plain "c", VInt 5)] ++ (plain "a", VInt 2) :: [(plain "b", VInt 3); (plain "d", VInt 4)])
  = ([(plain "a", VInt 1); (plain "b", VInt 1); (plain "c", VInt 5)],
     Ok (Some (plain "a"))).
Proof.
  apply (proj1 scalar_conflict_stops_the_merge
           [(plain "a", VInt 1); (plain "b", VInt 1)]
           [(plain "a", VInt 1); (plain "b", VInt 1); (plain "c", VInt 5)]
           [(plain "c", VInt 5)] [(plain "b", VInt 3); (plain "d", VInt 4)]
           None (plain "a") (VInt 2));
    reflexivity.
Defined.

(** ** Conflicting scalars *)

Lemma unique_keys_top (t : option tag) (items : dict) :
  unique_keys (VDict t items) -> NoDup (keys items).
Proof. simpl. tauto. Qed.

Lemma unique_keys_entry (t : option tag) (items : dict) (k : dkey) (x : value) :
  unique_keys (VDict t items) -> In (k, x) items -> unique_keys x.
Proof.
  simpl. intros [_ H]. induction items as [|[k' x'] items IH]; simpl; [tauto|].
  destruct H as [Hx Hrest]. intros [E|Hin].
  - now inversion E; subst.
  - now apply IH.
Qed.

Lemma lookup_path_cons (d : dict) (k k2 : string) (r : list string) :
  lookup_path d (k :: k2 :: r)
  = match dict_find d k with
    | Some (VDict _ sub) => lookup_path sub (k2 :: r)
    | _ => None
    end.
Proof. reflexivity. Qed.

(** A scalar leaf of the fragment whose target is set to a non-null value
    never replaces that value, at any depth and however the merge ends. *)
Lemma merge_keeps_set_leaf (p : list string) :
  forall (conf fragment : dict) (v w : value),
    unique_keys (VDict None fragment) ->
    lookup_path fragment p = Some v -> is_scalar v = true ->
    lookup_path conf p = Some w -> is_not_none w = true ->
    lookup_path (fst (_recursive_merge conf fragment)) p = Some w.
Proof.
  induction p as [|k rest IH]; intros conf fragment v w Hu Hf Hs Hc Hn; [discriminate|].
  destruct rest as [|k2 r].
  - simpl in Hf, Hc |- *.
    destruct (dict_find_split _ _ _ Hf) as (pre & key & post & -> & <- & Hpre).
    rewrite recursive_merge_fst, merge_loop_app.
    pose proof (merge_loop_frame merge_node pre None conf _ Hpre) as Hfr.
    destruct (merge_loop merge_node None conf pre) as [c1 [d1|k1|e1]];
      cbn [fst] in Hfr |- *; try congruence.
    rewrite merge_loop_conflict; auto; [cbn [fst]; congruence|].
    unfold dict_get. now rewrite Hfr, Hc.
  - rewrite lookup_path_cons in Hf, Hc |- *.
    destruct (dict_find fragment k) as [[| | | | |tf sub]|] eqn:Ef; try discriminate.
    destruct (dict_find conf k) as [[| | | | |tc target]|] eqn:Ec; try discriminate.
    destruct (dict_find_split _ _ _ Ef) as (pre & key & post & -> & <- & Hpre).
    destruct (unique_split _ _ _ _ (unique_keys_top _ _ Hu)) as [_ Hpost].
    assert (Hsub : unique_keys (VDict None sub)).
    { apply (unique_keys_entry None _ key (VDict tf sub)) in Hu; [exact Hu|].
      apply in_or_app. right. now left. }
    specialize (IH target sub v w Hsub Hf Hs Hc Hn).
    rewrite recursive_merge_fst, merge_loop_app.
    pose proof (merge_loop_frame merge_node pre None conf _ Hpre) as Hfr.
    destruct (merge_loop merge_node None conf pre) as [c1 [d1|k1|e1]];
      cbn [fst] in Hfr |- *; try (rewrite Hfr, Ec; exact Hc).
    rewrite Ec in Hfr.
    destruct sub as [|e sub']; [destruct r; discriminate|].
    cbn [merge_loop]. rewrite Hfr, (dict_set_found _ _ _ Hfr), merge_node_dict.
    destruct (_recursive_merge target (e :: sub')) as [target' res].
    simpl fst in IH.
    destruct res as [dup'|e']; simpl fst.
    + rewrite merge_loop_frame by assumption.
      now rewrite dict_find_set_same.
    + now rewrite dict_find_set_same.
Qed.

Lemma dict_set_absent (d : dict) (k : dkey) (v : value) :
  dict_find d (key_str k) = None -> dict_set d k v = d ++ [(k, v)].
Proof.
  induction d as [|[k' v'] d IH]; simpl; auto.
  destruct (String.eqb (key_str k') (key_str k)); [discriminate|].
  intros H. now rewrite IH.
Qed.

Lemma dict_find_app_absent (d : dict) (k : dkey) (v : value) :
  dict_find d (key_str k) = None -> dict_find (d ++ [(k, v)]) (key_str k) = Some v.
Proof.
  intros H. rewrite <- (dict_set_absent _ _ _ H). apply dict_find_set_same.
Qed.

Lemma dict_set_app_last (d : dict) (k : dkey) (x y : value) :
  dict_find d (key_str k) = None -> dict_set (d ++ [(k, x)]) k y = d ++ [(k, y)].
Proof.
  induction d as [|[k' v'] d IH]; simpl.
  - now rewrite String.eqb_refl.
  - destruct (String.eqb (key_str k') (key_str k)); [discriminate|].
    intros H. now rewrite IH.
Qed.

Section ConflictFacts.
Variable CONF_CORE : string.
Variable loader : string -> result integration.

(** The dict-policy turn of [merge_packages_config] on a mapping fragment
    whose target slot holds a mapping. *)
Lemma merge_component_dict (st : merge_state) (pack_name : string)
  (comp_name : dkey) (tf : option tag) (fragment : dict)
  (integration_ : integration) (component : module)
  (t : option tag) (target : dict) :
  String.eqb (key_str comp_name) CONF_CORE = false ->
  loader (partition_head (key_str comp_name)) = Ok integration_ ->
  get_component integration_ = Ok component ->
  resolve_merge_list integration_ component = Ok false ->
  dict_find (config_of st) (key_str comp_name) = Some (VDict t target) ->
  merge_component CONF_CORE loader st pack_name comp_name (VDict tf fragment)
  = let (target', r) := _recursive_merge target fragment in
    let st' :=
      MergeState (dict_set (config_of st) comp_name (VDict t target')) (log_of st) in
    match r with
    | Raise ex => (st', Raise ex)
    | Ok (Some duplicate_key) =>
        if negb (String.eqb (key_str duplicate_key) "")
        then (log_error st' pack_name (key_str comp_name)
                ("integration '" ++ key_str comp_name ++ "' has duplicate key '"
                 ++ key_str duplicate_key ++ "'")%string, Ok tt)
        else (st', Ok tt)
    | Ok None => (st', Ok tt)
    end.
Proof.
  intros Hcore Hload Hcomp Hpol Hfind.
  unfold merge_component. rewrite Hcore, Hload. cbn [bind].
  rewrite Hcomp. cbn [bind]. rewrite Hpol.
  unfold dict_contains, dict_get. rewrite Hfind. cbn [negb orb is_not_none].
  rewrite Hfind. reflexivity.
Qed.

(** The same turn when the target slot is absent: an empty mapping is
    created under the package's key first. *)
Lemma merge_component_dict_fresh (st : merge_state) (pack_name : string)
  (comp_name : dkey) (tf : option tag) (fragment : dict)
  (integration_ : integration) (component : module) :
  String.eqb (key_str comp_name) CONF_CORE = false ->
  loader (partition_head (key_str comp_name)) = Ok integration_ ->
  get_component integration_ = Ok component ->
  resolve_merge_list integration_ component = Ok false ->
  dict_find (config_of st) (key_str comp_name) = None ->
  merge_component CONF_CORE loader st pack_name comp_name (VDict tf fragment)
  = merge_component CONF_CORE loader
      (MergeState (config_of st ++ [(comp_name, VDict None [])]) (log_of st))
      pack_name comp_name (VDict tf fragment).
Proof.
  intros Hcore Hload Hcomp Hpol Hfind.
  rewrite (merge_component_dict
             (MergeState (config_of st ++ [(comp_name, VDict None [])]) (log_of st))
             pack_name comp_name tf fragment integration_ component None [])
    by (auto; now apply dict_find_app_absent).
  unfold merge_component. rewrite Hcore, Hload. cbn [bind].
  rewrite Hcomp. cbn [bind]. rewrite Hpol.
  unfold dict_contains, dict_get. rewrite Hfind. cbn [negb orb].
  rewrite (dict_set_absent _ _ _ Hfind), (dict_find_app_absent _ _ _ Hfind).
  cbn [config_of log_of]. reflexivity.
Qed.
End ConflictFacts.

(** C1, as the code has it.  A scalar leaf of a fragment never replaces a
    non-null value its target already holds, at any depth.  When the merge of
    a domain fragment reaches, directly in the fragment, a scalar key whose
    target is set to a non-null value, the merge of that (package, domain)
    pair stops there and logs one duplicate-key failure naming that key (a
    non-empty key) for the package.  In the scenario of [pkg1] and [pkg2]
    both setting [sensor.threshold], the document keeps 1 and the one logged
    failure names [threshold] for [pkg2]. *)
Theorem first_duplicate_scalar_is_reported_and_not_applied :
  (forall (p : list string) (conf fragment : dict) (v w : value),
      unique_keys (VDict None fragment) ->
      lookup_path fragment p = Some v -> is_scalar v = true ->
      lookup_path conf p = Some w -> is_not_none w = true ->
      lookup_path (fst (_recursive_merge conf fragment)) p = Some w)
  /\ (forall (CONF_CORE : string) (loader : string -> result integration)
             (st : merge_state) (pack_name : string) (comp_name : dkey)
             (tf : option tag) (pre post : dict) (key : dkey) (v : value)
             (integration_ : integration) (component : module)
             (t : option tag) (target target1 : dict) (dup : option dkey),
         String.eqb (key_str comp_name) CONF_CORE = false ->
         loader (partition_head (key_str comp_name)) = Ok integration_ ->
         get_component integration_ = Ok component ->
         resolve_merge_list integration_ component = Ok false ->
         dict_find (config_of st) (key_str comp_name) = Some (VDict t target) ->
         merge_loop merge_node None target pre = (target1, Finished dup) ->
         is_scalar v = true ->
         is_not_none (dict_get target1 (key_str key)) = true ->
         key_str key <> ""%string ->
         merge_component CONF_CORE loader st pack_name comp_name
           (VDict tf (pre ++ (key, v) :: post))
         = (MergeState (dict_set (config_of st) comp_name (VDict t target1))
              (log_of st
               ++ [PkgError pack_name (key_str comp_name)
                     ("integration '" ++ key_str comp_name ++ "' has duplicate key '"
                      ++ key_str key ++ "'")%string]),
            Ok tt))
  /\ (forall (CONF_CORE : string) (is_slug : string -> bool)
             (loader : string -> result integration) (config_ : dict)
             (integration_ : integration) (component : module),
         String.eqb "sensor" CONF_CORE = false ->
         is_slug "pkg1"%string = true -> is_slug "pkg2"%string = true ->
         loader "sensor"%string = Ok integration_ ->
         get_component integration_ = Ok component ->
         resolve_merge_list integration_ component = Ok false ->
         dict_find config_ "sensor" = None ->
         let r := merge_packages_config CONF_CORE is_slug loader config_ threshold_packages in
         lookup_path (config_of (fst r)) ["sensor"; "threshold"]%string = Some (VInt 1)
         /\ log_of (fst r)
            = [PkgError "pkg2" "sensor" "integration 'sensor' has duplicate key 'threshold'"]
         /\ snd r = Ok (config_of (fst r))).
Proof.
  split; [exact merge_keeps_set_leaf|]. split.
  - intros CONF_CORE loader st pack_name comp_name tf pre post key v integration_
      component t target target1 dup Hcore Hload Hcomp Hpol Hfind Hpre Hs Hn Hk.
    rewrite (merge_component_dict CONF_CORE loader st pack_name comp_name tf _
               integration_ component t target) by assumption.
    unfold _recursive_merge. rewrite merge_loop_app, Hpre.
    rewrite merge_loop_conflict by assumption. cbn [exit_result].
    destruct (String.eqb_spec (key_str key) ""); [contradiction|]. reflexivity.
  - intros CONF_CORE is_slug loader config_ integration_ component
      Hcore Hs1 Hs2 Hload Hcomp Hpol Hfind r.
    assert (Hr : r = (MergeState
                        (config_ ++ [(plain "sensor", VDict None [(plain "threshold", VInt 1)])])
                        [PkgError "pkg2" "sensor"
                           "integration 'sensor' has duplicate key 'threshold'"],
                      Ok (config_ ++ [(plain "sensor",
                                       VDict None [(plain "threshold", VInt 1)])]))).
    { subst r. unfold merge_packages_config, PACKAGES_CONFIG_SCHEMA, threshold_packages.
      cbn [packages_shape_ok forallb fst snd key_str plain package_shape_ok
             threshold_package component_value_ok andb].
      rewrite Hs1, Hs2. cbn [andb merge_packages merge_package key_str plain threshold_package].
      rewrite (merge_component_dict_fresh CONF_CORE loader _ "pkg1" (plain "sensor") None _
                 integration_ component) by assumption.
      rewrite (merge_component_dict CONF_CORE loader _ "pkg1" (plain "sensor") None _
                 integration_ component None [])
        by (auto; now apply (dict_find_app_absent config_ (plain "sensor"))).
      change (_recursive_merge [] [(plain "threshold", VInt 1)])
        with ([(plain "threshold", VInt 1)], Ok (@None dkey)).
      cbn [config_of log_of].
      assert (Hset : forall x y,
                 dict_set (config_ ++ [(plain "sensor", x)]) (plain "sensor") y
                 = config_ ++ [(plain "sensor", y)]).
      { intros x y. now apply dict_set_app_last. }
      rewrite Hset.
      rewrite (merge_component_dict CONF_CORE loader _ "pkg2" (plain "sensor") None _
                 integration_ component None [(plain "threshold", VInt 1)])
        by (auto; now apply (dict_find_app_absent config_ (plain "sensor"))).
      change (_recursive_merge [(plain "threshold", VInt 1)] [(plain "threshold", VInt 2)])
        with ([(plain "threshold", VInt 1)], Ok (Some (plain "threshold"))).
      cbn [config_of log_of]. rewrite Hset. reflexivity. }
    rewrite Hr. cbn [fst snd config_of log_of]. repeat split.
    rewrite lookup_path_cons.
    rewrite (dict_find_app_absent config_ (plain "sensor")) by assumption. reflexivity.
Qed.

Lemma first_duplicate_scalar_witness :
  lookup_path
    (fst (_recursive_merge [(plain "threshold", VInt 1)] [(plain "threshold", VInt 2)]))
    ["threshold"%string] = Some (VInt 1)
  /\ merge_component "homeassistant" bare_loader (MergeState two_conflicts_document [])
       "pkg2" (plain "sensor")
       (VDict None ([] ++ (plain "a", VInt 2) :: [(plain "b", VInt 3)]))
     = (MergeState
          (dict_set two_conflicts_document (plain "sensor")
             (VDict None [(plain "a", VInt 1); (plain "b", VInt 1)]))
          ([] ++ [PkgError "pkg2" "sensor"
                    ("integration '" ++ "sensor" ++ "' has duplicate key '" ++ "a" ++ "'")%string]),
        Ok tt)
  /\ (let r := merge_packages_config "homeassistant" example_is_slug bare_loader []
                 threshold_packages in
      lookup_path (config_of (fst r)) ["sensor"; "threshold"]%string = Some (VInt 1)
      /\ log_of (fst r)
         = [PkgError "pkg2" "sensor" "integration 'sensor' has duplicate key 'threshold'"]
      /\ snd r = Ok (config_of (fst r))).
Proof.
  destruct first_duplicate_scalar_is_reported_and_not_applied as (Hkeep & Hreport & Hscenario).
  split; [|split].
  - apply (Hkeep ["threshold"%string] _ _ (VInt 2) (VInt 1)); try reflexivity.
    simpl. repeat split. repeat constructor. simpl. tauto.
  - apply (Hreport "homeassistant" bare_loader (MergeState two_conflicts_document [])
             "pkg2" (plain "sensor") None [] [(plain "b", VInt 3)] (plain "a") (VInt 2)
             (bare_integration "sensor") (bare_module "sensor") None
             [(plain "a", VInt 1); (plain "b", VInt 1)]
             [(plain "a", VInt 1); (plain "b", VInt 1)] None);
      try reflexivity.
    simpl. discriminate.
  - apply (Hscenario "homeassistant" example_is_slug bare_loader []
             (bare_integration "sensor") (bare_module "sensor"));
      reflexivity.
Defined.

(** C1 does not hold as stated: with two scalar keys of one fragment both
    set in the document, only the first is reported; no failure names the
    second. *)
Lemma second_conflicting_key_is_not_named :
  let r := merge_packages_config "homeassistant" example_is_slug bare_loader
             two_conflicts_document two_conflicts_packages in
  lookup_path two_conflicts_document ["sensor"; "b"]%string = Some (VInt 1)
  /\ log_of (fst r)
     = [PkgError "pkg2" "sensor" "integration 'sensor' has duplicate key 'a'"]
  /\ ~ In (PkgError "pkg2" "sensor" "integration 'sensor' has duplicate key 'b'")
         (log_of (fst r)).
Proof.
  vm_compute. repeat split. intros [H|[]]. discriminate H.
Qed.

(** ** List policy *)




Section ListPolicyFacts.
Variable CONF_CORE : string.
Variable loader : string -> result integration.

End ListPolicyFacts.



(** ** Shape check first *)

(** C6. [merge_packages_config] checks the shape of the whole packages
    block before it merges anything: a block that fails the check makes the
    call raise the one validation error, with the document as it was and
    nothing logged, whatever the loader would have answered. *)
Theorem invalid_packages_abort_the_merge (CONF_CORE : string) (is_slug : string -> bool)
  (loader : string -> result integration) (config_ : dict) (packages : value) :
  packages_shape_ok is_slug packages = false ->
  merge_packages_config CONF_CORE is_slug loader config_ packages
  = (MergeState config_ [], Raise (VolInvalid shape_error)).
Proof.
  intros H. unfold merge_packages_config, PACKAGES_CONFIG_SCHEMA. now rewrite H.
Qed.

Lemma invalid_packages_witness :
  merge_packages_config "homeassistant" example_is_slug platform_loader
    [(plain "light", VList None [hue_entry])]
    (VDict None
       [(plain "pkg1", VDict None [(plain "light", VList None [zwave_entry])]);
        (plain "Not A Slug", VDict None [(plain "light", VList None [zwave_entry])])])
  = (MergeState [(plain "light", VList None [hue_entry])] [],
     Raise (VolInvalid shape_error)).
Proof.
  apply invalid_packages_abort_the_merge. reflexivity.
Defined.

(** ** Annotation lookup *)

Lemma reduce_getitem_app (p q : list seg) (data : value) :
  reduce_getitem (p ++ q) data = do v <- reduce_getitem p data; reduce_getitem q v.
Proof.
  unfold reduce_getitem. rewrite fold_left_app.
  destruct (fold_left _ p (Ok data)) as [v|e]; simpl; auto.
  induction q; simpl; auto.
Qed.

Lemma reduce_getitem_snoc (p : list seg) (t : seg) (data : value) :
  reduce_getitem (p ++ [t]) data = do v <- reduce_getitem p data; getitem v t.
Proof.
  rewrite reduce_getitem_app. destruct (reduce_getitem p data); reflexivity.
Qed.

(** Only mappings and sequences have mappings and sequences as items. *)
Lemma getitem_container (v x : value) (t : seg) :
  getitem v t = Ok x ->
  isinstance_dict x || isinstance_list x = true ->
  isinstance_dict v || isinstance_list v = true.
Proof.
  destruct v, t; simpl; try discriminate; auto.
  destruct (py_index _ _); [|discriminate]. intros H. inversion H; subst. discriminate.
Qed.

(** An element equal to an index carries no annotation. *)
Lemma scan_items_index (l : list value) (i : Z) : scan_items l (SIdx i) = None.
Proof.
  induction l as [|x l IH]; simpl; auto.
  destruct x; simpl; auto; destruct (Z.eqb _ _); auto.
Qed.

Lemma getitem_list_index (t : option tag) (l : list value) (s : seg) (x : value) :
  getitem (VList t l) s = Ok x -> exists i, s = SIdx i.
Proof. destruct s; simpl; [discriminate|]. eauto. Qed.

(** The parent of a mapping or sequence the path resolves to. *)
Lemma parent_of_container (config_ : value) (init : list seg) (last : seg) :
  let item := _get_by_path config_ (rev (last :: init)) in
  isinstance_dict item || isinstance_list item = true ->
  find_annotation_for_key (_get_by_path config_ (rev init)) last
  = Ok (key_annotation config_ (rev (last :: init))).
Proof.
  intros item Hitem. subst item. revert Hitem.
  unfold key_annotation. rewrite rev_involutive.
  unfold _get_by_path. simpl rev. rewrite reduce_getitem_snoc.
  destruct (reduce_getitem (rev init) config_) as [parent|e]; [|discriminate].
  simpl bind. destruct (getitem parent last) as [x|e] eqn:Hg; [|discriminate].
  intros Hitem.
  pose proof (getitem_container _ _ _ Hg Hitem) as Hp.
  destruct parent; try discriminate; simpl; auto.
  destruct (getitem_list_index _ _ _ _ Hg) as [i ->]. now rewrite scan_items_index.
Qed.

(** [find_annotation_rec] never raises and computes [nearest]. *)
Ltac case_options :=
  cbn [bind find_annotation_for_key or_else isinstance_dict isinstance_list orb
         tail_annotation];
  repeat (match goal with
          | |- context [match ?x with Some _ => _ | None => _ end] => destruct x
          end;
          cbn [bind or_else]);
  try reflexivity.

Lemma find_annotation_rec_nearest (config_ : value) (rpath : list seg) :
  forall tail, find_annotation_rec config_ rpath tail = Ok (nearest config_ rpath tail).
Proof.
  induction rpath as [|last init IH]; intros tail.
  - cbn [find_annotation_rec nearest rev].
    destruct tail as [tl|]; destruct (_get_by_path config_ []) as [| | | | |tg d] eqn:E;
      case_options.
  - cbn [find_annotation_rec nearest].
    pose proof (parent_of_container config_ init last) as Hp. cbn zeta in Hp.
    rewrite IH.
    destruct (_get_by_path config_ (rev (last :: init))) as [| | | | |tg d] eqn:E;
      cbn [isinstance_dict isinstance_list orb] in Hp |- *;
      try rewrite (Hp eq_refl);
      destruct tail as [tl|]; case_options.
Qed.

Lemma key_annotation_snoc (config_ : value) (init : list seg) (last : seg) :
  key_annotation config_ (rev (last :: init))
  = match _get_by_path config_ (rev init) with
    | VDict _ d => scan_keys d last
    | _ => None
    end.
Proof. unfold key_annotation. now rewrite rev_involutive. Qed.

Lemma or_else_none {A : Type} (a b : option A) :
  or_else a b = None <-> a = None /\ b = None.
Proof. destruct a; simpl; intuition discriminate. Qed.

Lemma nearest_none (config_ : value) (rpath : list seg) :
  forall tail,
    nearest config_ rpath tail = None
    <-> tail_annotation tail (_get_by_path config_ (rev rpath)) = None
        /\ levels_untagged config_ rpath.
Proof.
  induction rpath as [|last init IH]; intros tail.
  - cbn [nearest levels_untagged]. rewrite !or_else_none.
    unfold node_annotation, key_annotation. cbn [rev].
    destruct (isinstance_dict _ || isinstance_list _); tauto.
  - cbn [nearest levels_untagged]. rewrite !or_else_none, IH.
    unfold tail_annotation at 2. rewrite <- key_annotation_snoc. unfold node_annotation.
    destruct (isinstance_dict _ || isinstance_list _); tauto.
Qed.

Lemma levels_untagged_along (config_ : value) (rpath : list seg) :
  levels_untagged config_ rpath <-> no_tag_along config_ (rev rpath).
Proof.
  unfold no_tag_along. induction rpath as [|last init IH].
  - cbn [levels_untagged rev List.length]. split.
    + intros (Hn & Hk & _) n Hle. now replace n with 0%nat by lia.
    + intros H. destruct (H 0%nat (le_n _)). tauto.
  - cbn [levels_untagged]. rewrite IH. cbn [rev]. rewrite length_app. cbn [List.length].
    split.
    + intros (Hn & Hk & Hrest) n Hle.
      destruct (Nat.eq_dec n (List.length (rev init) + 1)) as [->|Hne].
      * rewrite firstn_all2 by (rewrite length_app; simpl; lia). tauto.
      * rewrite firstn_app.
        replace (n - List.length (rev init))%nat with 0%nat by lia.
        cbn [firstn]. rewrite app_nil_r. apply Hrest. lia.
    + intros H. split; [|split].
      * specialize (H (List.length (rev init) + 1)%nat (le_n _)).
        rewrite firstn_all2 in H by (rewrite length_app; simpl; lia). tauto.
      * specialize (H (List.length (rev init) + 1)%nat (le_n _)).
        rewrite firstn_all2 in H by (rewrite length_app; simpl; lia). tauto.
      * intros n Hle. specialize (H n ltac:(lia)).
        rewrite firstn_app in H.
        replace (n - List.length (rev init))%nat with 0%nat in H by lia.
        cbn [firstn] in H. now rewrite app_nil_r in H.
Qed.

(** [find_annotation] finds nothing exactly when nothing along the path is
    tagged. *)
Lemma find_annotation_none (config_ : value) (path_ : list seg) :
  find_annotation config_ path_ = Ok None <-> no_tag_along config_ path_.
Proof.
  unfold find_annotation. rewrite find_annotation_rec_nearest.
  rewrite <- (rev_involutive path_) at 2. rewrite <- levels_untagged_along.
  split.
  - intros H. inversion H as [Hn]. apply nearest_none in Hn. tauto.
  - intros H. f_equal. apply nearest_none. split; [reflexivity|assumption].
Qed.

(** *** Below a tagged key *)

Lemma no_tags_value_tag (x : value) : no_tags x = true -> value_tag x = None.
Proof.
  destruct x as [| | |t s|t l|t d]; simpl; auto; destruct t; simpl; auto; discriminate.
Qed.

Lemma no_tags_inside_of_no_tags (x : value) : no_tags x = true -> no_tags_inside x = true.
Proof.
  destruct x as [| | |t s|t l|t d]; simpl; auto; destruct t; simpl; auto; discriminate.
Qed.

Lemma no_tags_inside_scan (t : option tag) (d : dict) (s : seg) :
  no_tags_inside (VDict t d) = true -> scan_keys d s = None.
Proof.
  simpl. induction d as [|[k x] d IH]; simpl; auto.
  intros H. apply andb_prop in H. destruct H as [Hk Hd].
  apply andb_prop in Hk. destruct Hk as [Hk _].
  destruct (key_eq_seg k s); auto.
  unfold _get_annotation_key. destruct (key_tag k); [discriminate|reflexivity].
Qed.

Lemma no_tags_dict_find (d : dict) (k : string) (y : value) :
  forallb (fun kv => is_none (key_tag (fst kv)) && no_tags (snd kv)) d = true ->
  dict_find d k = Some y -> no_tags y = true.
Proof.
  induction d as [|[k' x] d IH]; simpl; [discriminate|].
  intros H. apply andb_prop in H. destruct H as [Hk Hd].
  apply andb_prop in Hk. destruct Hk as [_ Hx].
  destruct (String.eqb (key_str k') k); intros E.
  - now inversion E; subst.
  - now apply IH.
Qed.

Lemma no_tags_py_index (l : list value) (i : Z) (y : value) :
  forallb no_tags l = true -> py_index l i = Some y -> no_tags y = true.
Proof.
  intros Hl. rewrite forallb_forall in Hl. unfold py_index.
  destruct (0 <=? i)%Z; [|destruct (0 <=? _)%Z; [|discriminate]];
    intros E; apply nth_error_In in E; auto.
Qed.

Lemma no_tags_getitem (x y : value) (s : seg) :
  no_tags_inside x = true -> getitem x s = Ok y -> no_tags y = true.
Proof.
  destruct x as [| | |t str|t l|t d], s as [k|i]; simpl; try discriminate.
  - destruct (py_index _ _); [|discriminate]. intros _ E. now inversion E.
  - intros Hl. destruct (py_index l i) eqn:E; [|discriminate].
    intros E'. inversion E'; subst. eapply no_tags_py_index; eauto.
  - intros Hd. destruct (dict_find d k) eqn:E; [|discriminate].
    intros E'. inversion E'; subst. eapply no_tags_dict_find; eauto.
Qed.

Lemma get_by_path_cons (x : value) (s : seg) (q : list seg) :
  _get_by_path x (s :: q)
  = match getitem x s with
    | Ok y => _get_by_path y q
    | Raise _ => VNone
    end.
Proof.
  unfold _get_by_path. change (s :: q) with ([s] ++ q). rewrite reduce_getitem_app.
  unfold reduce_getitem at 1. simpl fold_left.
  destruct (getitem x s); reflexivity.
Qed.

Lemma get_by_path_none (q : list seg) : _get_by_path VNone q = VNone.
Proof. destruct q; [reflexivity|]. now rewrite get_by_path_cons. Qed.

Lemma get_by_path_app (config_ : value) (p q : list seg) :
  _get_by_path config_ (p ++ q) = _get_by_path (_get_by_path config_ p) q.
Proof.
  unfold _get_by_path at 1 3. rewrite reduce_getitem_app.
  destruct (reduce_getitem p config_) as [y|e]; simpl bind.
  - reflexivity.
  - now rewrite get_by_path_none.
Qed.

(** Everything reached from a node with no tag below it is untagged. *)
Lemma no_tags_below (q : list seg) :
  forall x : value,
    no_tags_inside x = true ->
    no_tags_inside (_get_by_path x q) = true
    /\ (q <> [] -> no_tags (_get_by_path x q) = true).
Proof.
  induction q as [|s q IH]; intros x Hx.
  - split; [exact Hx|congruence].
  - rewrite get_by_path_cons. destruct (getitem x s) as [y|e] eqn:E.
    + pose proof (no_tags_getitem _ _ _ Hx E) as Hy.
      destruct (IH y (no_tags_inside_of_no_tags _ Hy)) as [Hi Hn].
      split; [exact Hi|]. intros _. destruct q; [exact Hy|]. apply Hn. discriminate.
    + split; reflexivity.
Qed.

Lemma nearest_cons (config_ : value) (t : seg) (rest : list seg) (tail : option seg) :
  nearest config_ (t :: rest) tail
  = let item := _get_by_path config_ (rev (t :: rest)) in
    or_else (tail_annotation tail item)
      (or_else
         (if isinstance_dict item || isinstance_list item
          then key_annotation config_ (rev (t :: rest)) else None)
         (or_else (_get_annotation item) (nearest config_ rest (Some t)))).
Proof. reflexivity. Qed.

Lemma tail_annotation_untagged (tail : option seg) (item : value) :
  no_tags_inside item = true -> tail_annotation tail item = None.
Proof.
  destruct tail as [tl|]; [|reflexivity].
  destruct item as [| | |tg str|tg l|tg d]; try reflexivity.
  intros H. exact (no_tags_inside_scan tg d tl H).
Qed.

Lemma nearest_below_tagged_key (config_ : value) (tp : option tag) (packs : dict)
  (a : annotation) :
  _get_by_path config_ [SKey "core"; SKey "packages"] = VDict tp packs ->
  scan_keys packs (SKey "demo") = Some a ->
  no_tags_inside (_get_by_path config_ [SKey "core"; SKey "packages"; SKey "demo"]) = true ->
  forall (rrest : list seg) (tail : option seg),
    nearest config_ (rrest ++ [SKey "demo"; SKey "packages"; SKey "core"]) tail = Some a.
Proof.
  intros Hpacks Hkey Hin.
  set (v := _get_by_path config_ [SKey "core"; SKey "packages"; SKey "demo"]) in *.
  set (rprefix := [SKey "demo"; SKey "packages"; SKey "core"]).
  assert (Hitem : forall rrest,
             _get_by_path config_ (rev (rrest ++ rprefix)) = _get_by_path v (rev rrest)).
  { intros rrest. rewrite rev_app_distr.
    change (rev rprefix) with [SKey "core"; SKey "packages"; SKey "demo"].
    now rewrite get_by_path_app. }
  assert (Hdemo : key_annotation config_ (rev rprefix) = Some a).
  { unfold rprefix. rewrite key_annotation_snoc.
    change (rev [SKey "packages"; SKey "core"]) with [SKey "core"; SKey "packages"].
    now rewrite Hpacks. }
  induction rrest as [|t r IH]; intros tail.
  - change ([] ++ rprefix) with (SKey "demo" :: [SKey "packages"; SKey "core"]).
    rewrite nearest_cons. cbv zeta.
    change (SKey "demo" :: [SKey "packages"; SKey "core"]) with ([] ++ rprefix).
    rewrite (Hitem []). change ([] ++ rprefix) with rprefix. rewrite Hdemo.
    change (_get_by_path v (rev [])) with v.
    rewrite (tail_annotation_untagged _ _ Hin). cbn [or_else].
    rewrite nearest_cons. cbv zeta.
    change (rev [SKey "packages"; SKey "core"]) with [SKey "core"; SKey "packages"].
    rewrite Hpacks. cbn [tail_annotation]. rewrite Hkey.
    destruct v as [| | |tg str|tg l|tg d] eqn:Ev;
      cbn [isinstance_dict isinstance_list orb or_else _get_annotation value_tag option_map];
      try reflexivity.
    cbn [no_tags_inside no_tags] in Hin. destruct tg; [discriminate|]. reflexivity.
  - change ((t :: r) ++ rprefix) with (t :: (r ++ rprefix)).
    rewrite nearest_cons, IH. cbv zeta.
    rewrite key_annotation_snoc.
    change (t :: r ++ rprefix) with ((t :: r) ++ rprefix).
    rewrite (Hitem (t :: r)), (Hitem r).
    destruct (no_tags_below (rev (t :: r)) v Hin) as [Hi Hn].
    assert (Hnt : no_tags (_get_by_path v (rev (t :: r))) = true).
    { apply Hn. cbn [rev]. destruct (rev r); discriminate. }
    destruct (no_tags_below (rev r) v Hin) as [Hpi _].
    rewrite (tail_annotation_untagged _ _ Hi).
    change (match _get_by_path v (rev r) with
            | VDict _ d => scan_keys d t
            | _ => None
            end) with (tail_annotation (Some t) (_get_by_path v (rev r))).
    rewrite (tail_annotation_untagged _ _ Hpi).
    unfold _get_annotation. rewrite (no_tags_value_tag _ Hnt).
    destruct (isinstance_dict _ || isinstance_list _); reflexivity.
Qed.

(** C5. [find_annotation] never raises.  On a document whose mapping at
    ["core", "packages"] has the key "demo" tagged, and with no tag below
    that key, every path into or through "demo" yields the tag of the key
    (also when the package mapping under the key carries a tag of its own).
    And the lookup yields no annotation exactly when no node and no key
    along the path carries a tag. *)
Theorem find_annotation_nearest_enclosing :
  (forall (config_ : value) (path_ : list seg),
      exists found, find_annotation config_ path_ = Ok found)
  /\ (forall (config_ : value) (tp : option tag) (packs : dict) (a : annotation)
             (rest : list seg),
         _get_by_path config_ [SKey "core"; SKey "packages"] = VDict tp packs ->
         scan_keys packs (SKey "demo") = Some a ->
         no_tags_inside
           (_get_by_path config_ [SKey "core"; SKey "packages"; SKey "demo"]) = true ->
         find_annotation config_ ([SKey "core"; SKey "packages"; SKey "demo"] ++ rest)
         = Ok (Some a))
  /\ (forall (config_ : value) (path_ : list seg),
         find_annotation config_ path_ = Ok None <-> no_tag_along config_ path_).
Proof.
  split; [|split].
  - intros config_ path_. unfold find_annotation.
    rewrite find_annotation_rec_nearest. eauto.
  - intros config_ tp packs a rest Hpacks Hkey Hin.
    unfold find_annotation. rewrite find_annotation_rec_nearest.
    rewrite rev_app_distr. cbn [rev app].
    f_equal. exact (nearest_below_tagged_key config_ tp packs a Hpacks Hkey Hin (rev rest) None).
  - exact find_annotation_none.
Qed.

Lemma find_annotation_witness :
  find_annotation demo_document
    ([SKey "core"; SKey "packages"; SKey "demo"] ++ [SKey "light"; SIdx 1; SKey "platform"])
  = Ok (Some ("packages.yaml", LineNo 3)).
Proof.
  apply (proj1 (proj2 find_annotation_nearest_enclosing) demo_document None
           [(DKey (Some demo_tag) "demo",
             VDict None
               [(plain "light", VList None [hue_entry; zwave_entry]);
                (plain "sensor", VDict None [(plain "threshold", VInt 1)])])]);
    reflexivity.
Defined.

(** ** Error messages *)

Lemma string_app_assoc (a b c : string) :
  ((a ++ b) ++ c)%string = (a ++ (b ++ c))%string.
Proof. induction a as [|ch a IH]; simpl; [reflexivity|now rewrite IH]. Qed.

Lemma string_app_empty (a : string) : (a ++ "")%string = a.
Proof. induction a as [|ch a IH]; simpl; [reflexivity|now rewrite IH]. Qed.

Lemma last_item_snoc {A : Type} (init : list A) (x : A) : last_item (init ++ [x]) = Ok x.
Proof. unfold last_item. now rewrite rev_app_distr. Qed.

Section ReporterFacts.
Variable CONF_CORE : string.
Variable _relpath : string -> string.
Variable repr : value -> string.

(** The message before the documentation suffix, or the exception raised:
    neither depends on the link. *)
Lemma stringify_invalid_suffix (ex : invalid) (domain_ : string) (config_ : value)
  (max_sub_error_length : Z) :
  (exists e, forall link,
      stringify_invalid CONF_CORE _relpath repr ex domain_ config_ link max_sub_error_length
      = Raise e)
  \/ (exists body, forall link,
         stringify_invalid CONF_CORE _relpath repr ex domain_ config_ link
           max_sub_error_length
         = Ok (body ++ message_suffix CONF_CORE domain_ link)%string).
Proof.
  unfold stringify_invalid, find_annotation.
  rewrite find_annotation_rec_nearest. cbn [bind].
  set (prefix := match nearest config_ (rev (path ex)) None with
                 | Some a => _
                 | None => _
                 end).
  destruct (String.eqb (error_message ex) "extra keys not allowed").
  - destruct (last_item (path ex)) as [last|e]; cbn [bind].
    + right. eexists. intros link.
      rewrite <- !string_app_assoc. reflexivity.
    + left. exists e. reflexivity.
  - destruct (String.eqb (error_message ex) "required key not provided").
    + destruct (last_item (path ex)) as [last|e]; cbn [bind].
      * right. eexists. intros link.
        rewrite <- !string_app_assoc. reflexivity.
      * left. exists e. reflexivity.
    + right. eexists. intros link.
      rewrite <- !string_app_assoc. reflexivity.
Qed.
End ReporterFacts.

(** C8. A structured failure of the missing-required-key kind whose path
    ends with the key [bar] is formatted as a message containing
    [required key 'bar' not provided].  Every formatted structured failure
    is a body that does not depend on the link, followed by
    [, please check the docs at <link>] when the domain is not the core
    section and the link is a non-empty string, and by nothing otherwise. *)
Theorem stringify_invalid_required_key_and_docs_suffix :
  (forall (CONF_CORE : string) (_relpath : string -> string) (repr : value -> string)
          (ex : invalid) (domain_ : string) (config_ : value) (link : option string)
          (max_sub_error_length : Z) (init : list seg),
      error_message ex = "required key not provided"%string ->
      path ex = init ++ [SKey "bar"] ->
      exists before after,
        stringify_invalid CONF_CORE _relpath repr ex domain_ config_ link
          max_sub_error_length
        = Ok (before ++ "required key 'bar' not provided" ++ after)%string)
  /\ (forall (CONF_CORE : string) (_relpath : string -> string) (repr : value -> string)
             (ex : invalid) (domain_ : string) (config_ : value)
             (max_sub_error_length : Z) (some_link : option string) (message : string),
         stringify_invalid CONF_CORE _relpath repr ex domain_ config_ some_link
           max_sub_error_length = Ok message ->
         exists body,
           (forall l,
               domain_ <> CONF_CORE -> l <> ""%string ->
               stringify_invalid CONF_CORE _relpath repr ex domain_ config_ (Some l)
                 max_sub_error_length
               = Ok (body ++ ", please check the docs at " ++ l)%string)
           /\ (forall link,
                  domain_ = CONF_CORE \/ link = None \/ link = Some ""%string ->
                  stringify_invalid CONF_CORE _relpath repr ex domain_ config_ link
                    max_sub_error_length
                  = Ok body)).
Proof.
  split.
  - intros CONF_CORE _relpath repr ex domain_ config_ link max_len init Hmsg Hpath.
    unfold stringify_invalid, find_annotation.
    rewrite find_annotation_rec_nearest. cbn [bind].
    rewrite Hmsg, Hpath, last_item_snoc. cbn [bind String.eqb Ascii.eqb Bool.eqb].
    set (prefix := match nearest config_ (rev (init ++ [SKey "bar"])) None with
                   | Some a => _
                   | None => _
                   end).
    exists (prefix ++ ": ")%string, (message_suffix CONF_CORE domain_ link).
    rewrite string_app_assoc. reflexivity.
  - intros CONF_CORE _relpath repr ex domain_ config_ max_len some_link message Hok.
    destruct (stringify_invalid_suffix CONF_CORE _relpath repr ex domain_ config_ max_len)
      as [[e He]|[body Hbody]].
    + rewrite He in Hok. discriminate.
    + exists body. split.
      * intros l Hd Hl. rewrite Hbody. unfold message_suffix, link_truthy, link_text.
        destruct (String.eqb_spec domain_ CONF_CORE); [contradiction|].
        destruct (String.eqb_spec l ""); [contradiction|]. reflexivity.
      * intros link Hcases. rewrite Hbody. unfold message_suffix, link_truthy.
        destruct Hcases as [->|[->| ->]].
        -- rewrite String.eqb_refl. cbn [negb andb]. now rewrite string_app_empty.
        -- rewrite andb_false_r. now rewrite string_app_empty.
        -- cbn [String.eqb negb]. rewrite andb_false_r. now rewrite string_app_empty.
Qed.

Lemma stringify_invalid_witness :
  (exists before after,
      stringify_invalid "homeassistant" (fun p => p) (fun _ => "{}"%string) missing_bar
        "light" demo_document (Some "https://example.org/light"%string) 43
      = Ok (before ++ "required key 'bar' not provided" ++ after)%string)
  /\ (exists body,
         (forall l,
             "light"%string <> "homeassistant"%string -> l <> ""%string ->
             stringify_invalid "homeassistant" (fun p => p) (fun _ => "{}"%string) missing_bar
               "light" demo_document (Some l) 43
             = Ok (body ++ ", please check the docs at " ++ l)%string)
         /\ (forall link,
                "light"%string = "homeassistant"%string \/ link = None
                \/ link = Some ""%string ->
                stringify_invalid "homeassistant" (fun p => p) (fun _ => "{}"%string)
                  missing_bar "light" demo_document link 43
                = Ok body)).
Proof.
  split.
  - apply (proj1 stringify_invalid_required_key_and_docs_suffix "homeassistant"
             (fun p => p) (fun _ => "{}"%string) missing_bar "light" demo_document
             (Some "https://example.org/light"%string) 43%Z [SKey "light"]);
      reflexivity.
  - apply (proj2 stringify_invalid_required_key_and_docs_suffix "homeassistant"
             (fun p => p) (fun _ => "{}"%string) missing_bar "light" demo_document
             43%Z None "Invalid config for 'light': required key 'bar' not provided"%string).
    reflexivity.
Defined.

(** ** Merge-policy resolver *)

Lemma first_dict_spec (validators : list schema_node) :
  first_dict validators = find spec_is_mapping validators.
Proof.
  induction validators as [|n rest IH]; simpl; auto. destruct n; simpl; auto.
Qed.

Lemma classify_value_spec (v : value) :
  classify_value v = policy_name (spec_policy_of_type v).
Proof. destruct v; reflexivity. Qed.

Lemma classify_text_spec (form : string) :
  classify_text form = policy_name (spec_policy_of_text form).
Proof.
  unfold classify_text, spec_policy_of_text.
  destruct (_ || _); [reflexivity|]. destruct (_ || _); reflexivity.
Qed.

(** C7. On a declared whole schema that is a mapping, or a composed
    sequence of sub-schemas, [_identify_config_schema] does what the
    specification says: of a composed sequence it takes the first sub-schema
    that is a mapping and is indeterminate if there is none; with the
    domain's key in the mapping it classifies by the type of the
    instantiated default at the domain key if the key declares a default,
    and by the textual form of the domain's sub-schema if not. *)
Theorem identify_config_schema_follows_spec (module_ : module) (declared : config_schema) :
  CONFIG_SCHEMA module_ = Some declared ->
  isinstance_vol_Schema declared = true ->
  (match schema declared with SDict _ | SAll _ => True | _ => False end) ->
  (spec_mapping (schema declared) = None -> _identify_config_schema module_ = Ok None)
  /\ (forall entries key sub_schema_form,
         spec_mapping (schema declared) = Some (SDict entries) ->
         find (fun kv => schema_key_eq (fst kv) (DOMAIN module_)) entries
         = Some (key, sub_schema_form) ->
         _identify_config_schema module_
         = do policy <- spec_resolve_entry (call declared) (DOMAIN module_) key
                          sub_schema_form;
           Ok (policy_name policy)).
Proof.
  intros Hdecl Hvol Hshape. unfold _identify_config_schema. rewrite Hdecl, Hvol.
  cbn [negb].
  assert (Hsel : match schema declared with
                 | SAll validators => first_dict validators
                 | other => Some other
                 end = spec_mapping (schema declared)).
  { unfold spec_mapping. destruct (schema declared); auto. apply first_dict_spec. }
  rewrite Hsel. split.
  - intros ->. reflexivity.
  - intros entries key form -> Hfind. rewrite Hfind.
    unfold spec_resolve_entry, spec_declared_default.
    destruct (default key) as [| |v]; cbn [bind]; try now rewrite classify_text_spec.
    destruct (call declared _) as [instance|e]; cbn [bind]; [|reflexivity].
    destruct (getitem instance _) as [x|e]; cbn [bind]; [|reflexivity].
    now rewrite classify_value_spec.
Qed.

Lemma identify_config_schema_witness :
  _identify_config_schema zone_module = Ok (Some "list"%string).
Proof.
  exact (proj2 (identify_config_schema_follows_spec zone_module zone_schema
                  eq_refl eq_refl I)
           [(SchemaKey (Some "zone"%string) (DefaultFactory (VList None [])),
             "All(<function ensure_list at 0x7f>, [<function a>])"%string)]
           (SchemaKey (Some "zone"%string) (DefaultFactory (VList None [])))
           "All(<function ensure_list at 0x7f>, [<function a>])"%string eq_refl eq_refl).
Defined.

(** ** Domain validator *)

Section ValidatorFacts.
Variable loader : string -> result integration.
Variable config_per_platform : dict -> string -> list (option string * value).
Variable extract_domain_configs : dict -> string -> list string.

(** The loop only appends to its two accumulators. *)
Lemma process_platforms_acc (config_ : dict) (domain_ : string) (docs : option string)
  (schema_ : validator) (entries : list (option string * value)) :
  forall platforms failures,
    process_platforms loader config_ domain_ docs schema_ entries platforms failures
    = do looped <- process_platforms loader config_ domain_ docs schema_ entries [] [];
      Ok (platforms ++ fst looped, failures ++ snd looped).
Proof.
  induction entries as [|[p_name p_config] rest IH]; intros platforms failures.
  - cbn [process_platforms bind fst snd]. now rewrite !app_nil_r.
  - cbn [process_platforms].
    destruct (process_platform loader config_ domain_ docs schema_ p_name p_config)
      as [v|info|e]; [| |reflexivity].
    + rewrite IH. rewrite (IH ([] ++ [v])).
      destruct (process_platforms loader config_ domain_ docs schema_ rest [] [])
        as [[ps es]|e]; cbn [bind fst snd app]; [|reflexivity].
      now rewrite <- app_assoc.
    + rewrite IH. rewrite (IH [] ([] ++ [info])).
      destruct (process_platforms loader config_ domain_ docs schema_ rest [] [])
        as [[ps es]|e]; cbn [bind fst snd app]; [|reflexivity].
      now rewrite <- app_assoc.
Qed.

(** The loop over two runs of entries. *)
Lemma process_platforms_app (config_ : dict) (domain_ : string) (docs : option string)
  (schema_ : validator) (before after : list (option string * value)) :
  forall platforms failures,
    process_platforms loader config_ domain_ docs schema_ (before ++ after)
      platforms failures
    = do looped <- process_platforms loader config_ domain_ docs schema_ before
                     platforms failures;
      process_platforms loader config_ domain_ docs schema_ after
        (fst looped) (snd looped).
Proof.
  induction before as [|[p_name p_config] rest IH]; intros platforms failures.
  - reflexivity.
  - cbn [app process_platforms].
    destruct (process_platform loader config_ domain_ docs schema_ p_name p_config);
      auto.
Qed.

(** A failed entry leaves the surviving entries as they are and adds its
    one failure in place. *)
Lemma failed_entry_is_isolated (config_ : dict) (domain_ : string) (docs : option string)
  (schema_ : validator) (before after : list (option string * value))
  (p_name : option string) (p_config : value) (info : ConfigExceptionInfo)
  (platforms : list value) (failures : list ConfigExceptionInfo) :
  process_platform loader config_ domain_ docs schema_ p_name p_config = Failed info ->
  process_platforms loader config_ domain_ docs schema_ (before ++ after) [] []
  = Ok (platforms, failures) ->
  exists failures1 failures2,
    failures = failures1 ++ failures2
    /\ process_platforms loader config_ domain_ docs schema_
         (before ++ (p_name, p_config) :: after) [] []
       = Ok (platforms, failures1 ++ info :: failures2).
Proof.
  intros Hbad. rewrite !process_platforms_app.
  destruct (process_platforms loader config_ domain_ docs schema_ before [] [])
    as [[ps1 es1]|e]; cbn [bind fst snd]; [|discriminate].
  cbn [process_platforms]. rewrite Hbad.
  rewrite process_platforms_acc, (process_platforms_acc _ _ _ _ after ps1 (es1 ++ [info])).
  destruct (process_platforms loader config_ domain_ docs schema_ after [] [])
    as [[ps2 es2]|e]; cbn [bind fst snd]; [|discriminate].
  intros H. inversion H; subst. exists es1, es2. split; [reflexivity|].
  now rewrite <- app_assoc.
Qed.

(** Without a custom validator the probe hands no entry point on. *)
Lemma process_without_custom_validator (config_ : dict) (integration_ : integration)
  (component : module) :
  get_component integration_ = Ok component ->
  no_custom_validator integration_ ->
  exists config_validator,
    match config_validator with
    | Some m => async_validate_config m
    | None => None
    end = None
    /\ async_process_component_config loader config_per_platform extract_domain_configs
         config_ integration_
       = process_after_probe loader config_per_platform extract_domain_configs
           config_ integration_ component config_validator.
Proof.
  intros Hcomp Hnov. unfold async_process_component_config. rewrite Hcomp.
  destruct Hnov as [[msg ->]|(m & -> & Hm)].
  - exists None. split; [reflexivity|]. now rewrite String.eqb_refl.
  - exists (Some m). split; [exact Hm|reflexivity].
Qed.

(** The per-platform stage of the validator. *)
Lemma process_per_platform (config_ : dict) (integration_ : integration)
  (component : module) (platform_schema : validator) :
  per_platform_stage integration_ component platform_schema ->
  async_process_component_config loader config_per_platform extract_domain_configs
    config_ integration_
  = do looped <-
       process_platforms loader config_ (domain integration_)
         (documentation integration_) platform_schema
         (config_per_platform config_ (domain integration_)) [] [];
    Ok (MkConfigInfo
          (Some (VDict None
                   (dict_set
                      (config_without_domain extract_domain_configs config_
                         (domain integration_))
                      (plain (domain integration_)) (VList None (fst looped)))))
          (snd looped)).
Proof.
  intros (Hcomp & Hnov & Hwhole & Hschema & Hsome).
  destruct (process_without_custom_validator config_ integration_ component Hcomp Hnov)
    as (cv & Hcv & ->).
  unfold process_after_probe. rewrite Hcv, Hwhole.
  destruct (PLATFORM_SCHEMA_BASE component) as [s|].
  - subst s.
    destruct (process_platforms _ _ _ _ _ _ _ _) as [[ps es]|e]; reflexivity.
  - destruct (PLATFORM_SCHEMA component) as [s|]; [|destruct Hsome; congruence].
    subst s.
    destruct (process_platforms _ _ _ _ _ _ _ _) as [[ps es]|e]; reflexivity.
Qed.

Lemma passes_checks_validated (config_ : dict) (domain_ : string) (docs : option string)
  (schema_ : validator) (p_name : option string) (p_config validated : value) :
  passes_checks loader domain_ schema_ p_name p_config validated ->
  process_platform loader config_ domain_ docs schema_ p_name p_config
  = Validated validated.
Proof.
  unfold process_platform. intros (v0 & -> & H).
  destruct p_name as [name|]; [|now subst].
  destruct H as (p_integration & platform & -> & -> & H).
  destruct (PLATFORM_SCHEMA platform) as [s|]; [now rewrite H|now subst].
Qed.

Lemma invalid_entry_failed (config_ : dict) (domain_ : string) (docs : option string)
  (schema_ : validator) (p_name : option string) (p_config : value) (ex : invalid) :
  invalid_against_platform_schema loader domain_ schema_ p_name p_config ex ->
  exists info,
    process_platform loader config_ domain_ docs schema_ p_name p_config = Failed info
    /\ translation_key info = PLATFORM_CONFIG_VALIDATION_ERR
    /\ config info = p_config
    /\ exception info = VolInvalid ex.
Proof.
  unfold process_platform.
  intros [->|(v0 & name & p_integration & platform & s & -> & -> & -> & -> & -> & ->)];
    cbn [isinstance_vol_Invalid]; eexists; split; [reflexivity|auto| reflexivity|auto].
Qed.

(** The keys [config_without_domain] filters are gone. *)
Lemma config_without_domain_removed (config_ : dict) (domain_ k : string) :
  In k (extract_domain_configs config_ domain_) ->
  dict_find (config_without_domain extract_domain_configs config_ domain_) k = None.
Proof.
  unfold config_without_domain. intros Hin.
  generalize (extract_domain_configs config_ domain_) Hin. clear Hin.
  intros filter_keys Hin.
  induction config_ as [|[k' v] d IH]; simpl; auto.
  destruct (existsb _ _) eqn:E; cbn [negb]; [exact IH|].
  simpl. destruct (String.eqb_spec (key_str k') k) as [Ek|Ek]; [|exact IH].
  exfalso.
  assert (Ht : existsb (String.eqb (key_str k')) filter_keys = true).
  { apply existsb_exists. exists k. split; [exact Hin|]. now apply String.eqb_eq. }
  congruence.
Qed.
End ValidatorFacts.

(** C3. Per-platform validation is isolated per entry.  For the entries
    [a], [b], [c] of a domain, with [a] and [c] passing all checks and [b]
    invalid against the platform schema, the outcome holds the validated [a]
    and [c], in that order, as one list under the domain key, in a document
    from which the domain's earlier keys are gone, together with exactly one
    failure, of category [PLATFORM_CONFIG_VALIDATION_ERR], whose offending
    fragment is [b].  In general an entry that fails leaves the surviving
    entries of the others as they are and adds its one failure. *)
Theorem platform_entries_fail_in_isolation :
  (forall (loader : string -> result integration)
          (config_per_platform : dict -> string -> list (option string * value))
          (extract_domain_configs : dict -> string -> list string)
          (config_ : dict) (integration_ : integration) (component : module)
          (platform_schema : validator) (a b c : value) (ex : invalid)
          (validated_a validated_c : value),
      per_platform_stage integration_ component platform_schema ->
      config_per_platform config_ (domain integration_)
      = [(Some "a"%string, a); (Some "b"%string, b); (Some "c"%string, c)] ->
      passes_checks loader (domain integration_) platform_schema (Some "a"%string) a
        validated_a ->
      invalid_against_platform_schema loader (domain integration_) platform_schema
        (Some "b"%string) b ex ->
      passes_checks loader (domain integration_) platform_schema (Some "c"%string) c
        validated_c ->
      exists output failure,
        async_process_component_config loader config_per_platform extract_domain_configs
          config_ integration_
        = Ok (MkConfigInfo (Some (VDict None output)) [failure])
        /\ dict_get output (domain integration_) = VList None [validated_a; validated_c]
        /\ (forall k, In k (extract_domain_configs config_ (domain integration_)) ->
                       k <> domain integration_ -> dict_find output k = None)
        /\ translation_key failure = PLATFORM_CONFIG_VALIDATION_ERR
        /\ exception failure = VolInvalid ex
        /\ config failure = b)
  /\ (forall (loader : string -> result integration)
             (config_ : dict) (domain_ : string) (docs : option string)
             (platform_schema : validator) (before after : list (option string * value))
             (p_name : option string) (p_config : value) (ex : invalid)
             (platforms : list value) (failures : list ConfigExceptionInfo),
         invalid_against_platform_schema loader domain_ platform_schema p_name p_config ex ->
         process_platforms loader config_ domain_ docs platform_schema (before ++ after) [] []
         = Ok (platforms, failures) ->
         exists failure failures1 failures2,
           failures = failures1 ++ failures2
           /\ process_platforms loader config_ domain_ docs platform_schema
                (before ++ (p_name, p_config) :: after) [] []
              = Ok (platforms, failures1 ++ failure :: failures2)
           /\ translation_key failure = PLATFORM_CONFIG_VALIDATION_ERR
           /\ config failure = p_config).
Proof.
  split.
  - intros loader cpp edc config_ integration_ component schema_ a b c ex va vc
      Hstage Hentries Ha Hb Hc.
    rewrite (process_per_platform loader cpp edc config_ integration_ component schema_ Hstage).
    rewrite Hentries. cbn [process_platforms].
    rewrite (passes_checks_validated loader config_ _ _ _ _ _ _ Ha).
    destruct (invalid_entry_failed loader config_ (domain integration_)
                (documentation integration_) _ _ _ _ Hb) as (info & Hinfo & Hkey & Hcfg & Hexc).
    rewrite Hinfo. rewrite (passes_checks_validated loader config_ _ _ _ _ _ _ Hc).
    cbn [bind fst snd app].
    eexists. exists info. split; [reflexivity|].
    split; [apply (dict_get_set_same _ (plain (domain integration_)))|].
    split; [|auto].
    intros k Hin Hne.
    rewrite dict_find_set_other by (cbn [plain key_str]; congruence).
    now apply config_without_domain_removed.
  - intros loader config_ domain_ docs schema_ before after p_name p_config ex
      platforms failures Hb Hrest.
    destruct (invalid_entry_failed loader config_ domain_ docs _ _ _ _ Hb)
      as (info & Hinfo & Hkey & Hcfg & _).
    destruct (failed_entry_is_isolated loader config_ domain_ docs schema_ before after
                p_name p_config info platforms failures Hinfo Hrest)
      as (f1 & f2 & Hsplit & Hrun).
    exists info, f1, f2. auto.
Qed.

Lemma platform_entries_witness :
  exists output failure,
    async_process_component_config example_platform_loader example_config_per_platform
      example_extract_domain_configs three_entries_document light_integration
    = Ok (MkConfigInfo (Some (VDict None output)) [failure])
    /\ dict_get output (domain light_integration) = VList None [entry_a; entry_c]
    /\ (forall k,
           In k (example_extract_domain_configs three_entries_document
                   (domain light_integration)) ->
           k <> domain light_integration -> dict_find output k = None)
    /\ translation_key failure = PLATFORM_CONFIG_VALIDATION_ERR
    /\ exception failure = VolInvalid bad_key
    /\ config failure = entry_b.
Proof.
  apply (proj1 platform_entries_fail_in_isolation example_platform_loader
           example_config_per_platform example_extract_domain_configs
           three_entries_document light_integration
           (Module "light" None (Some example_platform_schema) None None None)
           example_platform_schema entry_a entry_b entry_c bad_key entry_a entry_c).
  - repeat split.
    + left. exists "No module"%string. reflexivity.
    + right. discriminate.
  - reflexivity.
  - exists entry_a. split; [reflexivity|].
    eexists. eexists. repeat split.
  - left. reflexivity.
  - exists entry_c. split; [reflexivity|].
    eexists. eexists. repeat split.
Defined.

(** C4, as the code has it.  When the domain's config platform exposes
    [async_validate_config], calling it ends the processing of the domain: a
    structured validation error, and also the application's own
    [HomeAssistantError], gives exactly one failure of category
    [CONFIG_VALIDATION_ERR] and no config; any other exception gives exactly
    one failure of category [CONFIG_VALIDATOR_UNKNOWN_ERR] and no config;
    and the outcome is the same whatever whole schema or per-platform schema
    the component declares and whatever the per-platform collaborators
    would answer. *)
Theorem custom_validator_is_terminal
  (loader : string -> result integration)
  (config_per_platform : dict -> string -> list (option string * value))
  (extract_domain_configs : dict -> string -> list string)
  (config_ : dict) (integration_ : integration) (component config_platform : module)
  (validate : validator) :
  get_component integration_ = Ok component ->
  get_platform integration_ "config" = Ok config_platform ->
  async_validate_config config_platform = Some validate ->
  let failed_with exc key :=
    async_process_component_config loader config_per_platform extract_domain_configs
      config_ integration_
    = Ok (MkConfigInfo None
            [MkExceptionInfo exc key (domain integration_) (VDict None config_)
               (documentation integration_)]) in
  (forall ex, validate (VDict None config_) = Raise (VolInvalid ex) ->
              failed_with (VolInvalid ex) CONFIG_VALIDATION_ERR)
  /\ (forall msg, validate (VDict None config_) = Raise (HomeAssistantError msg) ->
                  failed_with (HomeAssistantError msg) CONFIG_VALIDATION_ERR)
  /\ (forall exc, validate (VDict None config_) = Raise exc ->
                  isinstance_vol_Invalid exc = false ->
                  isinstance_HomeAssistantError exc = false ->
                  failed_with exc CONFIG_VALIDATOR_UNKNOWN_ERR)
  /\ (forall (component' : module) (loader' : string -> result integration)
             (config_per_platform' : dict -> string -> list (option string * value))
             (extract_domain_configs' : dict -> string -> list string),
         async_process_component_config loader' config_per_platform'
           extract_domain_configs' config_ (with_component integration_ component')
         = async_process_component_config loader config_per_platform
             extract_domain_configs config_ integration_).
Proof.
  intros Hcomp Hplat Hval failed_with. subst failed_with.
  unfold async_process_component_config, with_component.
  cbn [get_component get_platform domain documentation pkg_path].
  rewrite Hcomp, Hplat. unfold process_after_probe, domain_failure.
  cbn [domain documentation]. rewrite Hval.
  repeat split.
  - intros ex ->. reflexivity.
  - intros msg ->. reflexivity.
  - intros exc -> Hi Hh. now rewrite Hi, Hh.
Qed.

Lemma custom_validator_witness :
  async_process_component_config bare_loader example_config_per_platform
    example_extract_domain_configs three_entries_document failing_validator_integration
  = Ok (MkConfigInfo None
          [MkExceptionInfo (HomeAssistantError "boom") CONFIG_VALIDATION_ERR "zone"
             (VDict None three_entries_document) None]).
Proof.
  apply (proj1 (proj2 (custom_validator_is_terminal bare_loader example_config_per_platform
                         example_extract_domain_configs three_entries_document
                         failing_validator_integration (bare_module "zone")
                         (Module "zone" None None None
                            (Some (fun _ => Raise (HomeAssistantError "boom")))
                            (Some "dict"%string))
                         (fun _ => Raise (HomeAssistantError "boom"))
                         eq_refl eq_refl eq_refl))).
  reflexivity.
Defined.

(** C4 does not hold as stated: a custom validator that raises the generic
    [HomeAssistantError], which is not a structured validation error, is
    reported under [CONFIG_VALIDATION_ERR], not under
    [CONFIG_VALIDATOR_UNKNOWN_ERR]. *)
Lemma generic_validator_error_is_not_unknown :
  exists failure,
    async_process_component_config bare_loader example_config_per_platform
      example_extract_domain_configs three_entries_document failing_validator_integration
    = Ok (MkConfigInfo None [failure])
    /\ exception failure = HomeAssistantError "boom"
    /\ isinstance_vol_Invalid (exception failure) = false
    /\ translation_key failure = CONFIG_VALIDATION_ERR
    /\ translation_key failure <> CONFIG_VALIDATOR_UNKNOWN_ERR.
Proof.
  eexists. split; [reflexivity|]. cbn. repeat split. discriminate.
Qed.

(** * Further properties *)

(** ** Paths and annotations *)

(** X1. Looking a path up in two stages is looking it up at once, also when
    the first stage fails: a key that is missing, an index out of range, or
    a step into [None] gives [None] for the path and for every longer
    path. *)
Theorem get_by_path_composes_and_absorbs :
  (forall (config_ : value) (p q : list seg),
      _get_by_path config_ (p ++ q) = _get_by_path (_get_by_path config_ p) q)
  /\ (forall (config_ : value) (p q : list seg) (s : seg) (e : exn),
         getitem (_get_by_path config_ p) s = Raise e ->
         _get_by_path config_ (p ++ s :: q) = VNone)
  /\ (forall (t : option tag) (d : dict) (k : string),
         dict_find d k = None -> exists e, getitem (VDict t d) (SKey k) = Raise e)
  /\ (forall (t : option tag) (l : list value) (i : Z),
         (Z.of_nat (List.length l) <= i \/ i < - Z.of_nat (List.length l))%Z ->
         exists e, getitem (VList t l) (SIdx i) = Raise e)
  /\ (forall (s : seg), exists e, getitem VNone s = Raise e).
Proof.
  split; [exact get_by_path_app|]. split; [|split; [|split]].
  - intros config_ p q s e He.
    rewrite get_by_path_app, get_by_path_cons, He. reflexivity.
  - intros t d k Hk. simpl. rewrite Hk. eauto.
  - intros t l i Hi. simpl. unfold py_index.
    destruct (0 <=? i)%Z eqn:E0.
    + apply Z.leb_le in E0. destruct Hi as [Hi|Hi]; [|lia].
      assert (Hn : nth_error l (Z.to_nat i) = None) by (apply nth_error_None; lia).
      rewrite Hn. eauto.
    + apply Z.leb_gt in E0.
      destruct (0 <=? Z.of_nat (List.length l) + i)%Z eqn:E1; [|eauto].
      apply Z.leb_le in E1. lia.
  - intros s. destruct s; simpl; eauto.
Qed.

Lemma get_by_path_witness :
  _get_by_path demo_document ([SKey "core"; SKey "packages"] ++ SKey "other" :: [SKey "light"])
  = VNone.
Proof.
  apply (proj1 (proj2 get_by_path_composes_and_absorbs) demo_document
           [SKey "core"; SKey "packages"] [SKey "light"] (SKey "other") KeyError).
  reflexivity.
Defined.

Lemma nearest_some (config_ : value) (rpath : list seg) :
  forall (tail : option seg) (a : annotation),
    nearest config_ rpath tail = Some a ->
    tail_annotation tail (_get_by_path config_ (rev rpath)) = Some a
    \/ exists pre s,
         rpath = pre ++ s
         /\ (node_annotation config_ (rev s) = Some a
             \/ key_annotation config_ (rev s) = Some a).
Proof.
  induction rpath as [|t rest IH]; intros tail a.
  - cbn [nearest]. unfold or_else.
    destruct (tail_annotation tail _) as [x|] eqn:Et; [intros H; left; exact H|].
    destruct (isinstance_dict _ || isinstance_list _).
    + destruct (key_annotation config_ (rev [])) as [x|] eqn:Ek.
      * intros H. right. exists [], []. split; [reflexivity|]. right. congruence.
      * destruct (_get_annotation _) as [x|] eqn:En; [|discriminate].
        intros H. right. exists [], []. split; [reflexivity|]. left.
        unfold node_annotation. congruence.
    + destruct (_get_annotation _) as [x|] eqn:En; [|discriminate].
      intros H. right. exists [], []. split; [reflexivity|]. left.
      unfold node_annotation. congruence.
  - rewrite nearest_cons. cbv zeta. unfold or_else.
    destruct (tail_annotation tail _) as [x|] eqn:Et; [intros H; left; exact H|].
    assert (Hnode : forall x, _get_annotation (_get_by_path config_ (rev (t :: rest))) = Some x ->
                    Some x = Some a ->
                    exists pre s, t :: rest = pre ++ s
                      /\ (node_annotation config_ (rev s) = Some a
                          \/ key_annotation config_ (rev s) = Some a)).
    { intros x Hx E. exists [], (t :: rest). split; [reflexivity|]. left.
      unfold node_annotation. congruence. }
    assert (Hrec : nearest config_ rest (Some t) = Some a ->
                   exists pre s, t :: rest = pre ++ s
                     /\ (node_annotation config_ (rev s) = Some a
                         \/ key_annotation config_ (rev s) = Some a)).
    { intros H. destruct (IH _ _ H) as [Ht|(pre & s & -> & Hs)].
      - exists [], (t :: rest). split; [reflexivity|]. right.
        rewrite key_annotation_snoc. exact Ht.
      - exists (t :: pre), s. split; [reflexivity|exact Hs]. }
    destruct (isinstance_dict _ || isinstance_list _).
    + destruct (key_annotation config_ (rev (t :: rest))) as [x|] eqn:Ek.
      * intros H. right. exists [], (t :: rest). split; [reflexivity|]. right. congruence.
      * destruct (_get_annotation _) as [x|] eqn:En; [intros H; right; eauto|].
        intros H. right. auto.
    + destruct (_get_annotation _) as [x|] eqn:En; [intros H; right; eauto|].
      intros H. right. auto.
Qed.

(** X2. An annotation [find_annotation] returns is carried by a node or by
    a mapping key on the way to the addressed node: the lookup never
    reports a location from elsewhere in the document. *)
Theorem find_annotation_is_on_the_path (config_ : value) (path_ : list seg)
  (a : annotation) :
  find_annotation config_ path_ = Ok (Some a) ->
  exists n : nat,
    (n <= List.length path_)%nat
    /\ (node_annotation config_ (firstn n path_) = Some a
        \/ key_annotation config_ (firstn n path_) = Some a).
Proof.
  unfold find_annotation. rewrite find_annotation_rec_nearest. intros H.
  assert (Hn : nearest config_ (rev path_) None = Some a) by congruence.
  clear H. apply nearest_some in Hn.
  destruct Hn as [Ht|(pre & s & Hsplit & Hs)]; [discriminate|].
  exists (List.length s).
  assert (Hp : path_ = rev s ++ rev pre).
  { rewrite <- (rev_involutive path_), Hsplit. apply rev_app_distr. }
  split.
  - rewrite Hp, length_app, !length_rev. lia.
  - assert (Hf : firstn (List.length s) path_ = rev s).
    { rewrite Hp, <- (length_rev s).
      rewrite firstn_app, firstn_all, Nat.sub_diag. cbn [firstn].
      apply app_nil_r. }
    rewrite Hf. exact Hs.
Qed.

Lemma find_annotation_on_path_witness :
  exists n : nat,
    (n <= List.length [SKey "core"; SKey "packages"; SKey "demo"; SKey "light"; SIdx 0])%nat
    /\ (node_annotation demo_document
          (firstn n [SKey "core"; SKey "packages"; SKey "demo"; SKey "light"; SIdx 0])
        = Some ("packages.yaml", LineNo 3)
        \/ key_annotation demo_document
             (firstn n [SKey "core"; SKey "packages"; SKey "demo"; SKey "light"; SIdx 0])
           = Some ("packages.yaml", LineNo 3)).
Proof.
  apply (find_annotation_is_on_the_path demo_document
           [SKey "core"; SKey "packages"; SKey "demo"; SKey "light"; SIdx 0]).
  reflexivity.
Defined.

(** For a mapping or a sequence the tag of the key that leads to it wins. *)
Lemma find_annotation_key_wins (config_ : value) (init : list seg) (last : seg)
  (a : annotation) :
  key_annotation config_ (init ++ [last]) = Some a ->
  isinstance_dict (_get_by_path config_ (init ++ [last]))
  || isinstance_list (_get_by_path config_ (init ++ [last])) = true ->
  find_annotation config_ (init ++ [last]) = Ok (Some a).
Proof.
  intros Hkey Hitem.
  unfold find_annotation. rewrite find_annotation_rec_nearest.
  rewrite rev_app_distr. cbn [rev app]. rewrite nearest_cons. cbv zeta.
  replace (rev (last :: rev init)) with (init ++ [last])
    by (cbn [rev]; now rewrite rev_involutive).
  now rewrite Hitem, Hkey.
Qed.

(** X3. At the addressed node itself: for a mapping or a sequence the tag of
    the key that leads to it wins, whatever the node and the nodes below it
    carry; any other node reports its own tag when it has one; and the empty
    path reports the tag of the document root. *)
Theorem find_annotation_at_the_addressed_node :
  (forall (config_ : value) (init : list seg) (last : seg) (a : annotation),
      key_annotation config_ (init ++ [last]) = Some a ->
      isinstance_dict (_get_by_path config_ (init ++ [last]))
      || isinstance_list (_get_by_path config_ (init ++ [last])) = true ->
      find_annotation config_ (init ++ [last]) = Ok (Some a))
  /\ (forall (config_ : value) (path_ : list seg) (a : annotation),
         isinstance_dict (_get_by_path config_ path_)
         || isinstance_list (_get_by_path config_ path_) = false ->
         _get_annotation (_get_by_path config_ path_) = Some a ->
         find_annotation config_ path_ = Ok (Some a))
  /\ (forall config_ : value, find_annotation config_ [] = Ok (_get_annotation config_)).
Proof.
  split; [exact find_annotation_key_wins|split].
  - intros config_ path_ a Hitem Hann.
    unfold find_annotation. rewrite find_annotation_rec_nearest.
    destruct (rev path_) as [|t rest] eqn:E.
    + assert (path_ = []) as -> by (apply (f_equal (@rev seg)) in E;
                                     now rewrite rev_involutive in E).
      cbn [nearest rev tail_annotation or_else]. now rewrite Hitem, Hann.
    + rewrite nearest_cons. cbv zeta. rewrite <- E, rev_involutive.
      cbn [tail_annotation or_else]. now rewrite Hitem, Hann.
  - intros config_. unfold find_annotation. rewrite find_annotation_rec_nearest.
    cbn [rev nearest tail_annotation or_else].
    change (_get_by_path config_ []) with config_.
    destruct (isinstance_dict config_ || isinstance_list config_);
      [|destruct (_get_annotation config_); reflexivity].
    cbn [key_annotation rev]. destruct (_get_annotation config_); reflexivity.
Qed.

Lemma find_annotation_at_node_witness :
  find_annotation demo_document ([SKey "core"; SKey "packages"] ++ [SKey "demo"])
  = Ok (Some ("packages.yaml", LineNo 3)).
Proof.
  apply (proj1 find_annotation_at_the_addressed_node demo_document
           [SKey "core"; SKey "packages"] (SKey "demo")); reflexivity.
Defined.

(** X4. [_log_pkg_error] never raises.  When the packages mapping holds the
    package under a tagged key and the package is a mapping or a sequence,
    the logged text names the file and line of that key; when nothing along
    the path to the package is tagged, the text carries no location. *)
Theorem log_pkg_error_locates_the_package :
  (forall (CONF_CORE CONF_PACKAGES : string) (_relpath : string -> string)
          (package component : string) (config_ : value) (message : string),
      exists text,
        _log_pkg_error CONF_CORE CONF_PACKAGES _relpath package component config_ message
        = Ok text)
  /\ (forall (CONF_CORE CONF_PACKAGES : string) (_relpath : string -> string)
             (package component : string) (config_ : value) (message : string)
             (file : string) (line_ : line),
         key_annotation config_ ([SKey CONF_CORE; SKey CONF_PACKAGES] ++ [SKey package])
         = Some (file, line_) ->
         isinstance_dict
           (_get_by_path config_ ([SKey CONF_CORE; SKey CONF_PACKAGES] ++ [SKey package]))
         || isinstance_list
              (_get_by_path config_ ([SKey CONF_CORE; SKey CONF_PACKAGES] ++ [SKey package]))
         = true ->
         _log_pkg_error CONF_CORE CONF_PACKAGES _relpath package component config_ message
         = Ok ((("Setup of package '" ++ package ++ "'") ++ " at " ++ _relpath file
                ++ ", line " ++ str_line line_) ++ " failed: " ++ message)%string)
  /\ (forall (CONF_CORE CONF_PACKAGES : string) (_relpath : string -> string)
             (package component : string) (config_ : value) (message : string),
         no_tag_along config_ [SKey CONF_CORE; SKey CONF_PACKAGES; SKey package] ->
         _log_pkg_error CONF_CORE CONF_PACKAGES _relpath package component config_ message
         = Ok (("Setup of package '" ++ package ++ "'") ++ " failed: " ++ message)%string).
Proof.
  split; [|split].
  - intros. unfold _log_pkg_error, find_annotation.
    rewrite find_annotation_rec_nearest. cbn [bind]. eauto.
  - intros CONF_CORE CONF_PACKAGES _relpath package component config_ message file line_
      Hkey Hitem.
    unfold _log_pkg_error.
    change [SKey CONF_CORE; SKey CONF_PACKAGES; SKey package]
      with ([SKey CONF_CORE; SKey CONF_PACKAGES] ++ [SKey package]).
    rewrite (find_annotation_key_wins _ _ _ _ Hkey Hitem).
    reflexivity.
  - intros CONF_CORE CONF_PACKAGES _relpath package component config_ message Hnone.
    unfold _log_pkg_error. apply find_annotation_none in Hnone. now rewrite Hnone.
Qed.

Lemma log_pkg_error_witness :
  _log_pkg_error "core" "packages" (fun p => p) "demo" "light" demo_document
    "integration 'light' cannot be merged, expected a dict"
  = Ok ((("Setup of package '" ++ "demo" ++ "'") ++ " at " ++ "packages.yaml"
         ++ ", line " ++ str_line (LineNo 3)) ++ " failed: "
        ++ "integration 'light' cannot be merged, expected a dict")%string.
Proof.
  apply (proj1 (proj2 log_pkg_error_locates_the_package) "core"%string "packages"%string
           (fun p => p) "demo"%string "light"%string demo_document); reflexivity.
Defined.

(** ** More on error messages *)

Lemma last_item_raises {A : Type} (l : list A) :
  (l = [] -> last_item l = Raise IndexError)
  /\ (l <> [] -> exists x, last_item l = Ok x).
Proof.
  unfold last_item. split.
  - intros ->. reflexivity.
  - intros Hne. destruct (rev l) as [|x rest] eqn:E; [|eauto].
    apply (f_equal (@rev A)) in E. rewrite rev_involutive in E. contradiction.
Qed.

(** X5. [stringify_invalid] raises, and then an [IndexError], exactly when
    the error is of the extra-key or missing-key shape and has an empty
    path; in every other case it returns a message. *)
Theorem stringify_invalid_raises_on_empty_path (CONF_CORE : string)
  (_relpath : string -> string) (repr : value -> string) (ex : invalid)
  (domain_ : string) (config_ : value) (link : option string)
  (max_sub_error_length : Z) :
  (names_last_segment ex /\ path ex = [] ->
   stringify_invalid CONF_CORE _relpath repr ex domain_ config_ link max_sub_error_length
   = Raise IndexError)
  /\ (~ (names_last_segment ex /\ path ex = []) ->
      exists message,
        stringify_invalid CONF_CORE _relpath repr ex domain_ config_ link
          max_sub_error_length
        = Ok message).
Proof.
  unfold stringify_invalid, find_annotation, names_last_segment.
  rewrite find_annotation_rec_nearest. cbn [bind].
  destruct (last_item_raises (path ex)) as [Hempty Hfull].
  destruct (String.eqb_spec (error_message ex) "extra keys not allowed") as [E1|E1].
  - split.
    + intros [_ Hp]. now rewrite (Hempty Hp).
    + intros Hn. destruct (Hfull ltac:(intros Hp; apply Hn; auto)) as [x ->].
      cbn [bind]. eauto.
  - destruct (String.eqb_spec (error_message ex) "required key not provided") as [E2|E2].
    + split.
      * intros [_ Hp]. now rewrite (Hempty Hp).
      * intros Hn. destruct (Hfull ltac:(intros Hp; apply Hn; auto)) as [x ->].
        cbn [bind]. eauto.
    + split; [intros [[H|H] _]; contradiction|eauto].
Qed.

Lemma stringify_invalid_raises_witness :
  stringify_invalid "homeassistant" (fun p => p) (fun _ => "{}"%string)
    (Invalid [] "required key not provided" None "required key not provided")
    "light" demo_document None 43
  = Raise IndexError.
Proof.
  apply (proj1 (stringify_invalid_raises_on_empty_path "homeassistant" (fun p => p)
                  (fun _ => "{}"%string)
                  (Invalid [] "required key not provided" None "required key not provided")
                  "light" demo_document None 43)).
  split; [right|]; reflexivity.
Defined.

Lemma string_length_app (a b : string) :
  String.length (a ++ b)%string = (String.length a + String.length b)%nat.
Proof. induction a as [|c a IH]; simpl; [reflexivity|now rewrite IH]. Qed.

Lemma string_length_substring (s : string) :
  forall n : nat, (n <= String.length s)%nat -> String.length (String.substring 0 n s) = n.
Proof.
  induction s as [|c s IH]; intros [|n] Hn; simpl in *; try reflexivity; try lia.
  rewrite IH by lia. reflexivity.
Qed.

(** X6. In a message of the general shape the offending value is printed in
    at most [max_sub_error_length] characters, for a bound of at least 3:
    its [repr] when that fits, else the first [max_sub_error_length - 3]
    characters of it followed by three dots, which is exactly the bound. *)
Theorem offending_value_is_truncated (CONF_CORE : string)
  (_relpath : string -> string) (repr : value -> string) (ex : invalid)
  (domain_ : string) (config_ : value) (link : option string)
  (max_sub_error_length : Z) :
  ~ names_last_segment ex ->
  (3 <= max_sub_error_length)%Z ->
  let full := repr (_get_by_path config_ (path ex)) in
  exists head summary,
    stringify_invalid CONF_CORE _relpath repr ex domain_ config_ link max_sub_error_length
    = Ok (head ++ "', got " ++ summary ++ message_suffix CONF_CORE domain_ link)%string
    /\ (Z.of_nat (String.length summary) <= max_sub_error_length)%Z
    /\ ((Z.of_nat (String.length full) <= max_sub_error_length)%Z -> summary = full)
    /\ ((max_sub_error_length < Z.of_nat (String.length full))%Z ->
        summary
        = (String.substring 0 (Z.to_nat (max_sub_error_length - 3)) full ++ "...")%string
        /\ Z.of_nat (String.length summary) = max_sub_error_length).
Proof.
  intros Hshape Hmax full.
  unfold stringify_invalid, find_annotation, names_last_segment in *.
  rewrite find_annotation_rec_nearest. cbn [bind].
  destruct (String.eqb_spec (error_message ex) "extra keys not allowed") as [E1|E1];
    [tauto|].
  destruct (String.eqb_spec (error_message ex) "required key not provided") as [E2|E2];
    [tauto|].
  fold full.
  set (prefix := match nearest config_ (rev (path ex)) None with
                 | Some a => _
                 | None => _
                 end).
  set (output := match error_type ex with Some e => _ | None => _ end).
  set (path_ := join "->" (map str_seg (path ex))).
  exists (prefix ++ ": " ++ output ++ " '" ++ path_)%string.
  destruct (max_sub_error_length <? Z.of_nat (String.length full))%Z eqn:Elt.
  - apply Z.ltb_lt in Elt.
    assert (Hlen : String.length
                     (slice_to full (max_sub_error_length - 3) ++ "...")%string
                   = Z.to_nat max_sub_error_length).
    { unfold slice_to. destruct (0 <=? max_sub_error_length - 3)%Z eqn:E0;
        [|apply Z.leb_gt in E0; lia].
      rewrite string_length_app, string_length_substring by lia. simpl. lia. }
    exists (slice_to full (max_sub_error_length - 3) ++ "...")%string.
    split; [|split; [|split]].
    + rewrite !string_app_assoc. reflexivity.
    + rewrite Hlen. lia.
    + intros. lia.
    + intros _. split; [|rewrite Hlen; lia].
      unfold slice_to. destruct (0 <=? max_sub_error_length - 3)%Z eqn:E0;
        [reflexivity|apply Z.leb_gt in E0; lia].
  - apply Z.ltb_ge in Elt.
    exists full. split; [|split; [|split]].
    + rewrite !string_app_assoc. reflexivity.
    + exact Elt.
    + reflexivity.
    + intros. lia.
Qed.

Lemma offending_value_witness :
  let full := (fun _ : value => "{'platform': 'hue', 'host': '192.168.1.20'}"%string)
                (_get_by_path demo_document [SKey "light"]) in
  exists head summary,
    stringify_invalid "homeassistant" (fun p => p)
      (fun _ => "{'platform': 'hue', 'host': '192.168.1.20'}"%string)
      (Invalid [SKey "light"] "expected a list" None "expected a list")
      "light" demo_document None 20
    = Ok (head ++ "', got " ++ summary ++ message_suffix "homeassistant" "light" None)%string
    /\ (Z.of_nat (String.length summary) <= 20)%Z
    /\ ((Z.of_nat (String.length full) <= 20)%Z -> summary = full)
    /\ ((20 < Z.of_nat (String.length full))%Z ->
        summary = (String.substring 0 (Z.to_nat (20 - 3)) full ++ "...")%string
        /\ Z.of_nat (String.length summary) = 20%Z).
Proof.
  apply (offending_value_is_truncated "homeassistant" (fun p => p)
           (fun _ => "{'platform': 'hue', 'host': '192.168.1.20'}"%string)
           (Invalid [SKey "light"] "expected a list" None "expected a list")
           "light" demo_document None 20).
  - intros [H|H]; discriminate H.
  - lia.
Defined.

(** ** Bundled errors *)

Lemma string_leb_trans (a b c : string) :
  String.leb a b = true -> String.leb b c = true -> String.leb a c = true.
Proof.
  unfold String.leb.
  destruct (String.compare a b) eqn:Eab; try discriminate; intros _;
    destruct (String.compare b c) eqn:Ebc; try discriminate; intros _.
  - apply String.compare_eq_iff in Eab. subst. now rewrite Ebc.
  - apply String.compare_eq_iff in Eab. subst. now rewrite Ebc.
  - apply String.compare_eq_iff in Ebc. subst. now rewrite Eab.
  - apply OrderedTypeEx.String_as_OT.cmp_lt in Eab, Ebc.
    pose proof (OrderedTypeEx.String_as_OT.lt_trans _ _ _ Eab Ebc) as H.
    apply OrderedTypeEx.String_as_OT.cmp_lt in H.
    unfold OrderedTypeEx.String_as_OT.cmp in H. now rewrite H.
Qed.

Ltac string_order :=
  match goal with
  | H1 : String.leb ?a ?b = true, H2 : String.leb ?b ?a = true |- _ =>
      pose proof (String.leb_antisym _ _ H1 H2); subst; clear H2
  | H1 : String.leb ?a ?b = false, H2 : String.leb ?b ?a = false |- _ =>
      exfalso; destruct (String.leb_total a b); congruence
  | H1 : String.leb ?a ?b = true, H2 : String.leb ?b ?c = true,
    H3 : String.leb ?a ?c = false |- _ =>
      exfalso; pose proof (string_leb_trans _ _ _ H1 H2); congruence
  end.

Lemma insert_sorted_comm (x y : string) (l : list string) :
  insert_sorted x (insert_sorted y l) = insert_sorted y (insert_sorted x l).
Proof.
  induction l as [|h t IH]; cbn [insert_sorted].
  - destruct (String.leb x y) eqn:Exy, (String.leb y x) eqn:Eyx;
      try reflexivity; string_order; reflexivity.
  - destruct (String.leb y h) eqn:Eyh, (String.leb x h) eqn:Exh; cbn [insert_sorted];
      rewrite ?Eyh, ?Exh.
    + destruct (String.leb x y) eqn:Exy, (String.leb y x) eqn:Eyx;
        try reflexivity; string_order; reflexivity.
    + destruct (String.leb x y) eqn:Exy; [string_order|reflexivity].
    + destruct (String.leb y x) eqn:Eyx; [string_order|reflexivity].
    + now rewrite IH.
Qed.

(** [sorted] does not depend on the order of its input. *)
Lemma sorted_permutation (l l' : list string) :
  Permutation l l' -> sorted l = sorted l'.
Proof.
  induction 1; cbn [sorted]; try congruence. apply insert_sorted_comm.
Qed.

Lemma insert_sorted_permutation (x : string) (l : list string) :
  Permutation (x :: l) (insert_sorted x l).
Proof.
  induction l as [|h t IH]; cbn [insert_sorted]; [reflexivity|].
  destruct (String.leb x h); [reflexivity|].
  rewrite perm_swap. now apply perm_skip.
Qed.

Lemma sorted_is_permutation (l : list string) : Permutation l (sorted l).
Proof.
  induction l as [|x l IH]; cbn [sorted]; [constructor|].
  rewrite <- insert_sorted_permutation. now apply perm_skip.
Qed.

Lemma insert_sorted_sorted (x : string) (l : list string) :
  Sorted string_le l -> Sorted string_le (insert_sorted x l).
Proof.
  induction l as [|h t IH]; cbn [insert_sorted]; intros Hs.
  - repeat constructor.
  - destruct (String.leb x h) eqn:E.
    + constructor; [assumption|]. constructor. exact E.
    + inversion Hs as [|? ? Ht Hh]; subst. constructor; [now apply IH|].
      assert (Hhx : string_le h x).
      { destruct (String.leb_total x h) as [H|H]; [congruence|exact H]. }
      destruct t as [|h2 t2]; cbn [insert_sorted].
      * constructor. exact Hhx.
      * destruct (String.leb x h2); constructor; [exact Hhx|].
        inversion Hh; subst. assumption.
Qed.

Lemma sorted_is_sorted (l : list string) : Sorted string_le (sorted l).
Proof.
  induction l as [|x l IH]; cbn [sorted]; [constructor|].
  now apply insert_sorted_sorted.
Qed.

(** Induction on bundles of errors. *)
Lemma vol_error_nested_ind (P : vol_error -> Prop) :
  (forall ex, P (SingleInvalid ex)) ->
  (forall errors, Forall P errors -> P (MultipleInvalid errors)) ->
  forall e, P e.
Proof.
  intros Hsingle Hmultiple.
  fix IH 1. intros [ex|errors].
  - apply Hsingle.
  - apply Hmultiple. induction errors as [|e rest IHrest]; constructor.
    + apply IH.
    + exact IHrest.
Qed.

Section MapResultFacts.
Variables A B : Type.
Variable f : A -> result B.
Hypothesis raises_index : forall x e, f x = Raise e -> e = IndexError.

Lemma map_result_raises_index (l : list A) (e : exn) :
  map_result f l = Raise e -> e = IndexError.
Proof.
  induction l as [|x rest IH]; cbn [map_result]; [discriminate|].
  destruct (f x) as [y|e'] eqn:Ex; cbn [bind].
  - destruct (map_result f rest) as [ys|e'']; cbn [bind]; [discriminate|].
    intros H. apply IH. congruence.
  - intros H. apply (raises_index x). congruence.
Qed.

(** The same elements in another order: the same results in that order, or
    an [IndexError] both times. *)
Lemma map_result_permutation (l l' : list A) :
  Permutation l l' ->
  match map_result f l, map_result f l' with
  | Ok ys, Ok ys' => Permutation ys ys'
  | Raise e, Raise e' => e = e'
  | _, _ => False
  end.
Proof.
  induction 1 as [|x l l' Hp IH|x y l|l l' l'' Hp1 IH1 Hp2 IH2].
  - constructor.
  - cbn [map_result]. destruct (f x) as [v|e]; cbn [bind]; [|reflexivity].
    destruct (map_result f l) as [ys|e], (map_result f l') as [ys'|e'];
      cbn [bind]; auto.
  - cbn [map_result].
    destruct (f x) as [vx|ex] eqn:Ex, (f y) as [vy|ey] eqn:Ey; cbn [bind];
      try (apply raises_index in Ex); try (apply raises_index in Ey);
      try (destruct (map_result f l) as [ys|e] eqn:El; cbn [bind];
           try (apply map_result_raises_index in El));
      subst; try reflexivity.
    apply perm_swap.
  - destruct (map_result f l) as [ys|e], (map_result f l') as [ys'|e'],
      (map_result f l'') as [ys''|e'']; try contradiction; try congruence.
    now transitivity ys'.
Qed.
End MapResultFacts.

Section FormatterFacts.
Variable CONF_CORE : string.
Variable _relpath : string -> string.
Variable repr : value -> string.

Lemma stringify_invalid_raises_index (ex : invalid) (domain_ : string) (config_ : value)
  (link : option string) (max_sub_error_length : Z) (e : exn) :
  stringify_invalid CONF_CORE _relpath repr ex domain_ config_ link max_sub_error_length
  = Raise e ->
  e = IndexError.
Proof.
  unfold stringify_invalid, find_annotation.
  rewrite find_annotation_rec_nearest. cbn [bind].
  assert (Hlast : forall k : seg -> result string,
             (forall x, exists m, k x = Ok m) ->
             bind (last_item (path ex)) k = Raise e -> e = IndexError).
  { intros k Hk. unfold last_item. destruct (rev (path ex)) as [|x rest]; cbn [bind].
    - congruence.
    - destruct (Hk x) as [m ->]. discriminate. }
  destruct (String.eqb (error_message ex) "extra keys not allowed");
    [apply Hlast; eauto|].
  destruct (String.eqb (error_message ex) "required key not provided");
    [apply Hlast; eauto|].
  discriminate.
Qed.

Lemma humanize_error_raises_index (validation_error : vol_error) :
  forall (domain_ : string) (config_ : value) (link : option string)
         (max_sub_error_length : Z) (e : exn),
    humanize_error CONF_CORE _relpath repr validation_error domain_ config_ link
      max_sub_error_length = Raise e ->
    e = IndexError.
Proof.
  induction validation_error as [ex|errors IH] using vol_error_nested_ind;
    intros domain_ config_ link max_len e.
  - apply stringify_invalid_raises_index.
  - cbn [humanize_error].
    destruct (map_result _ errors) as [parts|e'] eqn:Em; cbn [bind]; [discriminate|].
    intros H. assert (e' = e) by congruence. subst e'. clear H.
    induction errors as [|sub rest IHrest]; cbn [map_result] in Em; [discriminate|].
    inversion IH as [|? ? Hsub Hrest]; subst.
    destruct (humanize_error _ _ _ sub _ _ _ _) as [m|e'] eqn:Es; cbn [bind] in Em.
    + destruct (map_result _ rest) as [ms|e'']; cbn [bind] in Em; [discriminate|].
      apply IHrest; [exact Hrest|congruence].
    + assert (e' = e) by congruence. subst e'.
      exact (Hsub _ _ _ _ _ Es).
Qed.
End FormatterFacts.

(** X7. The message for a bundle of errors does not depend on the order of
    the errors in the bundle: it is the messages of its parts, sorted in
    ascending order and joined by newlines. *)
Theorem humanize_error_is_order_independent :
  (forall (CONF_CORE : string) (_relpath : string -> string) (repr : value -> string)
          (errors errors' : list vol_error) (domain_ : string) (config_ : value)
          (link : option string) (max_sub_error_length : Z),
      Permutation errors errors' ->
      humanize_error CONF_CORE _relpath repr (MultipleInvalid errors) domain_ config_ link
        max_sub_error_length
      = humanize_error CONF_CORE _relpath repr (MultipleInvalid errors') domain_ config_
          link max_sub_error_length)
  /\ (forall (CONF_CORE : string) (_relpath : string -> string) (repr : value -> string)
             (errors : list vol_error) (domain_ : string) (config_ : value)
             (link : option string) (max_sub_error_length : Z) (parts : list string),
         map_result
           (fun sub_error =>
              humanize_error CONF_CORE _relpath repr sub_error domain_ config_ link
                max_sub_error_length) errors
         = Ok parts ->
         exists lines,
           humanize_error CONF_CORE _relpath repr (MultipleInvalid errors) domain_ config_
             link max_sub_error_length
           = Ok (join newline lines)
           /\ Permutation parts lines
           /\ Sorted string_le lines).
Proof.
  split.
  - intros CONF_CORE _relpath repr errors errors' domain_ config_ link max_len Hperm.
    cbn [humanize_error].
    pose proof (map_result_permutation _ _
                  (fun sub_error =>
                     humanize_error CONF_CORE _relpath repr sub_error domain_ config_ link
                       max_len)
                  (fun x e => humanize_error_raises_index CONF_CORE _relpath repr x
                                domain_ config_ link max_len e)
                  errors errors' Hperm) as H.
    destruct (map_result _ errors) as [parts|e], (map_result _ errors') as [parts'|e'];
      cbn [bind]; try contradiction.
    + now rewrite (sorted_permutation _ _ H).
    + now subst.
  - intros CONF_CORE _relpath repr errors domain_ config_ link max_len parts Hparts.
    exists (sorted parts). cbn [humanize_error]. rewrite Hparts. cbn [bind].
    split; [reflexivity|]. split; [apply sorted_is_permutation|apply sorted_is_sorted].
Qed.

(** ** Handling failures *)

Section HandlerFacts.
Variable CONF_CORE : string.
Variable _relpath : string -> string.
Variable repr : value -> string.
Variable MAX_VALIDATION_ERROR_ITEM_LENGTH : Z.
Variable str_exception : exn -> string.
Variable repr_exception : exn -> string.

Let message_of :=
  _get_log_message_and_stack_print_pref CONF_CORE _relpath repr
    MAX_VALIDATION_ERROR_ITEM_LENGTH str_exception repr_exception.
Let log_failures_ :=
  log_failures CONF_CORE _relpath repr MAX_VALIDATION_ERROR_ITEM_LENGTH str_exception
    repr_exception.
Let handle :=
  async_handle_component_errors CONF_CORE _relpath repr MAX_VALIDATION_ERROR_ITEM_LENGTH
    str_exception repr_exception.

Lemma stringify_invalid_ok (ex : invalid) (domain_ : string) (config_ : value)
  (link : option string) (max_sub_error_length : Z) :
  ~ (names_last_segment ex /\ path ex = []) ->
  exists message,
    stringify_invalid CONF_CORE _relpath repr ex domain_ config_ link max_sub_error_length
    = Ok message.
Proof.
  intros Hn. unfold stringify_invalid, find_annotation, names_last_segment in *.
  rewrite find_annotation_rec_nearest. cbn [bind].
  destruct (last_item_raises (path ex)) as [_ Hfull].
  destruct (String.eqb_spec (error_message ex) "extra keys not allowed") as [E1|E1].
  - destruct (Hfull ltac:(intros Hp; apply Hn; auto)) as [x ->]. cbn [bind]. eauto.
  - destruct (String.eqb_spec (error_message ex) "required key not provided") as [E2|E2].
    + destruct (Hfull ltac:(intros Hp; apply Hn; auto)) as [x ->]. cbn [bind]. eauto.
    + eauto.
Qed.

Lemma message_of_formattable (domain_ : string) (failure : ConfigExceptionInfo) :
  formattable failure ->
  exists log_message show_stack_trace placeholders,
    message_of domain_ failure = Ok (log_message, show_stack_trace, placeholders).
Proof.
  intros Hf. unfold message_of, _get_log_message_and_stack_print_pref.
  assert (Hgeneric : forall e : exn,
             exists m t ph,
               (do log_message <-
                   format_homeassistant_error CONF_CORE _relpath str_exception
                     repr_exception e (platform_name failure) (config failure)
                     (integration_link failure);
                do found <- find_annotation (config failure)
                              [SKey (platform_name failure)];
                Ok (log_message, true,
                    [("domain"%string, domain_); ("error"%string, str_exception e)]
                    ++ annotation_placeholders found))
               = Ok (m, t, ph)).
  { intros e. unfold format_homeassistant_error, find_annotation.
    rewrite find_annotation_rec_nearest. cbn [bind].
    destruct (negb _ && link_truthy _); cbn [bind]; eauto. }
  assert (Hvalidation :
            exists m t ph,
              match exception failure with
              | VolInvalid ex =>
                  do log_message <-
                     format_schema_error CONF_CORE _relpath repr
                       MAX_VALIDATION_ERROR_ITEM_LENGTH (SingleInvalid ex)
                       (platform_name failure) (config failure) (integration_link failure);
                  do found <- find_annotation (config failure) (path ex);
                  Ok (log_message, false,
                      [("domain"%string, domain_);
                       ("error"%string, str_exception (exception failure))]
                      ++ annotation_placeholders found)
              | _ =>
                  do log_message <-
                     format_homeassistant_error CONF_CORE _relpath str_exception
                       repr_exception (exception failure) (platform_name failure)
                       (config failure) (integration_link failure);
                  do found <- find_annotation (config failure)
                                [SKey (platform_name failure)];
                  Ok (log_message, true,
                      [("domain"%string, domain_);
                       ("error"%string, str_exception (exception failure))]
                      ++ annotation_placeholders found)
              end = Ok (m, t, ph)).
  { destruct (exception failure) as [| | | | | | | |ex| |] eqn:Ee;
      try (rewrite <- Ee; apply Hgeneric).
    unfold format_schema_error. cbn [humanize_error].
    destruct (stringify_invalid_ok ex (platform_name failure) (config failure)
                (integration_link failure) MAX_VALIDATION_ERROR_ITEM_LENGTH
                (Hf ex Ee)) as [m ->].
    cbn [bind]. unfold find_annotation. rewrite find_annotation_rec_nearest.
    cbn [bind]. eauto. }
  destruct (translation_key failure); eauto.
Qed.

Lemma log_failures_formattable (domain_ : string) (failures : list ConfigExceptionInfo) :
  Forall formattable failures ->
  forall logged last,
  exists logged' last',
    log_failures_ domain_ failures logged last = (logged ++ logged', Ok last')
    /\ List.length logged' = List.length failures
    /\ (failures = [] -> last' = last)
    /\ (failures <> [] -> exists m ph f, last' = Some (m, ph, f)).
Proof.
  unfold log_failures_.
  induction 1 as [|failure rest Hf Hrest IH]; intros logged last.
  - exists [], last. cbn [log_failures]. rewrite app_nil_r.
    split; [reflexivity|]. split; [reflexivity|]. split; [auto|congruence].
  - cbn [log_failures].
    destruct (message_of_formattable domain_ failure Hf) as (m & t & ph & Hm).
    unfold message_of in Hm. rewrite Hm.
    destruct (IH (logged ++ [LogError m (if t then Some (exception failure) else None)])
                (Some (m, ph, failure))) as (logged' & last' & Hrun & Hlen & Hnil & Hcons).
    exists (LogError m (if t then Some (exception failure) else None) :: logged'), last'.
    rewrite Hrun, <- app_assoc. cbn [app List.length].
    split; [reflexivity|]. split; [lia|]. split; [discriminate|].
    intros _. destruct rest as [|f2 rest'].
    + rewrite (Hnil eq_refl). eauto.
    + apply Hcons. discriminate.
Qed.

(** X8. Handling the failures of a domain.  Without failures the config is
    returned and nothing is logged, whatever [raise_on_failure] says.  With
    [raise_on_failure] off, the best-effort config is returned and one
    record is logged per failure.  With it on, a single failure is raised
    under its own translation key with its log message, and two or more are
    raised as one [INTEGRATION_CONFIG_ERROR] that counts them and carries
    all their exceptions. *)
Theorem handle_component_errors_outcomes :
  (forall (info : IntegrationConfigInfo) (integration_ : integration)
          (raise_on_failure : bool),
      exception_info_list info = [] ->
      handle info integration_ raise_on_failure = ([], HandledReturn (info_config info)))
  /\ (forall (info : IntegrationConfigInfo) (integration_ : integration),
         Forall formattable (exception_info_list info) ->
         exists logged,
           handle info integration_ false = (logged, HandledReturn (info_config info))
           /\ List.length logged = List.length (exception_info_list info))
  /\ (forall (info : IntegrationConfigInfo) (integration_ : integration)
             (failure : ConfigExceptionInfo) (log_message : string)
             (show_stack_trace : bool) (placeholders : list (string * string)),
         exception_info_list info = [failure] ->
         message_of (domain integration_) failure
         = Ok (log_message, show_stack_trace, placeholders) ->
         handle info integration_ true
         = ([LogError log_message
               (if show_stack_trace then Some (exception failure) else None)],
            HandledRaise
              (MkConfigValidationError log_message [exception failure]
                 (translation_key failure) placeholders)))
  /\ (forall (info : IntegrationConfigInfo) (integration_ : integration),
         Forall formattable (exception_info_list info) ->
         (2 <= List.length (exception_info_list info))%nat ->
         let errors := str_int (Z.of_nat (List.length (exception_info_list info))) in
         exists logged,
           handle info integration_ true
           = (logged,
              HandledRaise
                (MkConfigValidationError
                   ("Failed to process component config for integration "
                    ++ domain integration_ ++ " due to multiple errors (" ++ errors
                    ++ "), check the logs for more information.")%string
                   (map exception (exception_info_list info))
                   INTEGRATION_CONFIG_ERROR
                   [("domain"%string, domain integration_); ("errors"%string, errors)]))
           /\ List.length logged = List.length (exception_info_list info)).
Proof.
  unfold handle, async_handle_component_errors. split; [|split; [|split]].
  - intros info integration_ flag ->. reflexivity.
  - intros info integration_ Hf.
    destruct (exception_info_list info) as [|f rest] eqn:E; [eauto|].
    destruct (log_failures_formattable (domain integration_) (f :: rest) Hf [] None)
      as (logged & last & Hrun & Hlen & _ & Hlast).
    unfold log_failures_ in Hrun. rewrite Hrun. cbn [app].
    destruct (Hlast ltac:(discriminate)) as (m & ph & f' & ->).
    cbn [negb]. eauto.
  - intros info integration_ failure m t ph -> Hm.
    cbn [log_failures]. unfold message_of in Hm. rewrite Hm. reflexivity.
  - intros info integration_ Hf Hlen. cbv zeta.
    destruct (exception_info_list info) as [|f1 [|f2 rest]] eqn:E;
      cbn [List.length] in Hlen; try lia.
    destruct (log_failures_formattable (domain integration_) (f1 :: f2 :: rest) Hf [] None)
      as (logged & last & Hrun & Hlogged & _ & Hlast).
    unfold log_failures_ in Hrun. rewrite Hrun. cbn [app].
    destruct (Hlast ltac:(discriminate)) as (m & ph & f' & ->).
    cbn [negb List.length Nat.eqb]. eauto.
Qed.
End HandlerFacts.

Lemma handle_component_errors_witness :
  let info := MkConfigInfo (Some (VDict None three_entries_document)) two_failures in
  let errors := str_int (Z.of_nat (List.length (exception_info_list info))) in
  exists logged,
    async_handle_component_errors "homeassistant" (fun p => p) (fun _ => "{}"%string) 43
      str_exn (fun _ => "Error()"%string) info light_integration true
    = (logged,
       HandledRaise
         (MkConfigValidationError
            ("Failed to process component config for integration "
             ++ domain light_integration ++ " due to multiple errors (" ++ errors
             ++ "), check the logs for more information.")%string
            (map exception (exception_info_list info))
            INTEGRATION_CONFIG_ERROR
            [("domain"%string, domain light_integration); ("errors"%string, errors)]))
    /\ List.length logged = List.length (exception_info_list info).
Proof.
  apply (proj2 (proj2 (proj2
           (handle_component_errors_outcomes "homeassistant" (fun p => p)
              (fun _ => "{}"%string) 43 str_exn (fun _ => "Error()"%string))))
           (MkConfigInfo (Some (VDict None three_entries_document)) two_failures)
           light_integration).
  - repeat constructor.
    + intros ex Hex [_ Hpath]. inversion Hex; subst. discriminate Hpath.
    + intros ex Hex. discriminate Hex.
  - simpl. lia.
Defined.

Lemma humanize_error_witness :
  humanize_error "homeassistant" (fun p => p) (fun _ => "{}"%string)
    (MultipleInvalid [SingleInvalid missing_bar; SingleInvalid bad_key])
    "light" demo_document None 43
  = humanize_error "homeassistant" (fun p => p) (fun _ => "{}"%string)
      (MultipleInvalid [SingleInvalid bad_key; SingleInvalid missing_bar])
      "light" demo_document None 43.
Proof.
  apply (proj1 humanize_error_is_order_independent). apply perm_swap.
Defined.

(** ** What the merge leaves alone *)

Lemma keys_dict_set (d : dict) (k : dkey) (v : value) :
  exists extra, keys (dict_set d k v) = keys d ++ extra.
Proof.
  induction d as [|[k' v'] d IH]; simpl.
  - exists [key_str k]. reflexivity.
  - destruct (String.eqb (key_str k') (key_str k)); simpl.
    + exists []. now rewrite app_nil_r.
    + destruct IH as [extra ->]. exists extra. reflexivity.
Qed.

Lemma keys_extend_trans (a b c : list string) :
  (exists extra, b = a ++ extra) -> (exists extra, c = b ++ extra) ->
  exists extra, c = a ++ extra.
Proof.
  intros [e1 ->] [e2 ->]. exists (e1 ++ e2). now rewrite app_assoc.
Qed.

Section FrameFacts.
Variable CONF_CORE : string.
Variable loader : string -> result integration.

(** One turn of the merge writes under its own key only, never under the
    core key, and keeps the keys of the document in place. *)
Lemma merge_component_frame (st : merge_state) (pack_name : string)
  (comp_name : dkey) (comp_conf : value) (k : string) :
  k = CONF_CORE \/ key_str comp_name <> k ->
  dict_find
    (config_of (fst (merge_component CONF_CORE loader st pack_name comp_name comp_conf))) k
  = dict_find (config_of st) k.
Proof.
  intros Hk. unfold merge_component.
  destruct (String.eqb_spec (key_str comp_name) CONF_CORE) as [Hc|Hc]; [reflexivity|].
  assert (Hne : key_str comp_name <> k) by (destruct Hk; congruence).
  assert (Hset : forall d v, dict_find (dict_set d comp_name v) k = dict_find d k)
    by (intros; now apply dict_find_set_other).
  repeat match goal with
         | |- context [let (_, _) := ?x in _] => destruct x
         | |- context [match ?x with _ => _ end] => destruct x
         end;
    cbn [fst config_of log_error]; rewrite ?Hset; reflexivity.
Qed.

Lemma merge_component_keys (st : merge_state) (pack_name : string)
  (comp_name : dkey) (comp_conf : value) :
  exists extra,
    keys (config_of (fst (merge_component CONF_CORE loader st pack_name comp_name comp_conf)))
    = keys (config_of st) ++ extra.
Proof.
  assert (H0 : exists extra, keys (config_of st) = keys (config_of st) ++ extra)
    by (exists []; now rewrite app_nil_r).
  assert (H1 : forall v, exists extra,
               keys (dict_set (config_of st) comp_name v) = keys (config_of st) ++ extra)
    by (intros; apply keys_dict_set).
  assert (H2 : forall v w, exists extra,
               keys (dict_set (dict_set (config_of st) comp_name v) comp_name w)
               = keys (config_of st) ++ extra).
  { intros v w. eapply keys_extend_trans; [apply (H1 v)|apply keys_dict_set]. }
  unfold merge_component.
  repeat match goal with
         | |- context [let (_, _) := ?x in _] => destruct x
         | |- context [match ?x with _ => _ end] => destruct x
         end;
    cbn [fst config_of log_error]; solve [exact H0 | apply H1 | apply H2].
Qed.

Lemma merge_package_frame (comps : dict) :
  forall (st : merge_state) (pack_name : string) (k : string),
    k = CONF_CORE \/ ~ In k (keys comps) ->
    dict_find (config_of (fst (merge_package CONF_CORE loader st pack_name comps))) k
    = dict_find (config_of st) k.
Proof.
  induction comps as [|[comp_name comp_conf] rest IH]; intros st pack_name k Hk;
    cbn [merge_package]; [reflexivity|].
  assert (Hone : k = CONF_CORE \/ key_str comp_name <> k)
    by (destruct Hk as [Hk|Hk]; [now left|right; simpl in Hk; tauto]).
  assert (Hrest : k = CONF_CORE \/ ~ In k (keys rest))
    by (destruct Hk as [Hk|Hk]; [now left|right; simpl in Hk; tauto]).
  pose proof (merge_component_frame st pack_name comp_name comp_conf k Hone) as Hf.
  destruct (merge_component CONF_CORE loader st pack_name comp_name comp_conf)
    as [st' [u|e]]; cbn [fst] in Hf |- *.
  - now rewrite IH.
  - exact Hf.
Qed.

Lemma merge_package_keys (comps : dict) :
  forall (st : merge_state) (pack_name : string),
  exists extra,
    keys (config_of (fst (merge_package CONF_CORE loader st pack_name comps)))
    = keys (config_of st) ++ extra.
Proof.
  induction comps as [|[comp_name comp_conf] rest IH]; intros st pack_name;
    cbn [merge_package].
  - exists []. now rewrite app_nil_r.
  - pose proof (merge_component_keys st pack_name comp_name comp_conf) as Hk.
    destruct (merge_component CONF_CORE loader st pack_name comp_name comp_conf)
      as [st' [u|e]]; cbn [fst] in Hk |- *; [|exact Hk].
    eapply keys_extend_trans; [exact Hk|apply IH].
Qed.

Lemma merge_packages_frame (packs : dict) :
  forall (st : merge_state) (k : string),
    k = CONF_CORE \/ ~ In k (component_names packs) ->
    dict_find (config_of (fst (merge_packages CONF_CORE loader st packs))) k
    = dict_find (config_of st) k.
Proof.
  induction packs as [|[pack_name pack_conf] rest IH]; intros st k Hk;
    cbn [merge_packages]; [reflexivity|].
  destruct pack_conf as [| | | | |t comps]; try reflexivity.
  assert (Hone : k = CONF_CORE \/ ~ In k (keys comps)).
  { destruct Hk as [Hk|Hk]; [now left|right].
    intros Hin. apply Hk. cbn [component_names flat_map snd].
    apply in_or_app. now left. }
  assert (Hrest : k = CONF_CORE \/ ~ In k (component_names rest)).
  { destruct Hk as [Hk|Hk]; [now left|right].
    intros Hin. apply Hk. cbn [component_names flat_map snd].
    apply in_or_app. now right. }
  pose proof (merge_package_frame comps st (key_str pack_name) k Hone) as Hf.
  destruct (merge_package CONF_CORE loader st (key_str pack_name) comps)
    as [st' [u|e]]; cbn [fst] in Hf |- *.
  - now rewrite IH.
  - exact Hf.
Qed.

Lemma merge_packages_keys (packs : dict) :
  forall st : merge_state,
  exists extra,
    keys (config_of (fst (merge_packages CONF_CORE loader st packs)))
    = keys (config_of st) ++ extra.
Proof.
  induction packs as [|[pack_name pack_conf] rest IH]; intros st; cbn [merge_packages].
  - exists []. now rewrite app_nil_r.
  - destruct pack_conf as [| | | | |t comps];
      try (exists []; now rewrite app_nil_r).
    pose proof (merge_package_keys comps st (key_str pack_name)) as Hk.
    destruct (merge_package CONF_CORE loader st (key_str pack_name) comps)
      as [st' [u|e]]; cbn [fst] in Hk |- *; [|exact Hk].
    eapply keys_extend_trans; [exact Hk|apply IH].
Qed.
End FrameFacts.

(** X9. However [merge_packages_config] ends, by returning or by an
    exception, it has left the core section, and every key that no package
    names as a component, exactly as it was; and the keys the document had
    are still there in the same order, with new keys only added after
    them. *)
Theorem merge_packages_config_frame (CONF_CORE : string) (is_slug : string -> bool)
  (loader : string -> result integration) (config_ : dict) (packages : value) :
  (forall k : string,
      k = CONF_CORE
      \/ (forall t packs, packages = VDict t packs -> ~ In k (component_names packs)) ->
      dict_find
        (config_of (fst (merge_packages_config CONF_CORE is_slug loader config_ packages))) k
      = dict_find config_ k)
  /\ (exists added,
         keys (config_of (fst (merge_packages_config CONF_CORE is_slug loader config_
                                packages)))
         = keys config_ ++ added).
Proof.
  unfold merge_packages_config.
  destruct (PACKAGES_CONFIG_SCHEMA is_slug packages) as [ok|e].
  2: { split; [reflexivity|]. exists []. cbn. now rewrite app_nil_r. }
  destruct packages as [| | | | |t packs];
    try (split; [reflexivity|exists []; cbn; now rewrite app_nil_r]).
  split.
  - intros k Hk.
    assert (Hk' : k = CONF_CORE \/ ~ In k (component_names packs))
      by (destruct Hk as [Hk|Hk]; [now left|right; now apply (Hk t)]).
    pose proof (merge_packages_frame CONF_CORE loader packs (MergeState config_ []) k Hk')
      as Hf.
    destruct (merge_packages CONF_CORE loader (MergeState config_ []) packs)
      as [st' [u|e]]; exact Hf.
  - pose proof (merge_packages_keys CONF_CORE loader packs (MergeState config_ [])) as Hk.
    destruct (merge_packages CONF_CORE loader (MergeState config_ []) packs)
      as [st' [u|e]]; exact Hk.
Qed.

Lemma merge_packages_config_frame_witness :
  dict_find
    (config_of (fst (merge_packages_config "core" example_is_slug platform_loader
                       [(plain "core", VDict None [(plain "packages", light_packages)]);
                        (plain "light", VList None [])]
                       light_packages)))
    "core"
  = dict_find [(plain "core", VDict None [(plain "packages", light_packages)]);
               (plain "light", VList None [])] "core".
Proof.
  apply (proj1 (merge_packages_config_frame "core" example_is_slug platform_loader
                  [(plain "core", VDict None [(plain "packages", light_packages)]);
                   (plain "light", VList None [])]
                  light_packages)).
  left. reflexivity.
Defined.

(** ** The merge hint *)

(** X10. The hint of a config platform counts only when it is "list": with
    that hint the list policy is chosen outright; a component with a
    per-platform schema gets the list policy whatever the probe found, a
    "dict" hint included; any other hint decides exactly as an integration
    without a validator would; and a validator without a hint makes the
    resolution raise [AttributeError]. *)
Theorem merge_hint_counts_only_when_list (integration_ : integration)
  (component : module) :
  (probes_as integration_ (Hint "list") ->
   resolve_merge_list integration_ component = Ok true)
  /\ (forall p, probes_as integration_ p -> PLATFORM_SCHEMA component <> None ->
        resolve_merge_list integration_ component = Ok true)
  /\ (forall hint other,
        probes_as integration_ (Hint hint) -> hint <> "list"%string ->
        probes_as other NoValidator ->
        resolve_merge_list integration_ component = resolve_merge_list other component)
  /\ (forall m v,
        get_platform integration_ "config" = Ok m ->
        async_validate_config m = Some v ->
        PACKAGE_MERGE_HINT m = None ->
        resolve_merge_list integration_ component = Raise AttributeError).
Proof.
  split; [|split; [|split]].
  - intros (m & v & Hp & Hv & Hh). unfold resolve_merge_list.
    rewrite Hp, Hv. cbn [bind]. rewrite Hh. reflexivity.
  - intros p Hp Hs. unfold resolve_merge_list.
    destruct (PLATFORM_SCHEMA component) as [ps|]; [clear Hs|congruence].
    destruct p as [|hint].
    + destruct Hp as [(name & msg & Hp)|(m & Hp & Hv)].
      * rewrite Hp. reflexivity.
      * rewrite Hp, Hv. reflexivity.
    + destruct Hp as (m & v & Hp & Hv & Hh).
      rewrite Hp, Hv. cbn [bind]. rewrite Hh. cbn [bind].
      destruct (String.eqb hint "list"); reflexivity.
  - intros hint other (m & v & Hp & Hv & Hh) Hne Hother.
    unfold resolve_merge_list. rewrite Hp, Hv. cbn [bind]. rewrite Hh. cbn [bind].
    destruct (String.eqb_spec hint "list") as [E|_]; [congruence|].
    destruct Hother as [(name & msg & Ho)|(m' & Ho & Hv')].
    + rewrite Ho. reflexivity.
    + rewrite Ho, Hv'. reflexivity.
  - intros m v Hp Hv Hh. unfold resolve_merge_list.
    rewrite Hp, Hv. cbn [bind]. rewrite Hh. reflexivity.
Qed.

Lemma merge_hint_witness :
  resolve_merge_list (hinted_integration "dict" zone_module) zone_module
  = resolve_merge_list (bare_integration "zone") zone_module.
Proof.
  apply (proj1 (proj2 (proj2 (merge_hint_counts_only_when_list
                                (hinted_integration "dict" zone_module) zone_module)))
           "dict"%string (bare_integration "zone")).
  - exists (Module "zone" None None None (Some (fun c => Ok c)) (Some "dict"%string)).
    exists (fun c => Ok c). repeat split.
  - discriminate.
  - left. eexists. eexists. reflexivity.
Defined.

(** ** Flat fragments *)

Section FlatFacts.
Variable nested : value -> dict -> dict * result (option dkey).

Lemma merge_loop_flat (fragment : dict) :
  forall (dup : option dkey) (conf : dict),
    flat_scalars fragment ->
    NoDup (keys fragment) ->
    (forall k, In k (keys fragment) -> dict_get conf k = VNone) ->
    snd (merge_loop nested dup conf fragment) = Finished dup
    /\ (forall k,
          dict_find (fst (merge_loop nested dup conf fragment)) k
          = match dict_find fragment k with
            | Some v => Some v
            | None => dict_find conf k
            end)
    /\ ((forall k, In k (keys fragment) -> dict_find conf k = None) ->
        fst (merge_loop nested dup conf fragment) = conf ++ fragment).
Proof.
  induction fragment as [|[key v] rest IH]; intros dup conf Hflat Hnd Hfree.
  - cbn [merge_loop fst snd dict_find]. repeat split; auto.
    intros _. now rewrite app_nil_r.
  - assert (Hv : is_scalar v = true) by (apply (Hflat (key, v)); now left).
    assert (Hrest : flat_scalars rest) by (intros kv Hin; apply Hflat; now right).
    cbn [keys map fst] in Hnd. apply NoDup_cons_iff in Hnd. destruct Hnd as [Hnotin Hnd].
    assert (Hkey : dict_get conf (key_str key) = VNone) by (apply Hfree; now left).
    assert (Hfree' : forall k, In k (keys rest) ->
                               dict_get (dict_set conf key v) k = VNone).
    { intros k Hin. rewrite dict_get_set_other.
      - apply Hfree. now right.
      - intros E. apply Hnotin. now rewrite E. }
    specialize (IH dup (dict_set conf key v) Hrest Hnd Hfree').
    destruct IH as (IHs & IHf & IHa).
    assert (Hstep : merge_loop nested dup conf ((key, v) :: rest)
                    = merge_loop nested dup (dict_set conf key v) rest).
    { cbn [merge_loop]. rewrite Hkey. cbn [is_not_none].
      destruct v as [| b | z | t str | t l | t d]; try reflexivity; discriminate. }
    rewrite Hstep. split; [exact IHs|split].
    + intros k. rewrite IHf. cbn [dict_find].
      destruct (String.eqb_spec (key_str key) k) as [E|E].
      * subst k. rewrite (dict_find_not_in rest _ Hnotin).
        apply dict_find_set_same.
      * destruct (dict_find rest k); [reflexivity|].
        now apply dict_find_set_other.
    + intros Habs.
      assert (Hk : dict_find conf (key_str key) = None) by (apply Habs; now left).
      rewrite IHa.
      * rewrite (dict_set_absent _ _ _ Hk), <- app_assoc. reflexivity.
      * intros k Hin. rewrite dict_find_set_other.
        -- apply Habs. now right.
        -- intros E. apply Hnotin. now rewrite E.
Qed.
End FlatFacts.

(** X11. Merging a fragment of scalars with distinct keys into a mapping
    that sets none of them (a key bound to null counts as not set) reports
    no duplicate; afterwards every key of the fragment has the fragment's
    value and every other key the value it had; and when the keys were
    absent altogether the result is the mapping followed by the fragment, in
    the fragment's order. *)
Theorem recursive_merge_of_unset_scalars (conf fragment : dict) :
  flat_scalars fragment ->
  NoDup (keys fragment) ->
  (forall k, In k (keys fragment) -> dict_get conf k = VNone) ->
  snd (_recursive_merge conf fragment) = Ok None
  /\ (forall k,
        dict_find (fst (_recursive_merge conf fragment)) k
        = match dict_find fragment k with
          | Some v => Some v
          | None => dict_find conf k
          end)
  /\ ((forall k, In k (keys fragment) -> dict_find conf k = None) ->
      fst (_recursive_merge conf fragment) = conf ++ fragment).
Proof.
  intros Hflat Hnd Hfree.
  destruct (merge_loop_flat merge_node fragment None conf Hflat Hnd Hfree)
    as (Hs & Hf & Ha).
  unfold _recursive_merge.
  destruct (merge_loop merge_node None conf fragment) as [conf' x].
  cbn [fst snd] in *. subst x. repeat split; auto.
Qed.

Lemma recursive_merge_of_unset_scalars_witness :
  fst (_recursive_merge [(plain "name", VStr None "home")]
         [(plain "threshold", VInt 1); (plain "unit", VStr None "C")])
  = [(plain "name", VStr None "home")]
    ++ [(plain "threshold", VInt 1); (plain "unit", VStr None "C")].
Proof.
  apply (recursive_merge_of_unset_scalars [(plain "name", VStr None "home")]
           [(plain "threshold", VInt 1); (plain "unit", VStr None "C")]).
  - intros kv [<-|[<-|[]]]; reflexivity.
  - repeat constructor; simpl; intuition discriminate.
  - intros k [<-|[<-|[]]]; reflexivity.
  - intros k [<-|[<-|[]]]; reflexivity.
Defined.

(** ** A mapping merged over something else *)

(** X12. When the fragment reaches a key whose value is a mapping with an
    entry other than an empty mapping, and the target has under that key
    something that is not a mapping (a scalar, a sequence, or null),
    [_recursive_merge] raises [AttributeError]: the target is left as the
    entries before that key made it, and the entries after it are never
    merged.  In [merge_packages_config] the exception is not caught: it
    leaves the turn of that component. *)
Theorem nested_mapping_over_non_mapping_raises (CONF_CORE : string)
  (loader : string -> result integration)
  (conf pre post conf1 : dict) (dup : option dkey)
  (key : dkey) (t : option tag) (sub : dict) (x : value) :
  merge_loop merge_node None conf pre = (conf1, Finished dup) ->
  dict_find conf1 (key_str key) = Some x ->
  isinstance_dict x = false ->
  existsb (fun kv => negb (is_empty_mapping (snd kv))) sub = true ->
  _recursive_merge conf (pre ++ (key, VDict t sub) :: post) = (conf1, Raise AttributeError)
  /\ (forall st pack_name comp_name tf integration_ component tc,
        String.eqb (key_str comp_name) CONF_CORE = false ->
        loader (partition_head (key_str comp_name)) = Ok integration_ ->
        get_component integration_ = Ok component ->
        resolve_merge_list integration_ component = Ok false ->
        dict_find (config_of st) (key_str comp_name) = Some (VDict tc conf) ->
        merge_component CONF_CORE loader st pack_name comp_name
          (VDict tf (pre ++ (key, VDict t sub) :: post))
        = (MergeState (dict_set (config_of st) comp_name (VDict tc conf1)) (log_of st),
           Raise AttributeError)).
Proof.
  intros Hpre Hfind Hx Hsub.
  assert (Hmerge : _recursive_merge conf (pre ++ (key, VDict t sub) :: post)
                   = (conf1, Raise AttributeError)).
  { unfold _recursive_merge. rewrite merge_loop_app, Hpre.
    destruct sub as [|e sub']; [discriminate|].
    cbn [merge_loop]. rewrite Hfind.
    rewrite (dict_set_found _ _ _ Hfind).
    destruct x as [| b | z | tx str | tx l | tx d]; try discriminate;
      rewrite Hsub; reflexivity. }
  split; [exact Hmerge|].
  intros st pack_name comp_name tf integration_ component tc Hcore Hload Hcomp Hpol Hslot.
  rewrite (merge_component_dict CONF_CORE loader st pack_name comp_name tf _
             integration_ component tc conf Hcore Hload Hcomp Hpol Hslot).
  rewrite Hmerge. reflexivity.
Qed.

Lemma nested_mapping_over_non_mapping_witness :
  _recursive_merge [(plain "mode", VNone)]
    ([(plain "name", VStr None "home")]
     ++ (plain "mode", VDict None [(plain "kind", VStr None "auto")])
        :: [(plain "unit", VStr None "C")])
  = ([(plain "mode", VNone); (plain "name", VStr None "home")], Raise AttributeError).
Proof.
  apply (nested_mapping_over_non_mapping_raises "homeassistant" bare_loader
           [(plain "mode", VNone)] [(plain "name", VStr None "home")]
           [(plain "unit", VStr None "C")]
           [(plain "mode", VNone); (plain "name", VStr None "home")] None
           (plain "mode") None [(plain "kind", VStr None "auto")] VNone);
    reflexivity.
Defined.

(** ** Components that cannot be merged *)

(** X13. A component that cannot be merged is skipped: when its
    integration or component fails to load with one of the caught
    exceptions, when under the dict policy its fragment is neither a mapping
    nor null, or when the document already has under its key something that
    is neither a mapping nor null, the turn returns normally, the document
    is exactly as before, and one failure is logged for the package and the
    component. *)
Theorem unmergeable_component_is_skipped (CONF_CORE : string)
  (loader : string -> result integration) (st : merge_state) (pack_name : string)
  (comp_name : dkey) (comp_conf : value) :
  String.eqb (key_str comp_name) CONF_CORE = false ->
  (exists ex,
      (do integration_ <- loader (partition_head (key_str comp_name));
       do component <- get_component integration_;
       Ok (integration_, component)) = Raise ex
      /\ LOAD_EXCEPTIONS ex || INTEGRATION_LOAD_EXCEPTIONS ex = true)
  \/ (exists integration_ component,
         loader (partition_head (key_str comp_name)) = Ok integration_
         /\ get_component integration_ = Ok component
         /\ resolve_merge_list integration_ component = Ok false
         /\ (isinstance_dict comp_conf || negb (is_not_none comp_conf) = false
             \/ exists x, dict_find (config_of st) (key_str comp_name) = Some x
                          /\ isinstance_dict x || negb (is_not_none x) = false
                          /\ isinstance_dict comp_conf || negb (is_not_none comp_conf)
                             = true)) ->
  exists message,
    merge_component CONF_CORE loader st pack_name comp_name comp_conf
    = (MergeState (config_of st)
         (log_of st ++ [PkgError pack_name (key_str comp_name) message]), Ok tt).
Proof.
  intros Hcore [(ex & Hload & Hex)|(integration_ & component & Hload & Hcomp & Hpol & Hwhy)];
    unfold merge_component; rewrite Hcore.
  - rewrite Hload.
    destruct (LOAD_EXCEPTIONS ex); [eexists; reflexivity|].
    cbn [orb] in Hex. rewrite Hex. eexists. reflexivity.
  - rewrite Hload. cbn [bind]. rewrite Hcomp. cbn [bind]. rewrite Hpol.
    destruct Hwhy as [Hfrag|(x & Hslot & Hx & Hfrag)].
    + destruct comp_conf as [| b | z | t str | t l | t d]; try discriminate;
        eexists; reflexivity.
    + unfold dict_contains, dict_get. rewrite Hslot.
      destruct x as [| b | z | tx str | tx l | tx d]; try discriminate;
        destruct comp_conf as [| b' | z' | t' str' | t' l' | t' d']; try discriminate;
        cbn [negb orb is_not_none]; rewrite Hslot; eexists; reflexivity.
Qed.

Lemma unmergeable_component_witness :
  exists message,
    merge_component "homeassistant" bare_loader
      (MergeState [(plain "sensor", VList None [])] []) "pkg1"
      (plain "sensor") (VDict None [(plain "threshold", VInt 1)])
    = (MergeState [(plain "sensor", VList None [])]
         ([] ++ [PkgError "pkg1" "sensor" message]), Ok tt).
Proof.
  apply (unmergeable_component_is_skipped "homeassistant" bare_loader
           (MergeState [(plain "sensor", VList None [])] []) "pkg1"
           (plain "sensor") (VDict None [(plain "threshold", VInt 1)])).
  - reflexivity.
  - right. exists (bare_integration "sensor"), (bare_module "sensor").
    repeat split. right. exists (VList None []). repeat split.
Defined.

(** ** Component keys with a description *)

Lemma partition_head_app (d rest : string) :
  no_space d = true -> partition_head (d ++ " " ++ rest)%string = d.
Proof.
  change (" " ++ rest)%string with (String " " rest).
  unfold no_space. induction d as [|c d IH]; cbn; [reflexivity|].
  destruct (Ascii.eqb c " "); cbn; [discriminate|].
  intros H. now rewrite IH.
Qed.

Lemma partition_head_no_space (s : string) : no_space (partition_head s) = true.
Proof.
  unfold no_space. induction s as [|c s IH]; cbn; [reflexivity|].
  destruct (Ascii.eqb c " ") eqn:E; cbn; [reflexivity|].
  now rewrite E.
Qed.

(** X14. A component key is looked up under its first word and merged
    under the whole key: the text before the first space never contains a
    space, is a prefix of the key and is the key itself when the key has no
    space; of a word followed by a space and a description it is the word;
    and a turn of the merge asks the loader about that word only, so two
    loaders that agree on it give the same turn. *)
Theorem component_is_loaded_by_first_word (CONF_CORE : string)
  (loader1 loader2 : string -> result integration) (st : merge_state)
  (pack_name : string) (comp_name : dkey) (comp_conf : value) :
  no_space (partition_head (key_str comp_name)) = true
  /\ String.prefix (partition_head (key_str comp_name)) (key_str comp_name) = true
  /\ (no_space (key_str comp_name) = true ->
      partition_head (key_str comp_name) = key_str comp_name)
  /\ (forall word description,
        no_space word = true ->
        key_str comp_name = (word ++ " " ++ description)%string ->
        partition_head (key_str comp_name) = word)
  /\ (loader1 (partition_head (key_str comp_name))
      = loader2 (partition_head (key_str comp_name)) ->
      merge_component CONF_CORE loader1 st pack_name comp_name comp_conf
      = merge_component CONF_CORE loader2 st pack_name comp_name comp_conf).
Proof.
  split; [apply partition_head_no_space|].
  split.
  { generalize (key_str comp_name). intros s.
    induction s as [|c s IH]; cbn; [reflexivity|].
    destruct (Ascii.eqb c " "); cbn; [reflexivity|].
    destruct (Ascii.ascii_dec c c); [exact IH|congruence]. }
  split.
  { generalize (key_str comp_name). intros s. unfold no_space.
    induction s as [|c s IH]; cbn; [reflexivity|].
    destruct (Ascii.eqb c " "); cbn; [discriminate|].
    intros H. now rewrite IH. }
  split.
  { intros word description Hw ->. now apply partition_head_app. }
  intros Hsame. unfold merge_component. now rewrite Hsame.
Qed.

Lemma component_is_loaded_by_first_word_witness :
  partition_head (key_str (plain "light living room")) = "light"%string.
Proof.
  apply (proj1 (proj2 (proj2 (proj2
           (component_is_loaded_by_first_word "homeassistant" bare_loader bare_loader
              (MergeState [] []) "pkg1" (plain "light living room") VNone))))
           "light"%string "living room"%string);
    reflexivity.
Defined.

(** ** The shape of a validation outcome *)

Section OutcomeFacts.
Variable loader : string -> result integration.
Variable config_per_platform : dict -> string -> list (option string * value).
Variable extract_domain_configs : dict -> string -> list string.



Lemma process_platforms_returns (config_ : dict) (integration_ : integration)
  (docs : option string) (schema_ : validator)
  (entries : list (option string * value)) :
  loads_cleanly loader integration_ ->
  forall platforms failures,
  exists looped,
    process_platforms loader config_ (domain integration_) docs schema_ entries
      platforms failures = Ok looped.
Proof.
  intros (_ & _ & Hload & Hplat).
  induction entries as [|[p_name p_config] rest IH]; intros platforms failures;
    cbn [process_platforms]; [eexists; reflexivity|].
  destruct (process_platform loader config_ (domain integration_) docs schema_
              p_name p_config) as [v|info|e] eqn:E; [apply IH|apply IH|].
  exfalso. revert E. unfold process_platform.
  destruct (schema_ p_config) as [v0|exc];
    [|destruct (isinstance_vol_Invalid exc); discriminate].
  destruct p_name as [name|]; [|discriminate].
  destruct (loader name) as [p_integration|exc] eqn:El.
  - destruct (get_platform p_integration (domain integration_)) as [platform|exc] eqn:Ep.
    + destruct (PLATFORM_SCHEMA platform) as [ps|]; [|discriminate].
      destruct (ps p_config) as [v1|exc]; [discriminate|].
      destruct (isinstance_vol_Invalid exc); discriminate.
    + rewrite (Hplat name p_integration exc El Ep). discriminate.
  - rewrite (Hload name exc El). discriminate.
Qed.
End OutcomeFacts.






(** X17. What a schema or a validator raises never leaves
    [async_process_component_config]: when loading (the component, the
    config platform, the integrations of the platforms and their platform
    modules) fails only with the exceptions the function catches, the call
    returns. *)
Theorem validation_errors_never_escape
  (loader : string -> result integration)
  (config_per_platform : dict -> string -> list (option string * value))
  (extract_domain_configs : dict -> string -> list string)
  (config_ : dict) (integration_ : integration) :
  loads_cleanly loader integration_ ->
  exists info,
    async_process_component_config loader config_per_platform extract_domain_configs
      config_ integration_ = Ok info.
Proof.
  intros Hclean.
  assert (Hprobe : forall component config_validator,
             exists info,
               process_after_probe loader config_per_platform extract_domain_configs
                 config_ integration_ component config_validator = Ok info).
  { intros component config_validator. unfold process_after_probe.
    destruct (match config_validator with
              | Some m => async_validate_config m
              | None => None
              end) as [validate|].
    - destruct (validate (VDict None config_)) as [validated|exc];
        [eexists; reflexivity|].
      destruct (isinstance_vol_Invalid exc || isinstance_HomeAssistantError exc);
        eexists; reflexivity.
    - destruct (CONFIG_SCHEMA component) as [config_schema_|].
      + destruct (call config_schema_ (VDict None config_)) as [validated|exc];
          [eexists; reflexivity|].
        destruct (isinstance_vol_Invalid exc); eexists; reflexivity.
      + destruct (match PLATFORM_SCHEMA_BASE component with
                  | Some s => Some s
                  | None => PLATFORM_SCHEMA component
                  end) as [platform_schema|]; [|eexists; reflexivity].
        destruct (process_platforms_returns loader config_ integration_
                    (documentation integration_) platform_schema
                    (config_per_platform config_ (domain integration_)) Hclean [] [])
          as [[platforms failures] ->].
        cbn [bind]. eexists. reflexivity. }
  destruct Hclean as (Hcomp & Hconf & _).
  unfold async_process_component_config.
  destruct (get_component integration_) as [component|exc].
  - destruct (get_platform integration_ "config") as [config_validator|e].
    + apply Hprobe.
    + destruct (Hconf e eq_refl) as (name & msg & ->).
      destruct (negb (String.eqb name (pkg_path integration_ ++ ".config")));
        [eexists; reflexivity|apply Hprobe].
  - rewrite (Hcomp exc eq_refl). eexists. reflexivity.
Qed.

Lemma validation_errors_never_escape_witness :
  exists info,
    async_process_component_config example_platform_loader example_config_per_platform
      example_extract_domain_configs three_entries_document
      failing_validator_integration = Ok info.
Proof.
  apply (validation_errors_never_escape example_platform_loader
           example_config_per_platform example_extract_domain_configs
           three_entries_document failing_validator_integration).
  split; [|split; [|split]].
  - intros e H. discriminate H.
  - intros e H. discriminate H.
  - intros name e H. discriminate H.
  - intros name p_integration e Hload Hplat.
    unfold example_platform_loader in Hload.
    assert (E : get_platform p_integration (domain failing_validator_integration)
                = Ok (bare_module name))
      by (injection Hload as <-; reflexivity).
    rewrite E in Hplat. discriminate Hplat.
Defined.

(** ** Duplicate auth providers and MFA modules *)

Lemma hashable_eqb_spec (a b : hashable) : hashable_eqb a b = true <-> a = b.
Proof.
  destruct a as [|x|x], b as [|y|y]; cbn; split; intros H;
    try discriminate; try reflexivity.
  - apply Z.eqb_eq in H. now subst.
  - assert (E : x = y) by congruence. subst. apply Z.eqb_refl.
  - apply String.eqb_eq in H. now subst.
  - assert (E : x = y) by congruence. subst. apply String.eqb_refl.
Qed.

Lemma hashable_pair_eqb_spec (a b : hashable * hashable) :
  hashable_pair_eqb a b = true <-> a = b.
Proof.
  destruct a as [a1 a2], b as [b1 b2]. unfold hashable_pair_eqb. cbn [fst snd].
  rewrite andb_true_iff, !hashable_eqb_spec. split.
  - intros [-> ->]. reflexivity.
  - intros H. split; congruence.
Qed.

Section DuplicateScanFacts.
Variable K : Type.
Variable key_eqb : K -> K -> bool.
Hypothesis key_eqb_spec : forall a b, key_eqb a b = true <-> a = b.
Variable key_of : value -> result K.
Variable duplicate : value -> result exn.

Lemma existsb_key (k : K) (seen : list K) :
  existsb (key_eqb k) seen = true <-> In k seen.
Proof.
  rewrite existsb_exists. split.
  - intros (x & Hin & Heq). apply key_eqb_spec in Heq. now subst.
  - intros Hin. exists k. split; [exact Hin|]. now apply key_eqb_spec.
Qed.

(** The scan succeeds exactly when every key can be computed and no key
    repeats an earlier one or one seen before. *)
Lemma scan_duplicates_ok (configs : list value) :
  forall seen,
    scan_duplicates key_eqb key_of duplicate configs seen = Ok tt
    <-> exists keys_,
          map_result key_of configs = Ok keys_
          /\ NoDup keys_
          /\ (forall k, In k keys_ -> ~ In k seen).
Proof.
  induction configs as [|c rest IH]; intros seen; cbn [scan_duplicates map_result].
  - split; [|reflexivity]. intros _. exists []. split; [reflexivity|].
    split; [constructor|]. intros k [].
  - destruct (key_of c) as [k|e]; cbn [bind].
    2: { split; [discriminate|]. intros (ks & H & _). discriminate. }
    destruct (existsb (key_eqb k) seen) eqn:E.
    + split.
      * destruct (duplicate c); discriminate.
      * intros (ks & Hks & _ & Hfresh). exfalso.
        destruct (map_result key_of rest) as [ks'|e]; cbn [bind] in Hks; [|discriminate].
        assert (Eks : ks = k :: ks') by congruence. subst ks.
        apply (Hfresh k); [now left|]. now apply existsb_key.
    + assert (Hk : ~ In k seen).
      { intros Hin. apply existsb_key in Hin. congruence. }
      rewrite IH. split.
      * intros (ks' & Hks & Hnd & Hfresh). exists (k :: ks'). rewrite Hks. cbn [bind].
        split; [reflexivity|]. split.
        -- constructor; [|exact Hnd]. intros Hin. apply (Hfresh k Hin). now left.
        -- intros k' [<-|Hin]; [exact Hk|].
           intros Hs. apply (Hfresh k' Hin). now right.
      * intros (ks & Hks & Hnd & Hfresh).
        destruct (map_result key_of rest) as [ks'|e]; cbn [bind] in Hks; [|discriminate].
        assert (Eks : ks = k :: ks') by congruence. subst ks.
        apply NoDup_cons_iff in Hnd. destruct Hnd as [Hnotin Hnd].
        exists ks'. split; [reflexivity|]. split; [exact Hnd|].
        intros k' Hin [<-|Hs]; [contradiction|].
        apply (Hfresh k'); [now right|exact Hs].
Qed.

(** The scan stops at the first configuration whose key was seen. *)
Lemma scan_duplicates_first (pre : list value) :
  forall (seen : list K) (c : value) (post : list value) (keys_ : list K) (k : K),
    map_result key_of pre = Ok keys_ ->
    NoDup keys_ ->
    (forall k', In k' keys_ -> ~ In k' seen) ->
    key_of c = Ok k ->
    In k (keys_ ++ seen) ->
    scan_duplicates key_eqb key_of duplicate (pre ++ c :: post) seen
    = do error <- duplicate c; Raise error.
Proof.
  induction pre as [|p pre IH]; intros seen c post ks k Hks Hnd Hfresh Hc Hin;
    cbn [app scan_duplicates map_result] in *.
  - assert (E : ks = []) by congruence. subst ks. cbn [app] in Hin.
    rewrite Hc. cbn [bind]. apply existsb_key in Hin. now rewrite Hin.
  - destruct (key_of p) as [kp|e]; cbn [bind] in Hks |- *; [|discriminate].
    destruct (map_result key_of pre) as [ks'|e] eqn:Epre; cbn [bind] in Hks;
      [|discriminate].
    assert (E : ks = kp :: ks') by congruence. subst ks.
    apply NoDup_cons_iff in Hnd. destruct Hnd as [Hnotin Hnd].
    destruct (existsb (key_eqb kp) seen) eqn:Ex.
    + exfalso. apply existsb_key in Ex. apply (Hfresh kp); [now left|exact Ex].
    + apply (IH (kp :: seen) c post ks' k eq_refl Hnd); [|exact Hc|].
      * intros k' Hin' [<-|Hs]; [contradiction|].
        apply (Hfresh k'); [now right|exact Hs].
      * cbn [app] in Hin. destruct Hin as [<-|Hin].
        -- apply in_or_app. right. now left.
        -- apply in_app_or in Hin. apply in_or_app.
           destruct Hin; [now left|right; now right].
Qed.
End DuplicateScanFacts.

(** X18. [_no_duplicate_auth_provider] returns the list it was given, and
    does so exactly when the pair of type and id can be computed for every
    configuration and no two configurations have the same pair (a missing
    id counting as null).  Otherwise, at the first configuration whose pair
    repeats an earlier one, it raises a validation error that names the
    type of that configuration. *)
Theorem auth_providers_are_unique_by_type_and_id (CONF_TYPE CONF_ID : string)
  (str_value : value -> string) (configs : list value) :
  (_no_duplicate_auth_provider CONF_TYPE CONF_ID str_value configs = Ok configs
   <-> exists keys_,
         map_result (provider_key CONF_TYPE CONF_ID) configs = Ok keys_ /\ NoDup keys_)
  /\ (forall returned,
        _no_duplicate_auth_provider CONF_TYPE CONF_ID str_value configs = Ok returned ->
        returned = configs)
  /\ (forall pre c post keys_ k type_,
        configs = pre ++ c :: post ->
        map_result (provider_key CONF_TYPE CONF_ID) pre = Ok keys_ ->
        NoDup keys_ ->
        provider_key CONF_TYPE CONF_ID c = Ok k ->
        In k keys_ ->
        getitem c (SKey CONF_TYPE) = Ok type_ ->
        _no_duplicate_auth_provider CONF_TYPE CONF_ID str_value configs
        = Raise (VolInvalid (duplicate_invalid "auth provider" (str_value type_)))).
Proof.
  unfold _no_duplicate_auth_provider. split; [|split].
  - pose proof (scan_duplicates_ok _ hashable_pair_eqb hashable_pair_eqb_spec
                  (provider_key CONF_TYPE CONF_ID)
                  (duplicate_error CONF_TYPE str_value "auth provider")
                  configs []) as Hscan.
    destruct (scan_duplicates _ _ _ configs []) as [[]|e]; cbn [bind].
    + split; [intros _|reflexivity].
      destruct (proj1 Hscan eq_refl) as (ks & H1 & H2 & _). eauto.
    + split; [discriminate|].
      intros (ks & H1 & H2). exfalso.
      assert (Habs : @Raise unit e = Ok tt); [|discriminate Habs].
      apply Hscan. exists ks. split; [exact H1|]. split; [exact H2|].
      intros k _ [].
  - destruct (scan_duplicates _ _ _ configs []) as [[]|e]; cbn [bind]; congruence.
  - intros pre c post ks k type_ -> Hks Hnd Hc Hin Htype.
    rewrite (scan_duplicates_first _ hashable_pair_eqb hashable_pair_eqb_spec
               (provider_key CONF_TYPE CONF_ID)
               (duplicate_error CONF_TYPE str_value "auth provider")
               pre [] c post ks k Hks Hnd (fun _ _ H => H) Hc)
      by (rewrite app_nil_r; exact Hin).
    unfold duplicate_error. rewrite Htype. reflexivity.
Qed.

Lemma auth_providers_witness :
  _no_duplicate_auth_provider "type" "id" (fun v => match v with VStr _ t => t | _ => "" end)
    [auth_config "homeassistant" None; auth_config "homeassistant" (Some "second")]
  = Ok [auth_config "homeassistant" None; auth_config "homeassistant" (Some "second")].
Proof.
  apply (proj1 (auth_providers_are_unique_by_type_and_id "type" "id"
                  (fun v => match v with VStr _ t => t | _ => ""%string end)
                  [auth_config "homeassistant" None;
                   auth_config "homeassistant" (Some "second"%string)])).
  exists [(HStr "homeassistant", HNone); (HStr "homeassistant", HStr "second")].
  split; [reflexivity|].
  repeat constructor; simpl; intuition discriminate.
Defined.

(** X19. [_no_duplicate_auth_mfa_module] returns the list it was given
    exactly when the key of every module can be computed and no two modules
    have the same key, the key being the id when the module has one and the
    type otherwise; at the first module whose key repeats an earlier one it
    raises a validation error naming that module's type.  The ids are
    global: a module whose id is the type of a module without id is a
    duplicate, although the same two configurations pass as auth
    providers. *)
Theorem mfa_modules_are_unique_by_id_or_type (CONF_TYPE CONF_ID : string)
  (str_value : value -> string) (configs : list value) :
  (_no_duplicate_auth_mfa_module CONF_TYPE CONF_ID str_value configs = Ok configs
   <-> exists keys_,
         map_result (mfa_key CONF_TYPE CONF_ID) configs = Ok keys_ /\ NoDup keys_)
  /\ (forall pre c post keys_ k type_,
        configs = pre ++ c :: post ->
        map_result (mfa_key CONF_TYPE CONF_ID) pre = Ok keys_ ->
        NoDup keys_ ->
        mfa_key CONF_TYPE CONF_ID c = Ok k ->
        In k keys_ ->
        getitem c (SKey CONF_TYPE) = Ok type_ ->
        _no_duplicate_auth_mfa_module CONF_TYPE CONF_ID str_value configs
        = Raise (VolInvalid (duplicate_invalid "mfa module" (str_value type_))))
  /\ (forall (name other : string) (t1 t2 t3 : option tag),
        CONF_TYPE <> CONF_ID ->
        name <> other ->
        configs = [VDict None [(plain CONF_TYPE, VStr t1 name)];
                   VDict None [(plain CONF_TYPE, VStr t2 other);
                               (plain CONF_ID, VStr t3 name)]] ->
        _no_duplicate_auth_mfa_module CONF_TYPE CONF_ID str_value configs
        = Raise (VolInvalid (duplicate_invalid "mfa module" (str_value (VStr t2 other))))
        /\ _no_duplicate_auth_provider CONF_TYPE CONF_ID str_value configs = Ok configs).
Proof.
  unfold _no_duplicate_auth_mfa_module. split; [|split].
  - pose proof (scan_duplicates_ok _ hashable_eqb hashable_eqb_spec
                  (mfa_key CONF_TYPE CONF_ID)
                  (duplicate_error CONF_TYPE str_value "mfa module")
                  configs []) as Hscan.
    destruct (scan_duplicates _ _ _ configs []) as [[]|e]; cbn [bind].
    + split; [intros _|reflexivity].
      destruct (proj1 Hscan eq_refl) as (ks & H1 & H2 & _). eauto.
    + split; [discriminate|].
      intros (ks & H1 & H2). exfalso.
      assert (Habs : @Raise unit e = Ok tt); [|discriminate Habs].
      apply Hscan. exists ks. split; [exact H1|]. split; [exact H2|].
      intros k _ [].
  - intros pre c post ks k type_ -> Hks Hnd Hc Hin Htype.
    rewrite (scan_duplicates_first _ hashable_eqb hashable_eqb_spec
               (mfa_key CONF_TYPE CONF_ID)
               (duplicate_error CONF_TYPE str_value "mfa module")
               pre [] c post ks k Hks Hnd (fun _ _ H => H) Hc)
      by (rewrite app_nil_r; exact Hin).
    unfold duplicate_error. rewrite Htype. reflexivity.
  - intros name other t1 t2 t3 Hkeys Hnames ->.
    assert (Hti : String.eqb CONF_TYPE CONF_ID = false) by now apply String.eqb_neq.
    assert (Hno : String.eqb name other = false) by now apply String.eqb_neq.
    unfold _no_duplicate_auth_provider.
    cbn [scan_duplicates mfa_key provider_key duplicate_error getitem dict_find dict_get
         plain key_str bind hash_value existsb].
    rewrite !String.eqb_refl, Hti. cbn [bind hash_value existsb dict_find key_str].
    split.
    + cbn [hashable_eqb]. rewrite String.eqb_refl. cbn [orb].
      unfold duplicate_error. cbn [getitem dict_find plain key_str].
      rewrite String.eqb_refl. reflexivity.
    + unfold provider_key, dict_get. cbn [getitem dict_find plain key_str].
      rewrite !String.eqb_refl, Hti. cbn [bind hash_value].
      unfold hashable_pair_eqb. cbn [fst snd hashable_eqb].
      rewrite String.eqb_sym, Hno. reflexivity.
Qed.

Lemma mfa_modules_witness :
  _no_duplicate_auth_mfa_module "type" "id"
    (fun v => match v with VStr _ t => t | _ => "" end)
    [VDict None [(plain "type", VStr None "totp")];
     VDict None [(plain "type", VStr None "notify"); (plain "id", VStr None "totp")]]
  = Raise (VolInvalid (duplicate_invalid "mfa module" "notify"))
  /\ _no_duplicate_auth_provider "type" "id"
       (fun v => match v with VStr _ t => t | _ => "" end)
       [VDict None [(plain "type", VStr None "totp")];
        VDict None [(plain "type", VStr None "notify"); (plain "id", VStr None "totp")]]
     = Ok [VDict None [(plain "type", VStr None "totp")];
           VDict None [(plain "type", VStr None "notify");
                       (plain "id", VStr None "totp")]].
Proof.
  apply (proj2 (proj2 (mfa_modules_are_unique_by_id_or_type "type" "id"
                         (fun v => match v with VStr _ t => t | _ => ""%string end)
                         [VDict None [(plain "type", VStr None "totp")];
                          VDict None [(plain "type", VStr None "notify");
                                      (plain "id", VStr None "totp")]]))
           "totp"%string "notify"%string None None None);
    [discriminate|discriminate|reflexivity].
Defined.

(** ** Loading the configuration file *)

Lemma dict_set_middle (a b : dict) (k k' : dkey) (v v' : value) :
  key_str k' = key_str k ->
  ~ In (key_str k) (keys a) ->
  dict_set (a ++ (k, v) :: b) k' v' = a ++ (k, v') :: b.
Proof.
  intros Hk. induction a as [|[ka va] a IH]; cbn [app dict_set keys map fst]; intros Hnot.
  - rewrite Hk, String.eqb_refl. reflexivity.
  - rewrite Hk. destruct (String.eqb_spec (key_str ka) (key_str k)) as [E|E].
    + exfalso. apply Hnot. now left.
    + rewrite IH; [reflexivity|]. intros Hin. apply Hnot. now right.
Qed.

Lemma keys_normalised (items : dict) : keys (normalised items) = keys items.
Proof.
  unfold keys, normalised. rewrite map_map. reflexivity.
Qed.

(** The loop of [load_yaml_config_file], after the entries [done]. *)
Lemma normalise_loop (items : dict) :
  forall done : dict,
    NoDup (keys (done ++ items)) ->
    fold_left (fun conf kv => dict_set conf (fst kv) (or_empty (snd kv))) items
      (normalised done ++ items)
    = normalised (done ++ items).
Proof.
  induction items as [|[k v] rest IH]; intros done Hnd; cbn [fold_left fst snd].
  - now rewrite !app_nil_r.
  - rewrite dict_set_middle.
    + change (normalised done ++ (k, or_empty v) :: rest)
        with (normalised done ++ [ (k, or_empty v) ] ++ rest).
      rewrite app_assoc.
      change (normalised done ++ [(k, or_empty v)])
        with (normalised done ++ normalised [(k, v)]).
      unfold normalised at 1 2. rewrite <- map_app. fold (normalised (done ++ [(k, v)])).
      rewrite IH.
      * now rewrite <- app_assoc.
      * now rewrite <- app_assoc.
    + reflexivity.
    + rewrite keys_normalised. rewrite keys_app in Hnd.
      apply NoDup_remove_2 in Hnd. intros Hin. apply Hnd.
      apply in_or_app. now left.
Qed.

Lemma dict_find_normalised (items : dict) (k : string) :
  dict_find (normalised items) k = option_map or_empty (dict_find items k).
Proof.
  induction items as [|[k' v] rest IH]; cbn [normalised map dict_find fst snd];
    [reflexivity|].
  destruct (String.eqb (key_str k') k); [reflexivity|exact IH].
Qed.

(** X20. [load_yaml_config_file] lets an exception of the YAML loader
    through, raises [HomeAssistantError] naming the file when the document
    is not a mapping, and for a mapping returns the same keys in the same
    order, each with its value when that is truthy and with an empty mapping
    otherwise: no key of the result is bound to null. *)
Theorem load_yaml_config_file_normalises (load_yaml : string -> result value)
  (basename : string -> string) (config_path : string) :
  (forall e, load_yaml config_path = Raise e ->
             load_yaml_config_file load_yaml basename config_path = Raise e)
  /\ (forall document,
        load_yaml config_path = Ok document ->
        isinstance_dict document = false ->
        load_yaml_config_file load_yaml basename config_path
        = Raise (HomeAssistantError
                   ("The configuration file " ++ basename config_path
                    ++ " does not contain a dictionary")))
  /\ (forall t items,
        load_yaml config_path = Ok (VDict t items) ->
        NoDup (keys items) ->
        exists loaded,
          load_yaml_config_file load_yaml basename config_path = Ok loaded
          /\ keys loaded = keys items
          /\ (forall k, dict_find loaded k = option_map or_empty (dict_find items k))
          /\ (forall k v, dict_find loaded k = Some v ->
                          truthy v = true \/ v = VDict None [])).
Proof.
  unfold load_yaml_config_file. split; [|split].
  - intros e ->. reflexivity.
  - intros document -> Hnot. cbn [bind].
    destruct document; try reflexivity; discriminate.
  - intros t items -> Hnd. cbn [bind]. exists (normalised items).
    split; [|split; [|split]].
    + f_equal. apply (normalise_loop items []). exact Hnd.
    + apply keys_normalised.
    + apply dict_find_normalised.
    + intros k v. rewrite dict_find_normalised.
      destruct (dict_find items k) as [x|]; cbn [option_map]; [|discriminate].
      intros H. assert (E : v = or_empty x) by congruence. subst v.
      unfold or_empty. destruct (truthy x) eqn:Ex; [now left|now right].
Qed.

Lemma load_yaml_config_file_witness :
  exists loaded,
    load_yaml_config_file example_load_yaml (fun p => p) "configuration.yaml" = Ok loaded
    /\ keys loaded = keys [(plain "homeassistant", VNone);
                           (plain "light", VList None [hue_entry])]
    /\ (forall k,
          dict_find loaded k
          = option_map or_empty
              (dict_find [(plain "homeassistant", VNone);
                          (plain "light", VList None [hue_entry])] k))
    /\ (forall k v, dict_find loaded k = Some v -> truthy v = true \/ v = VDict None []).
Proof.
  apply (proj2 (proj2 (load_yaml_config_file_normalises example_load_yaml (fun p => p)
                         "configuration.yaml")) None).
  - reflexivity.
  - repeat constructor; simpl; intuition discriminate.
Defined.

(** The core section survives the merge. *)
Lemma merge_packages_config_core (CONF_CORE : string) (is_slug : string -> bool)
  (loader : string -> result integration) (config_ : dict) (packages : value) :
  dict_find
    (config_of (fst (merge_packages_config CONF_CORE is_slug loader config_ packages)))
    CONF_CORE
  = dict_find config_ CONF_CORE.
Proof.
  unfold merge_packages_config.
  destruct (PACKAGES_CONFIG_SCHEMA is_slug packages) as [ok|e]; [|reflexivity].
  destruct packages as [| | | | |t packs]; try reflexivity.
  pose proof (merge_packages_frame CONF_CORE loader packs (MergeState config_ [])
                CONF_CORE (or_introl eq_refl)) as Hf.
  destruct (merge_packages CONF_CORE loader (MergeState config_ []) packs)
    as [st' [u|e]]; exact Hf.
Qed.

Lemma merge_no_packages (CONF_CORE : string) (is_slug : string -> bool)
  (loader : string -> result integration) (config_ : dict) (t : option tag) :
  merge_packages_config CONF_CORE is_slug loader config_ (VDict t [])
  = (MergeState config_ [], Ok config_).
Proof. reflexivity. Qed.

(** X21. [async_hass_config_yaml] raises what loading the file raises.  A
    document that asks for no package merge (no core section, an empty one,
    or one with no or an empty packages block) is returned as loaded, with
    nothing logged; in particular a core section left empty in the file is
    not an error.  A core section that is neither empty nor a mapping makes
    the call raise [AttributeError].  And whatever the packages do, the core
    section of the document is the loaded one. *)
Theorem hass_config_yaml_without_packages (load_yaml : string -> result value)
  (basename : string -> string) (CONF_CORE CONF_PACKAGES : string)
  (is_slug : string -> bool) (loader : string -> result integration)
  (config_path : string) :
  (forall e,
      load_yaml_config_file load_yaml basename config_path = Raise e ->
      async_hass_config_yaml load_yaml basename CONF_CORE CONF_PACKAGES is_slug loader
        config_path
      = (MergeState [] [], Raise e))
  /\ (forall t items,
        load_yaml config_path = Ok (VDict t items) ->
        NoDup (keys items) ->
        packages_free CONF_CORE CONF_PACKAGES items ->
        async_hass_config_yaml load_yaml basename CONF_CORE CONF_PACKAGES is_slug loader
          config_path
        = (MergeState (normalised items) [], Ok (normalised items)))
  /\ (forall t items core,
        load_yaml config_path = Ok (VDict t items) ->
        NoDup (keys items) ->
        dict_find items CONF_CORE = Some core ->
        truthy core = true ->
        isinstance_dict core = false ->
        async_hass_config_yaml load_yaml basename CONF_CORE CONF_PACKAGES is_slug loader
          config_path
        = (MergeState (normalised items) [], Raise AttributeError))
  /\ (forall t items,
        load_yaml config_path = Ok (VDict t items) ->
        NoDup (keys items) ->
        dict_find
          (config_of
             (fst (async_hass_config_yaml load_yaml basename CONF_CORE CONF_PACKAGES
                     is_slug loader config_path)))
          CONF_CORE
        = option_map or_empty (dict_find items CONF_CORE)).
Proof.
  assert (Hload : forall t items,
             load_yaml config_path = Ok (VDict t items) ->
             NoDup (keys items) ->
             load_yaml_config_file load_yaml basename config_path
             = Ok (normalised items)).
  { intros t items Hl Hnd. unfold load_yaml_config_file. rewrite Hl. cbn [bind].
    f_equal. apply (normalise_loop items []). exact Hnd. }
  split; [|split; [|split]].
  - intros e He. unfold async_hass_config_yaml. now rewrite He.
  - intros t items Hl Hnd Hfree. unfold async_hass_config_yaml.
    rewrite (Hload t items Hl Hnd), dict_find_normalised.
    unfold packages_free in Hfree.
    destruct (dict_find items CONF_CORE) as [core|]; cbn [option_map].
    + destruct Hfree as [Hfalsy|(tc & d & -> & Hpack)].
      * unfold or_empty. rewrite Hfalsy. reflexivity.
      * unfold or_empty. destruct d as [|e d']; [reflexivity|].
        cbn [truthy value_get].
        destruct Hpack as [->|(t' & ->)]; reflexivity.
    + reflexivity.
  - intros t items core Hl Hnd Hcore Htruthy Hnot. unfold async_hass_config_yaml.
    rewrite (Hload t items Hl Hnd), dict_find_normalised, Hcore. cbn [option_map].
    unfold or_empty. rewrite Htruthy.
    destruct core; try reflexivity; discriminate.
  - intros t items Hl Hnd. unfold async_hass_config_yaml.
    rewrite (Hload t items Hl Hnd).
    destruct (value_get _ CONF_PACKAGES (VDict None [])) as [packages|e];
      [|apply dict_find_normalised].
    pose proof (merge_packages_config_core CONF_CORE is_slug loader (normalised items)
                  packages) as Hcore.
    destruct (merge_packages_config CONF_CORE is_slug loader (normalised items) packages)
      as [st [c|e]]; cbn [fst] in Hcore |- *; rewrite Hcore; apply dict_find_normalised.
Qed.

Lemma hass_config_yaml_witness :
  async_hass_config_yaml example_load_yaml (fun p => p) "homeassistant" "packages"
    example_is_slug bare_loader "configuration.yaml"
  = (MergeState
       (normalised [(plain "homeassistant", VNone);
                    (plain "light", VList None [hue_entry])]) [],
     Ok (normalised [(plain "homeassistant", VNone);
                     (plain "light", VList None [hue_entry])])).
Proof.
  apply (proj1 (proj2 (hass_config_yaml_without_packages example_load_yaml (fun p => p)
                         "homeassistant" "packages" example_is_slug bare_loader
                         "configuration.yaml")) None).
  - reflexivity.
  - repeat constructor; simpl; intuition discriminate.
  - left. reflexivity.
Defined.

(** ** Processing a domain and handling its failures *)

(** An outcome without failures has a validated document. *)
Lemma no_failure_means_config (loader : string -> result integration)
  (config_per_platform : dict -> string -> list (option string * value))
  (extract_domain_configs : dict -> string -> list string)
  (config_ : dict) (integration_ : integration) (info : IntegrationConfigInfo) :
  async_process_component_config loader config_per_platform extract_domain_configs
    config_ integration_ = Ok info ->
  exception_info_list info = [] ->
  exists validated, info = MkConfigInfo (Some validated) [].
Proof.
  intros Hrun Hnil. destruct info as [c l]. cbn [exception_info_list] in Hnil. subst l.
  destruct c as [validated|]; [eauto|].
  exfalso. revert Hrun.
  unfold async_process_component_config, process_after_probe, domain_failure, bind.
  cbv beta.
  repeat match goal with
         | |- context [match ?x with _ => _ end] => destruct x
         end;
    intros H; congruence.
Qed.

Section HandleFacts.
Variable CONF_CORE : string.
Variable _relpath : string -> string.
Variable repr : value -> string.
Variable MAX_VALIDATION_ERROR_ITEM_LENGTH : Z.
Variable str_exception : exn -> string.
Variable repr_exception : exn -> string.

(** After a turn of the loop the last message is set. *)
Lemma log_failures_last (domain_ : string) (failures : list ConfigExceptionInfo) :
  forall logged last logged' last',
    log_failures CONF_CORE _relpath repr MAX_VALIDATION_ERROR_ITEM_LENGTH str_exception
      repr_exception domain_ failures logged last = (logged', Ok last') ->
    (failures = [] /\ last' = last /\ logged' = logged)
    \/ (failures <> [] /\ exists m, last' = Some m).
Proof.
  induction failures as [|f rest IH]; intros logged last logged' last';
    cbn [log_failures].
  - intros H. left. repeat split; congruence.
  - destruct (_get_log_message_and_stack_print_pref _ _ _ _ _ _ domain_ f)
      as [[[m t] ph]|e]; [|discriminate].
    intros H. right. split; [discriminate|].
    apply IH in H. destruct H as [(_ & -> & _)|(_ & Hm)]; eauto.
Qed.
End HandleFacts.

(** X22. With [raise_on_failure] set,
    [async_process_component_and_handle_errors] returns only fully valid
    configurations: it returns exactly when the validation produced a
    document and no failure at all, then without logging anything.  With
    [raise_on_failure] off it never raises the validation error. *)
Theorem raise_on_failure_returns_only_valid_configs
  (CONF_CORE : string) (_relpath : string -> string) (repr : value -> string)
  (MAX_VALIDATION_ERROR_ITEM_LENGTH : Z) (str_exception repr_exception : exn -> string)
  (loader : string -> result integration)
  (config_per_platform : dict -> string -> list (option string * value))
  (extract_domain_configs : dict -> string -> list string)
  (config_ : dict) (integration_ : integration) :
  (forall logged returned,
      async_process_component_and_handle_errors CONF_CORE _relpath repr
        MAX_VALIDATION_ERROR_ITEM_LENGTH str_exception repr_exception loader
        config_per_platform extract_domain_configs config_ integration_ true
      = Ok (logged, HandledReturn returned)
      <-> logged = []
          /\ exists validated,
               returned = Some validated
               /\ async_process_component_config loader config_per_platform
                    extract_domain_configs config_ integration_
                  = Ok (MkConfigInfo (Some validated) []))
  /\ (forall logged error,
        async_process_component_and_handle_errors CONF_CORE _relpath repr
          MAX_VALIDATION_ERROR_ITEM_LENGTH str_exception repr_exception loader
          config_per_platform extract_domain_configs config_ integration_ false
        <> Ok (logged, HandledRaise error)).
Proof.
  unfold async_process_component_and_handle_errors. split.
  - intros logged returned. split.
    + destruct (async_process_component_config loader config_per_platform
                  extract_domain_configs config_ integration_) as [info|e] eqn:Erun;
        cbn [bind]; [|discriminate].
      unfold async_handle_component_errors.
      destruct (exception_info_list info) as [|f rest] eqn:El.
      * intros H.
        destruct (no_failure_means_config _ _ _ _ _ _ Erun El) as (validated & ->).
        cbn [info_config] in H.
        split; [congruence|]. exists validated. split; [congruence|reflexivity].
      * destruct (log_failures _ _ _ _ _ _ (domain integration_) (f :: rest) [] None)
          as [logged' [last'|e]] eqn:Elog; [|discriminate].
        apply log_failures_last in Elog.
        destruct Elog as [(Habs & _)|(_ & [[m ph] f'] & ->)]; [discriminate|].
        cbn [negb]. destruct (Nat.eqb _ 1); discriminate.
    + intros (-> & validated & -> & ->). reflexivity.
  - intros logged error.
    destruct (async_process_component_config loader config_per_platform
                extract_domain_configs config_ integration_) as [info|e];
      cbn [bind]; [|discriminate].
    unfold async_handle_component_errors.
    destruct (exception_info_list info) as [|f rest]; [discriminate|].
    destruct (log_failures _ _ _ _ _ _ (domain integration_) (f :: rest) [] None)
      as [logged' [[[[m ph] f']|]|e]]; discriminate.
Qed.

Lemma raise_on_failure_witness :
  async_process_component_and_handle_errors "homeassistant" (fun p => p)
    (fun _ => "{}"%string) 43 str_exn (fun _ => "Error()"%string) example_platform_loader
    example_config_per_platform example_extract_domain_configs
    [(plain "light", VList None [entry_a; entry_c])] light_integration true
  = Ok ([], HandledReturn
              (Some (VDict None [(plain "light", VList None [entry_a; entry_c])]))).
Proof.
  apply (proj1 (raise_on_failure_returns_only_valid_configs "homeassistant" (fun p => p)
                  (fun _ => "{}"%string) 43 str_exn (fun _ => "Error()"%string)
                  example_platform_loader example_config_per_platform
                  example_extract_domain_configs
                  [(plain "light", VList None [entry_a; entry_c])] light_integration)).
  split; [reflexivity|].
  exists (VDict None [(plain "light", VList None [entry_a; entry_c])]).
  split; reflexivity.
Defined.

(** ** Sequences in a fragment *)

Section ListFragmentFacts.
Variable nested : value -> dict -> dict * result (option dkey).

Lemma merge_loop_lists (fragment : dict) :
  forall (dup : option dkey) (conf : dict),
    flat_lists fragment ->
    snd (merge_loop nested dup conf fragment) = Finished dup
    /\ (NoDup (keys fragment) ->
        forall k,
          dict_find (fst (merge_loop nested dup conf fragment)) k
          = match dict_find fragment k with
            | Some v =>
                Some (VList None
                        (remove_falsy (ensure_list (dict_get conf k) ++ ensure_list v)))
            | None => dict_find conf k
            end).
Proof.
  induction fragment as [|[key v] rest IH]; intros dup conf Hflat.
  - cbn [merge_loop fst snd dict_find]. split; [reflexivity|]. intros _ k. reflexivity.
  - assert (Hv : isinstance_list v = true) by (apply (Hflat (key, v)); now left).
    assert (Hrest : flat_lists rest) by (intros kv Hin; apply Hflat; now right).
    destruct v as [| b | z | t str | t l | t d]; try discriminate.
    cbn [merge_loop].
    destruct (IH dup (dict_set conf key
                        (VList None
                           (remove_falsy
                              (ensure_list (dict_get conf (key_str key))
                               ++ ensure_list (VList t l))))) Hrest) as [IHs IHf].
    split; [exact IHs|].
    intros Hnd k. cbn [keys map fst] in Hnd. apply NoDup_cons_iff in Hnd.
    destruct Hnd as [Hnotin Hnd]. rewrite (IHf Hnd k). cbn [dict_find].
    destruct (String.eqb_spec (key_str key) k) as [E|E].
    + subst k. rewrite (dict_find_not_in rest _ Hnotin). apply dict_find_set_same.
    + destruct (dict_find rest k).
      * now rewrite dict_get_set_other.
      * now apply dict_find_set_other.
Qed.
End ListFragmentFacts.

(** X23. Sequences never conflict: merging a fragment whose values are all
    sequences reports no duplicate and raises nothing, whatever the target
    holds.  With distinct keys, each key of the fragment ends bound to the
    truthy elements of what the target had there (nothing for an absent key
    or null, a scalar or a mapping as one element, a sequence as its
    elements) followed by those of the fragment's sequence, and every other
    key keeps its value. *)
Theorem list_fragments_never_conflict (conf fragment : dict) :
  flat_lists fragment ->
  snd (_recursive_merge conf fragment) = Ok None
  /\ (NoDup (keys fragment) ->
      forall k,
        dict_find (fst (_recursive_merge conf fragment)) k
        = match dict_find fragment k with
          | Some v =>
              Some (VList None
                      (remove_falsy (ensure_list (dict_get conf k) ++ ensure_list v)))
          | None => dict_find conf k
          end).
Proof.
  intros Hflat.
  destruct (merge_loop_lists merge_node fragment None conf Hflat) as [Hs Hf].
  unfold _recursive_merge.
  destruct (merge_loop merge_node None conf fragment) as [conf' x].
  cbn [fst snd] in *. subst x. split; [reflexivity|exact Hf].
Qed.

Lemma list_fragments_witness :
  snd (_recursive_merge [(plain "platforms", VStr None "hue")]
         [(plain "platforms", VList None [VStr None "zwave"; VNone])])
  = Ok None.
Proof.
  apply (list_fragments_never_conflict [(plain "platforms", VStr None "hue")]
           [(plain "platforms", VList None [VStr None "zwave"; VNone])]).
  intros kv [<-|[]]. reflexivity.
Defined.

(** ** The configuration directory *)

Lemma fs_find_set_same (fs : filesystem) (p : string) (node : fs_node) :
  fs_find (fs_set fs p node) p = Some node.
Proof.
  induction fs as [|[q old] fs IH]; cbn [fs_set fs_find].
  - now rewrite String.eqb_refl.
  - destruct (String.eqb q p) eqn:E; cbn [fs_find]; rewrite E; auto.
Qed.

Lemma fs_find_set_other (fs : filesystem) (p q : string) (node : fs_node) :
  q <> p -> fs_find (fs_set fs p node) q = fs_find fs q.
Proof.
  intros Hne. induction fs as [|[r old] fs IH]; cbn [fs_set fs_find].
  - destruct (String.eqb_spec p q); congruence.
  - destruct (String.eqb_spec r p) as [E|E]; cbn [fs_find].
    + destruct (String.eqb_spec r q); congruence.
    + now rewrite IH.
Qed.

Lemma fs_find_remove_same (fs : filesystem) (p : string) :
  fs_find (fs_remove fs p) p = None.
Proof.
  unfold fs_remove. induction fs as [|[q node] fs IH]; cbn [filter fs_find fst]; auto.
  destruct (String.eqb q p) eqn:E; cbn [negb fs_find]; [exact IH|].
  now rewrite E.
Qed.

Lemma fs_find_remove_other (fs : filesystem) (p q : string) :
  q <> p -> fs_find (fs_remove fs p) q = fs_find fs q.
Proof.
  intros Hne. unfold fs_remove.
  induction fs as [|[r node] fs IH]; cbn [filter fs_find fst]; auto.
  destruct (String.eqb_spec r p) as [E|E]; cbn [negb fs_find].
  - destruct (String.eqb_spec r q); [congruence|exact IH].
  - now rewrite IH.
Qed.

Lemma write_file_find (writable : string -> bool) (fs fs' : filesystem) (p text : string) :
  write_file writable fs p text = Some fs' ->
  fs_find fs' p = Some (RegularFile text)
  /\ (forall q, q <> p -> fs_find fs' q = fs_find fs q).
Proof.
  unfold write_file. intros H.
  assert (E : fs' = fs_set fs p (RegularFile text)).
  { destruct (fs_find fs p) as [[t|]|]; try discriminate;
      destruct (writable p); congruence. }
  subst fs'. split; [apply fs_find_set_same|].
  intros q Hq. now apply fs_find_set_other.
Qed.

Lemma write_unless_file_find (writable : string -> bool) (fs fs' : filesystem)
  (p text : string) :
  write_unless_file writable fs p text = Some fs' ->
  fs_find fs' p
  = (if os_path_isfile fs p then fs_find fs p else Some (RegularFile text))
  /\ (forall q, q <> p -> fs_find fs' q = fs_find fs q).
Proof.
  unfold write_unless_file.
  destruct (os_path_isfile fs p); cbn [negb].
  - intros H. assert (E : fs' = fs) by congruence. subst fs'. auto.
  - apply write_file_find.
Qed.

(** X24. The safe-mode flag is consumed by reading it.  When
    [safe_mode_enabled] returns, it returns whether the flag existed, the
    flag no longer exists, every other path is as it was, and a second call
    returns [False] and changes nothing.  A flag that is a directory makes
    the call raise and stays in place. *)
Theorem safe_mode_is_consumed_once (os_path_join : string -> string -> string)
  (SAFE_MODE_FILENAME : string) (fs : filesystem) (config_dir : string) :
  (forall fs' safe_mode,
      safe_mode_enabled os_path_join SAFE_MODE_FILENAME fs config_dir = (fs', Ok safe_mode) ->
      safe_mode = os_path_exists fs (os_path_join config_dir SAFE_MODE_FILENAME)
      /\ os_path_exists fs' (os_path_join config_dir SAFE_MODE_FILENAME) = false
      /\ (forall q, q <> os_path_join config_dir SAFE_MODE_FILENAME ->
                    fs_find fs' q = fs_find fs q)
      /\ safe_mode_enabled os_path_join SAFE_MODE_FILENAME fs' config_dir
         = (fs', Ok false))
  /\ (fs_find fs (os_path_join config_dir SAFE_MODE_FILENAME) = Some Dir ->
      exists e,
        safe_mode_enabled os_path_join SAFE_MODE_FILENAME fs config_dir = (fs, Raise e)).
Proof.
  unfold safe_mode_enabled, os_remove, os_path_exists.
  set (safe_mode_path := os_path_join config_dir SAFE_MODE_FILENAME).
  split.
  - intros fs' safe_mode.
    destruct (fs_find fs safe_mode_path) as [[text|]|] eqn:E; intros H; try discriminate.
    + assert (E1 : fs' = fs_remove fs safe_mode_path) by congruence.
      assert (E2 : safe_mode = true) by congruence. subst fs' safe_mode.
      rewrite fs_find_remove_same. repeat split.
      intros q Hq. now apply fs_find_remove_other.
    + assert (E1 : fs' = fs) by congruence.
      assert (E2 : safe_mode = false) by congruence. subst fs' safe_mode.
      rewrite E. repeat split.
  - intros ->. eexists. reflexivity.
Qed.

Lemma safe_mode_witness :
  true = os_path_exists example_filesystem (example_join "/config" "safe-mode")
  /\ os_path_exists [("/config/secrets.yaml", RegularFile "some_password: welcome")]
       (example_join "/config" "safe-mode") = false
  /\ (forall q, q <> example_join "/config" "safe-mode" ->
                fs_find [("/config/secrets.yaml", RegularFile "some_password: welcome")] q
                = fs_find example_filesystem q)
  /\ safe_mode_enabled example_join "safe-mode"
       [("/config/secrets.yaml", RegularFile "some_password: welcome")] "/config"
     = ([("/config/secrets.yaml", RegularFile "some_password: welcome")], Ok false).
Proof.
  apply (proj1 (safe_mode_is_consumed_once example_join "safe-mode" example_filesystem
                  "/config")).
  reflexivity.
Defined.

(** X25. [_write_default_config] never overwrites an existing secrets,
    automations, scripts or scenes file and never touches a path other than
    its six, whether it succeeds or stops at a failing write.  When it
    returns [True], the configuration file holds the default configuration
    and the version file the current version, and each of the four other
    files is the one that existed or else the default one. *)
Theorem write_default_config_keeps_existing_files
  (os_path_join : string -> string -> string) (writable : string -> bool)
  (YAML_CONFIG_FILE SECRET_YAML VERSION_FILE AUTOMATION_CONFIG_PATH SCRIPT_CONFIG_PATH
     SCENE_CONFIG_PATH DEFAULT_CONFIG DEFAULT_SECRETS __version__ : string)
  (fs fs' : filesystem) (config_dir : string) (written : bool) :
  NoDup [os_path_join config_dir YAML_CONFIG_FILE;
         os_path_join config_dir SECRET_YAML;
         os_path_join config_dir VERSION_FILE;
         os_path_join config_dir AUTOMATION_CONFIG_PATH;
         os_path_join config_dir SCRIPT_CONFIG_PATH;
         os_path_join config_dir SCENE_CONFIG_PATH] ->
  _write_default_config os_path_join writable YAML_CONFIG_FILE SECRET_YAML VERSION_FILE
    AUTOMATION_CONFIG_PATH SCRIPT_CONFIG_PATH SCENE_CONFIG_PATH DEFAULT_CONFIG
    DEFAULT_SECRETS __version__ fs config_dir = (fs', written) ->
  (forall q,
      ~ In q [os_path_join config_dir YAML_CONFIG_FILE;
              os_path_join config_dir SECRET_YAML;
              os_path_join config_dir VERSION_FILE;
              os_path_join config_dir AUTOMATION_CONFIG_PATH;
              os_path_join config_dir SCRIPT_CONFIG_PATH;
              os_path_join config_dir SCENE_CONFIG_PATH] ->
      fs_find fs' q = fs_find fs q)
  /\ (forall name,
        In name [SECRET_YAML; AUTOMATION_CONFIG_PATH; SCRIPT_CONFIG_PATH;
                 SCENE_CONFIG_PATH] ->
        os_path_isfile fs (os_path_join config_dir name) = true ->
        fs_find fs' (os_path_join config_dir name)
        = fs_find fs (os_path_join config_dir name))
  /\ (written = true ->
      fs_find fs' (os_path_join config_dir YAML_CONFIG_FILE)
      = Some (RegularFile DEFAULT_CONFIG)
      /\ fs_find fs' (os_path_join config_dir VERSION_FILE)
         = Some (RegularFile __version__)
      /\ forall name text,
           In (name, text) [(SECRET_YAML, DEFAULT_SECRETS);
                            (AUTOMATION_CONFIG_PATH, "[]"%string);
                            (SCRIPT_CONFIG_PATH, ""%string);
                            (SCENE_CONFIG_PATH, ""%string)] ->
           os_path_isfile fs (os_path_join config_dir name) = false ->
           fs_find fs' (os_path_join config_dir name) = Some (RegularFile text)).
Proof.
  unfold _write_default_config.
  set (config_path := os_path_join config_dir YAML_CONFIG_FILE).
  set (secret_path := os_path_join config_dir SECRET_YAML).
  set (version_path := os_path_join config_dir VERSION_FILE).
  set (automation_yaml_path := os_path_join config_dir AUTOMATION_CONFIG_PATH).
  set (script_yaml_path := os_path_join config_dir SCRIPT_CONFIG_PATH).
  set (scene_yaml_path := os_path_join config_dir SCENE_CONFIG_PATH).
  intros Hnd.
  assert (Hdistinct :
            config_path <> secret_path /\ config_path <> version_path
            /\ config_path <> automation_yaml_path /\ config_path <> script_yaml_path
            /\ config_path <> scene_yaml_path /\ secret_path <> version_path
            /\ secret_path <> automation_yaml_path /\ secret_path <> script_yaml_path
            /\ secret_path <> scene_yaml_path /\ version_path <> automation_yaml_path
            /\ version_path <> script_yaml_path /\ version_path <> scene_yaml_path
            /\ automation_yaml_path <> script_yaml_path
            /\ automation_yaml_path <> scene_yaml_path
            /\ script_yaml_path <> scene_yaml_path).
  { repeat match goal with
           | H : NoDup (_ :: _) |- _ =>
               let N := fresh "N" in
               apply NoDup_cons_iff in H; destruct H as [N H]; cbn [In] in N
           end.
    clearbody config_path secret_path version_path automation_yaml_path
      script_yaml_path scene_yaml_path.
    repeat split; intros E; subst; tauto. }
  clear Hnd.
  destruct Hdistinct as (D12 & D13 & D14 & D15 & D16 & D23 & D24 & D25 & D26 & D34 & D35
                         & D36 & D45 & D46 & D56).
  assert (Hisfile : forall a b p, (forall q, q <> p -> fs_find a q = fs_find b q) ->
                                  forall q, q <> p -> os_path_isfile a q = os_path_isfile b q).
  { intros a b p0 H q Hq. unfold os_path_isfile. now rewrite (H q Hq). }
  destruct (write_file writable fs config_path DEFAULT_CONFIG) as [fs1|] eqn:E1.
  2: { intros H. assert (fs' = fs /\ written = false) as [-> ->] by (split; congruence).
       repeat split; auto; discriminate. }
  apply write_file_find in E1. destruct E1 as [A1 O1].
  destruct (write_unless_file writable fs1 secret_path DEFAULT_SECRETS) as [fs2|] eqn:E2.
  2: { intros H. assert (fs' = fs1 /\ written = false) as [-> ->] by (split; congruence).
       split; [|split; [|discriminate]].
       - intros q Hq. cbn [In] in Hq. apply O1. intuition congruence.
       - intros name Hin _. cbn [In] in Hin. apply O1.
         destruct Hin as [<-|[<-|[<-|[<-|[]]]]];
           fold secret_path automation_yaml_path script_yaml_path scene_yaml_path;
           congruence. }
  apply write_unless_file_find in E2. destruct E2 as [A2 O2].
  destruct (write_file writable fs2 version_path __version__) as [fs3|] eqn:E3.
  2: { intros H. assert (fs' = fs2 /\ written = false) as [-> ->] by (split; congruence).
       split; [|split; [|discriminate]].
       - intros q Hq. cbn [In] in Hq.
         rewrite O2, O1 by intuition congruence. reflexivity.
       - intros name Hin Hfile. cbn [In] in Hin.
         destruct Hin as [<-|[<-|[<-|[<-|[]]]]].
         + fold secret_path in Hfile |- *. rewrite A2.
           rewrite (Hisfile _ _ _ O1), Hfile by congruence. now apply O1.
         + fold automation_yaml_path. rewrite O2, O1 by congruence. reflexivity.
         + fold script_yaml_path. rewrite O2, O1 by congruence. reflexivity.
         + fold scene_yaml_path. rewrite O2, O1 by congruence. reflexivity. }
  apply write_file_find in E3. destruct E3 as [A3 O3].
  destruct (write_unless_file writable fs3 automation_yaml_path "[]") as [fs4|] eqn:E4.
  2: { intros H. assert (fs' = fs3 /\ written = false) as [-> ->] by (split; congruence).
       split; [|split; [|discriminate]].
       - intros q Hq. cbn [In] in Hq.
         rewrite O3, O2, O1 by intuition congruence. reflexivity.
       - intros name Hin Hfile. cbn [In] in Hin.
         destruct Hin as [<-|[<-|[<-|[<-|[]]]]].
         + fold secret_path in Hfile |- *. rewrite O3, A2 by congruence.
           rewrite (Hisfile _ _ _ O1), Hfile by congruence. now apply O1.
         + fold automation_yaml_path. rewrite O3, O2, O1 by congruence. reflexivity.
         + fold script_yaml_path. rewrite O3, O2, O1 by congruence. reflexivity.
         + fold scene_yaml_path. rewrite O3, O2, O1 by congruence. reflexivity. }
  apply write_unless_file_find in E4. destruct E4 as [A4 O4].
  assert (F4 : os_path_isfile fs3 automation_yaml_path
               = os_path_isfile fs automation_yaml_path).
  { rewrite (Hisfile _ _ _ O3), (Hisfile _ _ _ O2), (Hisfile _ _ _ O1) by congruence.
    reflexivity. }
  assert (G4 : fs_find fs3 automation_yaml_path = fs_find fs automation_yaml_path).
  { rewrite O3, O2, O1 by congruence. reflexivity. }
  assert (F2 : os_path_isfile fs1 secret_path = os_path_isfile fs secret_path).
  { now rewrite (Hisfile _ _ _ O1) by congruence. }
  assert (G2 : fs_find fs1 secret_path = fs_find fs secret_path).
  { now rewrite O1 by congruence. }
  rewrite F2, G2 in A2. rewrite F4, G4 in A4.
  destruct (write_unless_file writable fs4 script_yaml_path "") as [fs5|] eqn:E5.
  2: { intros H. assert (fs' = fs4 /\ written = false) as [-> ->] by (split; congruence).
       split; [|split; [|discriminate]].
       - intros q Hq. cbn [In] in Hq.
         rewrite O4, O3, O2, O1 by intuition congruence. reflexivity.
       - intros name Hin Hfile. cbn [In] in Hin.
         destruct Hin as [<-|[<-|[<-|[<-|[]]]]].
         + fold secret_path in Hfile |- *. rewrite O4, O3, A2, Hfile by congruence.
           reflexivity.
         + fold automation_yaml_path in Hfile |- *. rewrite A4, Hfile. reflexivity.
         + fold script_yaml_path. rewrite O4, O3, O2, O1 by congruence. reflexivity.
         + fold scene_yaml_path. rewrite O4, O3, O2, O1 by congruence. reflexivity. }
  apply write_unless_file_find in E5. destruct E5 as [A5 O5].
  assert (F5 : os_path_isfile fs4 script_yaml_path = os_path_isfile fs script_yaml_path).
  { rewrite (Hisfile _ _ _ O4), (Hisfile _ _ _ O3), (Hisfile _ _ _ O2),
      (Hisfile _ _ _ O1) by congruence. reflexivity. }
  assert (G5 : fs_find fs4 script_yaml_path = fs_find fs script_yaml_path).
  { rewrite O4, O3, O2, O1 by congruence. reflexivity. }
  rewrite F5, G5 in A5.
  destruct (write_unless_file writable fs5 scene_yaml_path "") as [fs6|] eqn:E6.
  2: { intros H. assert (fs' = fs5 /\ written = false) as [-> ->] by (split; congruence).
       split; [|split; [|discriminate]].
       - intros q Hq. cbn [In] in Hq.
         rewrite O5, O4, O3, O2, O1 by intuition congruence. reflexivity.
       - intros name Hin Hfile. cbn [In] in Hin.
         destruct Hin as [<-|[<-|[<-|[<-|[]]]]].
         + fold secret_path in Hfile |- *.
           rewrite O5, O4, O3, A2, Hfile by congruence. reflexivity.
         + fold automation_yaml_path in Hfile |- *.
           rewrite O5, A4, Hfile by congruence. reflexivity.
         + fold script_yaml_path in Hfile |- *. rewrite A5, Hfile. reflexivity.
         + fold scene_yaml_path. rewrite O5, O4, O3, O2, O1 by congruence. reflexivity. }
  apply write_unless_file_find in E6. destruct E6 as [A6 O6].
  assert (F6 : os_path_isfile fs5 scene_yaml_path = os_path_isfile fs scene_yaml_path).
  { rewrite (Hisfile _ _ _ O5), (Hisfile _ _ _ O4), (Hisfile _ _ _ O3),
      (Hisfile _ _ _ O2), (Hisfile _ _ _ O1) by congruence. reflexivity. }
  assert (G6 : fs_find fs5 scene_yaml_path = fs_find fs scene_yaml_path).
  { rewrite O5, O4, O3, O2, O1 by congruence. reflexivity. }
  rewrite F6, G6 in A6.
  intros H. assert (fs' = fs6 /\ written = true) as [-> ->] by (split; congruence).
  split; [|split].
  - intros q Hq. cbn [In] in Hq.
    rewrite O6, O5, O4, O3, O2, O1 by intuition congruence. reflexivity.
  - intros name Hin Hfile. cbn [In] in Hin.
    destruct Hin as [<-|[<-|[<-|[<-|[]]]]].
    + fold secret_path in Hfile |- *.
      rewrite O6, O5, O4, O3, A2, Hfile by congruence. reflexivity.
    + fold automation_yaml_path in Hfile |- *.
      rewrite O6, O5, A4, Hfile by congruence. reflexivity.
    + fold script_yaml_path in Hfile |- *. rewrite O6, A5, Hfile by congruence.
      reflexivity.
    + fold scene_yaml_path in Hfile |- *. rewrite A6, Hfile. reflexivity.
  - intros _. split; [|split].
    + rewrite O6, O5, O4, O3, O2 by congruence. exact A1.
    + rewrite O6, O5, O4 by congruence. exact A3.
    + intros name text Hin Hfile. cbn [In] in Hin.
      destruct Hin as [E|[E|[E|[E|[]]]]];
        assert (En : name = fst (name, text)) by reflexivity;
        assert (Et : text = snd (name, text)) by reflexivity;
        rewrite <- E in En, Et; cbn [fst snd] in En, Et; subst name text.
      * fold secret_path in Hfile |- *.
        rewrite O6, O5, O4, O3, A2, Hfile by congruence. reflexivity.
      * fold automation_yaml_path in Hfile |- *.
        rewrite O6, O5, A4, Hfile by congruence. reflexivity.
      * fold script_yaml_path in Hfile |- *. rewrite O6, A5, Hfile by congruence.
        reflexivity.
      * fold scene_yaml_path in Hfile |- *. rewrite A6, Hfile. reflexivity.
Qed.

Lemma write_default_config_witness :
  fs_find (fst example_write_default_config) (example_join "/config" "secrets.yaml")
  = fs_find example_filesystem (example_join "/config" "secrets.yaml").
Proof.
  apply (proj1 (proj2 (write_default_config_keeps_existing_files example_join
                         (fun _ => true) "configuration.yaml" "secrets.yaml" ".HA_VERSION"
                         "automations.yaml" "scripts.yaml" "scenes.yaml" "default_config:"
                         "some_password: welcome" "2024.1.0" example_filesystem
                         (fst example_write_default_config) "/config"
                         (snd example_write_default_config)
                         ltac:(repeat constructor; simpl; intuition discriminate)
                         ltac:(reflexivity)))
           "secrets.yaml"%string).
  - left. reflexivity.
  - reflexivity.
Defined.

(** ** Customize sections of packages *)

Lemma dict_find_app (a b : dict) (k : string) :
  dict_find (a ++ b) k
  = match dict_find a k with
    | Some v => Some v
    | None => dict_find b k
    end.
Proof.
  induction a as [|[k' v] a IH]; cbn [app dict_find]; [reflexivity|].
  destruct (String.eqb (key_str k') k); [reflexivity|exact IH].
Qed.

(** After [update], a key has the binding written last, or the old one. *)
Lemma dict_find_update (other : dict) :
  forall (d : dict) (k : string),
    dict_find (dict_update d other) k
    = match dict_find (rev other) k with
      | Some v => Some v
      | None => dict_find d k
      end.
Proof.
  unfold dict_update.
  induction other as [|[k' v] rest IH]; intros d k; cbn [fold_left rev fst snd].
  - reflexivity.
  - rewrite IH, dict_find_app. cbn [dict_find].
    destruct (dict_find (rev rest) k); [reflexivity|].
    destruct (String.eqb_spec (key_str k') k) as [E|E].
    + subst k. apply dict_find_set_same.
    + now apply dict_find_set_other.
Qed.

Section CustomizeFacts.
Variable CONF_CORE : string.
Variable CONF_CUSTOMIZE : string.
Variable CONF_CUSTOMIZE_DOMAIN : string.
Variable CONF_CUSTOMIZE_GLOB : string.
Variable CUSTOMIZE_CONFIG_SCHEMA : validator.

Lemma customize_package_layers (st : customize_state) (name : string) (pkg : value) :
  customizable CONF_CORE CONF_CUSTOMIZE CONF_CUSTOMIZE_DOMAIN CONF_CUSTOMIZE_GLOB
    CUSTOMIZE_CONFIG_SCHEMA pkg ->
  exists st',
    customize_package CONF_CORE CONF_CUSTOMIZE CONF_CUSTOMIZE_DOMAIN CONF_CUSTOMIZE_GLOB
      CUSTOMIZE_CONFIG_SCHEMA st name pkg = Ok st'
    /\ cust_exact st'
       = dict_update (cust_exact st)
           (customize_layer CONF_CORE CUSTOMIZE_CONFIG_SCHEMA CONF_CUSTOMIZE pkg)
    /\ cust_domain st'
       = dict_update (cust_domain st)
           (customize_layer CONF_CORE CUSTOMIZE_CONFIG_SCHEMA CONF_CUSTOMIZE_DOMAIN pkg)
    /\ cust_glob st'
       = dict_update (cust_glob st)
           (customize_layer CONF_CORE CUSTOMIZE_CONFIG_SCHEMA CONF_CUSTOMIZE_GLOB pkg).
Proof.
  intros (t & d & -> & Hcases).
  unfold customize_package, customize_layer, value_get. cbn [bind].
  change (match dict_find d CONF_CORE with
          | Some v => v
          | None => VNone
          end) with (dict_get d CONF_CORE).
  destruct Hcases as [Hnone|[(ex & Hbad)|Hgood]].
  - rewrite Hnone. exists st. repeat split.
  - destruct (dict_get d CONF_CORE); [exists st; repeat split| | | | |];
      rewrite Hbad; (eexists; split; [reflexivity|repeat split]).
  - destruct Hgood as (tv & validated & t1 & exact & t2 & by_domain & t3 & glob
                       & Hok & H1 & H2 & H3).
    unfold section_of, getitem.
    destruct (dict_get d CONF_CORE); [exists st; repeat split| | | | |];
      rewrite Hok, H1, H2, H3; cbn [bind];
      (eexists; split; [reflexivity|repeat split]).
Qed.

Lemma customize_packages_layers (packages : dict) :
  forall st : customize_state,
    Forall (fun entry =>
              customizable CONF_CORE CONF_CUSTOMIZE CONF_CUSTOMIZE_DOMAIN
                CONF_CUSTOMIZE_GLOB CUSTOMIZE_CONFIG_SCHEMA (snd entry)) packages ->
    exists st',
      customize_packages CONF_CORE CONF_CUSTOMIZE CONF_CUSTOMIZE_DOMAIN
        CONF_CUSTOMIZE_GLOB CUSTOMIZE_CONFIG_SCHEMA st packages = Ok st'
      /\ (forall k,
            dict_find (cust_exact st') k
            = match lookup_layers
                      (map (fun entry =>
                              customize_layer CONF_CORE CUSTOMIZE_CONFIG_SCHEMA
                                CONF_CUSTOMIZE (snd entry)) packages) k with
              | Some v => Some v
              | None => dict_find (cust_exact st) k
              end)
      /\ (forall k,
            dict_find (cust_domain st') k
            = match lookup_layers
                      (map (fun entry =>
                              customize_layer CONF_CORE CUSTOMIZE_CONFIG_SCHEMA
                                CONF_CUSTOMIZE_DOMAIN (snd entry)) packages) k with
              | Some v => Some v
              | None => dict_find (cust_domain st) k
              end)
      /\ (forall k,
            dict_find (cust_glob st') k
            = match lookup_layers
                      (map (fun entry =>
                              customize_layer CONF_CORE CUSTOMIZE_CONFIG_SCHEMA
                                CONF_CUSTOMIZE_GLOB (snd entry)) packages) k with
              | Some v => Some v
              | None => dict_find (cust_glob st) k
              end).
Proof.
  induction packages as [|[name pkg] rest IH]; intros st Hall.
  - exists st. repeat split.
  - apply Forall_cons_iff in Hall. destruct Hall as [Hpkg Hrest]. cbn [snd] in Hpkg.
    destruct (customize_package_layers st (key_str name) pkg Hpkg)
      as (st1 & Hstep & E1 & E2 & E3).
    destruct (IH st1 Hrest) as (st' & Hrun & L1 & L2 & L3).
    exists st'. cbn [customize_packages]. rewrite Hstep. cbn [bind].
    split; [exact Hrun|].
    cbn [map lookup_layers snd].
    split; [|split]; intros k.
    + rewrite L1. destruct (lookup_layers _ k); [reflexivity|].
      rewrite E1. apply dict_find_update.
    + rewrite L2. destruct (lookup_layers _ k); [reflexivity|].
      rewrite E2. apply dict_find_update.
    + rewrite L3. destruct (lookup_layers _ k); [reflexivity|].
      rewrite E3. apply dict_find_update.
Qed.
End CustomizeFacts.

(** X26. Customizations are layered: with the main configuration's three
    customize sections as the base and each package's validated core
    section on top, in the order of the packages, every key ends with the
    binding of the last package that customizes it, or else the main
    configuration's.  A package without a core section, or with one the
    customize schema rejects as invalid, contributes nothing and does not
    stop the loop. *)
Theorem package_customize_is_layered
  (CONF_CORE CONF_CUSTOMIZE CONF_CUSTOMIZE_DOMAIN CONF_CUSTOMIZE_GLOB CONF_PACKAGES : string)
  (CUSTOMIZE_CONFIG_SCHEMA : validator) (config_ : value)
  (exact by_domain glob packages : dict) :
  section_of config_ CONF_CUSTOMIZE = Ok exact ->
  section_of config_ CONF_CUSTOMIZE_DOMAIN = Ok by_domain ->
  section_of config_ CONF_CUSTOMIZE_GLOB = Ok glob ->
  section_of config_ CONF_PACKAGES = Ok packages ->
  Forall (fun entry =>
            customizable CONF_CORE CONF_CUSTOMIZE CONF_CUSTOMIZE_DOMAIN
              CONF_CUSTOMIZE_GLOB CUSTOMIZE_CONFIG_SCHEMA (snd entry)) packages ->
  exists st,
    customize_from_packages CONF_CORE CONF_CUSTOMIZE CONF_CUSTOMIZE_DOMAIN
      CONF_CUSTOMIZE_GLOB CONF_PACKAGES CUSTOMIZE_CONFIG_SCHEMA config_ = Ok st
    /\ (forall k,
          dict_find (cust_exact st) k
          = match lookup_layers
                    (map (fun entry =>
                            customize_layer CONF_CORE CUSTOMIZE_CONFIG_SCHEMA
                              CONF_CUSTOMIZE (snd entry)) packages) k with
            | Some v => Some v
            | None => dict_find exact k
            end)
    /\ (forall k,
          dict_find (cust_domain st) k
          = match lookup_layers
                    (map (fun entry =>
                            customize_layer CONF_CORE CUSTOMIZE_CONFIG_SCHEMA
                              CONF_CUSTOMIZE_DOMAIN (snd entry)) packages) k with
            | Some v => Some v
            | None => dict_find by_domain k
            end)
    /\ (forall k,
          dict_find (cust_glob st) k
          = match lookup_layers
                    (map (fun entry =>
                            customize_layer CONF_CORE CUSTOMIZE_CONFIG_SCHEMA
                              CONF_CUSTOMIZE_GLOB (snd entry)) packages) k with
            | Some v => Some v
            | None => dict_find glob k
            end).
Proof.
  intros H1 H2 H3 H4 Hall. unfold customize_from_packages.
  rewrite H1, H2, H3, H4. cbn [bind].
  apply (customize_packages_layers CONF_CORE CONF_CUSTOMIZE CONF_CUSTOMIZE_DOMAIN
           CONF_CUSTOMIZE_GLOB CUSTOMIZE_CONFIG_SCHEMA packages
           (CustomizeState exact by_domain glob []) Hall).
Qed.

Lemma package_customize_witness :
  exists st,
    customize_from_packages "homeassistant" "customize" "customize_domain"
      "customize_glob" "packages" example_customize_schema customize_core_config = Ok st
    /\ (forall k,
          dict_find (cust_exact st) k
          = match lookup_layers
                    (map (fun entry =>
                            customize_layer "homeassistant" example_customize_schema
                              "customize" (snd entry)) customize_packages_block) k with
            | Some v => Some v
            | None =>
                dict_find [(plain "light.kitchen", friendly "Kitchen");
                           (plain "light.hall", friendly "Hall")] k
            end)
    /\ (forall k,
          dict_find (cust_domain st) k
          = match lookup_layers
                    (map (fun entry =>
                            customize_layer "homeassistant" example_customize_schema
                              "customize_domain" (snd entry)) customize_packages_block)
                    k with
            | Some v => Some v
            | None => dict_find [] k
            end)
    /\ (forall k,
          dict_find (cust_glob st) k
          = match lookup_layers
                    (map (fun entry =>
                            customize_layer "homeassistant" example_customize_schema
                              "customize_glob" (snd entry)) customize_packages_block)
                    k with
            | Some v => Some v
            | None => dict_find [] k
            end).
Proof.
  apply (package_customize_is_layered "homeassistant" "customize" "customize_domain"
           "customize_glob" "packages" example_customize_schema customize_core_config);
    try reflexivity.
  repeat constructor.
  - eexists. eexists. split; [reflexivity|]. right. right.
    do 8 eexists. repeat split; reflexivity.
  - eexists. eexists. split; [reflexivity|]. right. left.
    eexists. reflexivity.
  - eexists. eexists. split; [reflexivity|]. left. reflexivity.
Defined.

(** ** Enabling and reading safe mode *)

(** X27. Enabling safe mode and reading it is a round trip.  When the
    path of the flag is the one [safe_mode_enabled] looks at and is not a
    directory, then after [async_enable_safe_mode] a first
    [safe_mode_enabled] returns [True] and a second one [False]; the flag
    is gone again and every other path is as it was before enabling. *)
Theorem safe_mode_round_trip (hass_config_path : string -> string)
  (os_path_join : string -> string -> string) (writable : string -> bool)
  (SAFE_MODE_FILENAME : string) (fs fs1 : filesystem) (config_dir : string) :
  hass_config_path SAFE_MODE_FILENAME = os_path_join config_dir SAFE_MODE_FILENAME ->
  fs_find fs (os_path_join config_dir SAFE_MODE_FILENAME) <> Some Dir ->
  async_enable_safe_mode hass_config_path writable SAFE_MODE_FILENAME fs = (fs1, Ok tt) ->
  exists fs2,
    safe_mode_enabled os_path_join SAFE_MODE_FILENAME fs1 config_dir = (fs2, Ok true)
    /\ safe_mode_enabled os_path_join SAFE_MODE_FILENAME fs2 config_dir = (fs2, Ok false)
    /\ fs_find fs2 (os_path_join config_dir SAFE_MODE_FILENAME) = None
    /\ (forall q, q <> os_path_join config_dir SAFE_MODE_FILENAME ->
                  fs_find fs2 q = fs_find fs q).
Proof.
  intros Hpath Hnotdir. unfold async_enable_safe_mode, touch. rewrite Hpath.
  set (flag := os_path_join config_dir SAFE_MODE_FILENAME) in *.
  destruct (writable flag); cbn [negb]; [|discriminate].
  assert (Hread : forall fs0 text,
             fs_find fs0 flag = Some (RegularFile text) ->
             safe_mode_enabled os_path_join SAFE_MODE_FILENAME fs0 config_dir
             = (fs_remove fs0 flag, Ok true)
             /\ safe_mode_enabled os_path_join SAFE_MODE_FILENAME (fs_remove fs0 flag)
                  config_dir
                = (fs_remove fs0 flag, Ok false)).
  { intros fs0 text Hfile. unfold safe_mode_enabled, os_path_exists, os_remove.
    fold flag. rewrite Hfile, fs_find_remove_same. split; reflexivity. }
  destruct (fs_find fs flag) as [[text|]|] eqn:E; [| congruence |]; intros H.
  - assert (E1 : fs1 = fs) by congruence. subst fs1.
    destruct (Hread fs text E) as [H1 H2].
    exists (fs_remove fs flag). split; [exact H1|]. split; [exact H2|].
    split; [apply fs_find_remove_same|].
    intros q Hq. now apply fs_find_remove_other.
  - assert (E1 : fs1 = fs_set fs flag (RegularFile "")) by congruence. subst fs1.
    destruct (Hread (fs_set fs flag (RegularFile "")) ""%string
                (fs_find_set_same fs flag (RegularFile ""))) as [H1 H2].
    exists (fs_remove (fs_set fs flag (RegularFile "")) flag).
    split; [exact H1|]. split; [exact H2|].
    split; [apply fs_find_remove_same|].
    intros q Hq. rewrite fs_find_remove_other by exact Hq.
    now apply fs_find_set_other.
Qed.

Lemma safe_mode_round_trip_witness :
  exists fs2,
    safe_mode_enabled example_join "safe-mode"
      [("/config/secrets.yaml", RegularFile "some_password: welcome");
       ("/config/safe-mode", RegularFile "")] "/config"
    = (fs2, Ok true)
    /\ safe_mode_enabled example_join "safe-mode" fs2 "/config" = (fs2, Ok false)
    /\ fs_find fs2 (example_join "/config" "safe-mode") = None
    /\ (forall q, q <> example_join "/config" "safe-mode" ->
                  fs_find fs2 q
                  = fs_find [("/config/secrets.yaml", RegularFile "some_password: welcome")]
                      q).
Proof.
  apply (safe_mode_round_trip (example_join "/config") example_join (fun _ => true)
           "safe-mode" [("/config/secrets.yaml", RegularFile "some_password: welcome")]
           [("/config/secrets.yaml", RegularFile "some_password: welcome");
            ("/config/safe-mode", RegularFile "")] "/config").
  - reflexivity.
  - discriminate.
  - reflexivity.
Defined.

(** ** A package that brings a new domain *)

(** X28. A package that configures, under the dict policy, a domain the
    document does not have, with a fragment of scalars under distinct keys,
    adds the domain at the end of the document with exactly the fragment's
    entries, in the fragment's order, and logs nothing. *)
Theorem new_domain_is_added_verbatim (CONF_CORE : string)
  (loader : string -> result integration) (st : merge_state) (pack_name : string)
  (comp_name : dkey) (tf : option tag) (fragment : dict)
  (integration_ : integration) (component : module) :
  String.eqb (key_str comp_name) CONF_CORE = false ->
  loader (partition_head (key_str comp_name)) = Ok integration_ ->
  get_component integration_ = Ok component ->
  resolve_merge_list integration_ component = Ok false ->
  dict_find (config_of st) (key_str comp_name) = None ->
  flat_scalars fragment ->
  NoDup (keys fragment) ->
  merge_component CONF_CORE loader st pack_name comp_name (VDict tf fragment)
  = (MergeState (config_of st ++ [(comp_name, VDict None fragment)]) (log_of st), Ok tt).
Proof.
  intros Hcore Hload Hcomp Hpol Habsent Hflat Hnd.
  rewrite (merge_component_dict_fresh CONF_CORE loader st pack_name comp_name tf fragment
             integration_ component Hcore Hload Hcomp Hpol Habsent).
  rewrite (merge_component_dict CONF_CORE loader _ pack_name comp_name tf fragment
             integration_ component None [] Hcore Hload Hcomp Hpol)
    by (cbn [config_of]; now apply dict_find_app_absent).
  destruct (merge_loop_flat merge_node fragment None [] Hflat Hnd)
    as (Hs & _ & Ha); [intros k _; reflexivity|].
  specialize (Ha (fun k _ => eq_refl)).
  unfold _recursive_merge.
  destruct (merge_loop merge_node None [] fragment) as [target' x].
  cbn [fst snd] in Hs, Ha. subst x target'. cbn [exit_result app config_of log_of].
  now rewrite (dict_set_app_last _ _ _ _ Habsent).
Qed.

Lemma new_domain_witness :
  merge_component "homeassistant" bare_loader (MergeState [(plain "light", VList None [])] [])
    "pkg1" (plain "sensor") (VDict None [(plain "threshold", VInt 1)])
  = (MergeState
       ([(plain "light", VList None [])]
        ++ [(plain "sensor", VDict None [(plain "threshold", VInt 1)])]) [],
     Ok tt).
Proof.
  apply (new_domain_is_added_verbatim "homeassistant" bare_loader
           (MergeState [(plain "light", VList None [])] []) "pkg1" (plain "sensor") None
           [(plain "threshold", VInt 1)] (bare_integration "sensor") (bare_module "sensor"));
    try reflexivity.
  - intros kv [<-|[]]. reflexivity.
  - repeat constructor. simpl. tauto.
Defined.

(** ** Where logged failures come from *)

Section LogFacts.
Variable CONF_CORE : string.
Variable loader : string -> result integration.

Lemma merge_component_log_source (st : merge_state) (pack_name : string)
  (comp_name : dkey) (comp_conf : value) :
  exists extra,
    log_of (fst (merge_component CONF_CORE loader st pack_name comp_name comp_conf))
    = log_of st ++ extra
    /\ (List.length extra <= 1)%nat
    /\ Forall (fun e => err_package e = pack_name
                        /\ err_component e = key_str comp_name
                        /\ err_component e <> CONF_CORE) extra.
Proof.
  unfold merge_component.
  destruct (String.eqb_spec (key_str comp_name) CONF_CORE) as [Hc|Hc].
  { exists []. rewrite app_nil_r. cbn. auto. }
  assert (H0 : exists extra,
             log_of st = log_of st ++ extra
             /\ (List.length extra <= 1)%nat
             /\ Forall (fun e => err_package e = pack_name
                                 /\ err_component e = key_str comp_name
                                 /\ err_component e <> CONF_CORE) extra).
  { exists []. rewrite app_nil_r. cbn. auto. }
  assert (H1 : forall c m, exists extra,
               log_of (log_error (MergeState c (log_of st)) pack_name (key_str comp_name) m)
               = log_of st ++ extra
               /\ (List.length extra <= 1)%nat
               /\ Forall (fun e => err_package e = pack_name
                                   /\ err_component e = key_str comp_name
                                   /\ err_component e <> CONF_CORE) extra).
  { intros. eexists. split; [reflexivity|]. split; [cbn; lia|].
    constructor; [|constructor]. cbn. auto. }
  assert (H2 : forall m, exists extra,
               log_of (log_error st pack_name (key_str comp_name) m) = log_of st ++ extra
               /\ (List.length extra <= 1)%nat
               /\ Forall (fun e => err_package e = pack_name
                                   /\ err_component e = key_str comp_name
                                   /\ err_component e <> CONF_CORE) extra).
  { intros. eexists. split; [reflexivity|]. split; [cbn; lia|].
    constructor; [|constructor]. cbn. auto. }
  repeat match goal with
         | |- context [let (_, _) := ?x in _] => destruct x
         | |- context [match ?x with _ => _ end] => destruct x
         end;
    cbn [fst log_of]; solve [exact H0 | apply H1 | apply H2].
Qed.

Lemma merge_package_log_source (comps : dict) :
  forall (st : merge_state) (pack_name : string),
  exists extra,
    log_of (fst (merge_package CONF_CORE loader st pack_name comps)) = log_of st ++ extra
    /\ (List.length extra <= List.length comps)%nat
    /\ Forall (fun e => err_package e = pack_name
                        /\ In (err_component e) (keys comps)
                        /\ err_component e <> CONF_CORE) extra.
Proof.
  induction comps as [|[comp_name comp_conf] rest IH]; intros st pack_name;
    cbn [merge_package].
  - exists []. rewrite app_nil_r. cbn. auto.
  - destruct (merge_component_log_source st pack_name comp_name comp_conf)
      as (e1 & Hlog & Hlen & Hall).
    assert (Hall' : Forall (fun e => err_package e = pack_name
                                     /\ In (err_component e)
                                          (keys ((comp_name, comp_conf) :: rest))
                                     /\ err_component e <> CONF_CORE) e1).
    { eapply Forall_impl; [|exact Hall]. cbn. intros e (Hp & Hc & Hn). auto. }
    destruct (merge_component CONF_CORE loader st pack_name comp_name comp_conf)
      as [st1 [u|ex]]; cbn [fst] in Hlog |- *.
    + destruct (IH st1 pack_name) as (e2 & Hlog2 & Hlen2 & Hall2).
      exists (e1 ++ e2). rewrite Hlog2, Hlog, <- app_assoc.
      split; [reflexivity|]. split; [rewrite length_app; cbn; lia|].
      apply Forall_app. split; [exact Hall'|].
      eapply Forall_impl; [|exact Hall2]. cbn. intros e (Hp & Hc & Hn). auto.
    + exists e1. split; [exact Hlog|]. split; [cbn; lia|exact Hall'].
Qed.

Lemma merge_packages_log_source (packs : dict) :
  forall st : merge_state,
  exists extra,
    log_of (fst (merge_packages CONF_CORE loader st packs)) = log_of st ++ extra
    /\ (List.length extra <= List.length (component_names packs))%nat
    /\ Forall (from_a_package CONF_CORE packs) extra.
Proof.
  induction packs as [|[pack_name pack_conf] rest IH]; intros st; cbn [merge_packages].
  - exists []. rewrite app_nil_r. cbn. auto.
  - destruct pack_conf as [| | | | |t comps];
      try (exists []; rewrite app_nil_r; cbn; split; [reflexivity|split; [lia|constructor]]).
    destruct (merge_package_log_source comps st (key_str pack_name))
      as (e1 & Hlog & Hlen & Hall).
    assert (Hall' : Forall (from_a_package CONF_CORE ((pack_name, VDict t comps) :: rest))
                      e1).
    { eapply Forall_impl; [|exact Hall]. intros e (Hp & Hc & Hn).
      exists pack_name, t, comps. split; [now left|auto]. }
    assert (Hnames : List.length (component_names ((pack_name, VDict t comps) :: rest))
                     = (List.length comps + List.length (component_names rest))%nat).
    { cbn [component_names flat_map snd]. rewrite length_app. unfold keys.
      now rewrite length_map. }
    destruct (merge_package CONF_CORE loader st (key_str pack_name) comps)
      as [st1 [u|ex]]; cbn [fst] in Hlog |- *.
    + destruct (IH st1) as (e2 & Hlog2 & Hlen2 & Hall2).
      exists (e1 ++ e2). rewrite Hlog2, Hlog, <- app_assoc.
      split; [reflexivity|]. split; [rewrite length_app, Hnames; lia|].
      apply Forall_app. split; [exact Hall'|].
      eapply Forall_impl; [|exact Hall2].
      intros e (pack & t' & comps' & Hin & Hrest). exists pack, t', comps'.
      split; [now right|exact Hrest].
    + exists e1. split; [exact Hlog|]. split; [rewrite Hnames; lia|exact Hall'].
Qed.
End LogFacts.

(** X29. Every failure [merge_packages_config] logs is attributed to a
    package of the block and to a component of that package other than the
    core section, and there is at most one logged failure per component:
    the log is never longer than the number of components in the block. *)
Theorem logged_failures_come_from_the_packages (CONF_CORE : string)
  (is_slug : string -> bool) (loader : string -> result integration)
  (config_ : dict) (t : option tag) (packs : dict) :
  (List.length
     (log_of (fst (merge_packages_config CONF_CORE is_slug loader config_ (VDict t packs))))
   <= List.length (component_names packs))%nat
  /\ Forall (from_a_package CONF_CORE packs)
       (log_of (fst (merge_packages_config CONF_CORE is_slug loader config_
                       (VDict t packs)))).
Proof.
  unfold merge_packages_config.
  destruct (PACKAGES_CONFIG_SCHEMA is_slug (VDict t packs)) as [ok|e].
  2: { cbn. split; [lia|constructor]. }
  destruct (merge_packages_log_source CONF_CORE loader packs (MergeState config_ []))
    as (extra & Hlog & Hlen & Hall).
  destruct (merge_packages CONF_CORE loader (MergeState config_ []) packs)
    as [st [u|ex]]; cbn [fst log_of app] in Hlog |- *; rewrite Hlog; auto.
Qed.

Lemma logged_failures_witness :
  (List.length
     (log_of (fst (merge_packages_config "homeassistant" example_is_slug bare_loader
                     two_conflicts_document two_conflicts_packages)))
   <= 1)%nat.
Proof.
  apply (proj1 (logged_failures_come_from_the_packages "homeassistant" example_is_slug
                  bare_loader two_conflicts_document None
                  [(plain "pkg2",
                    VDict None [(plain "sensor",
                                 VDict None [(plain "a", VInt 2); (plain "b", VInt 3)])])])).
Defined.

(** ** The head of a validation message *)

Lemma location_of_found (_relpath : string -> string) (config_ : value)
  (path_ : list seg) :
  exists found,
    find_annotation config_ path_ = Ok found
    /\ message_location _relpath config_ path_
       = match found with
         | Some annotation =>
             (" at " ++ _relpath (fst annotation) ++ ", line "
              ++ str_line (snd annotation))%string
         | None => ""%string
         end.
Proof.
  unfold message_location, find_annotation. rewrite find_annotation_rec_nearest.
  eexists. split; reflexivity.
Qed.

(** X30. Every text the formatters produce for a structured error or for
    a generic error starts the same way: [Invalid config for '<domain>'],
    then the file and line of the annotation found for the error's path
    (for a generic error, for the domain key) when there is one, then a
    colon and a space. *)
Theorem validation_messages_start_with_domain_and_location
  (CONF_CORE : string) (_relpath : string -> string) (repr : value -> string)
  (str_exception repr_exception : exn -> string) (domain_ : string) (config_ : value)
  (link : option string) :
  (forall ex max_sub_error_length text,
      stringify_invalid CONF_CORE _relpath repr ex domain_ config_ link
        max_sub_error_length = Ok text ->
      exists rest,
        text = ("Invalid config for '" ++ domain_ ++ "'"
                ++ message_location _relpath config_ (path ex) ++ ": " ++ rest)%string)
  /\ (forall ex text,
        format_homeassistant_error CONF_CORE _relpath str_exception repr_exception
          ex domain_ config_ link = Ok text ->
        exists rest,
          text = ("Invalid config for '" ++ domain_ ++ "'"
                  ++ message_location _relpath config_ [SKey domain_] ++ ": " ++ rest)%string).
Proof.
  assert (Hhead : forall path_ found,
             find_annotation config_ path_ = Ok found ->
             forall rest,
               (match found with
                | Some annotation =>
                    ("Invalid config for '" ++ domain_ ++ "'") ++ " at "
                    ++ _relpath (fst annotation) ++ ", line " ++ str_line (snd annotation)
                | None => "Invalid config for '" ++ domain_ ++ "'"
                end ++ ": " ++ rest)%string
               = ("Invalid config for '" ++ domain_ ++ "'"
                  ++ message_location _relpath config_ path_ ++ ": " ++ rest)%string).
  { intros path_ found Hfound rest. unfold message_location. rewrite Hfound.
    destruct found as [annotation|].
    - rewrite !string_app_assoc. reflexivity.
    - rewrite !string_app_assoc. reflexivity. }
  split.
  - intros ex max_len text. unfold stringify_invalid.
    destruct (location_of_found _relpath config_ (path ex)) as (found & Hfound & _).
    rewrite Hfound. cbn [bind].
    destruct (String.eqb (error_message ex) "extra keys not allowed").
    + destruct (last_item (path ex)) as [last|e]; cbn [bind]; [|discriminate].
      intros H.
      exists ("'" ++ str_seg last ++ "' is an invalid option for '" ++ domain_
              ++ "', check: " ++ join "->" (map str_seg (path ex))
              ++ message_suffix CONF_CORE domain_ link)%string.
      rewrite <- (Hhead (path ex) found Hfound).
      assert (E : forall a b, Ok a = Ok b -> b = a :> string) by (intros; congruence).
      apply E in H. rewrite H. reflexivity.
    + destruct (String.eqb (error_message ex) "required key not provided").
      * destruct (last_item (path ex)) as [last|e]; cbn [bind]; [|discriminate].
        intros H.
        exists ("required key '" ++ str_seg last ++ "' not provided"
                ++ message_suffix CONF_CORE domain_ link)%string.
        rewrite <- (Hhead (path ex) found Hfound).
        assert (E : forall a b, Ok a = Ok b -> b = a :> string) by (intros; congruence).
        apply E in H. rewrite H. reflexivity.
      * intros H.
        assert (E : forall a b, Ok a = Ok b -> b = a :> string) by (intros; congruence).
        apply E in H. rewrite H. clear H E.
        eexists. rewrite <- (Hhead (path ex) found Hfound). reflexivity.
  - intros ex text. unfold format_homeassistant_error.
    destruct (location_of_found _relpath config_ [SKey domain_]) as (found & Hfound & _).
    rewrite Hfound. cbn [bind].
    destruct (negb (String.eqb domain_ CONF_CORE) && link_truthy link); intros H;
      assert (E : forall a b, Ok a = Ok b -> b = a :> string) by (intros; congruence);
      apply E in H; rewrite H; clear H E.
    + exists ((if negb (String.eqb (str_exception ex) "") then str_exception ex
               else repr_exception ex)
              ++ ", please check the docs at " ++ link_text link)%string.
      rewrite <- (Hhead [SKey domain_] found Hfound).
      rewrite !string_app_assoc. reflexivity.
    + exists (if negb (String.eqb (str_exception ex) "") then str_exception ex
              else repr_exception ex).
      rewrite <- (Hhead [SKey domain_] found Hfound). reflexivity.
Qed.

Lemma validation_messages_witness :
  exists rest,
    "Invalid config for 'light': required key 'bar' not provided"%string
    = ("Invalid config for '" ++ "light" ++ "'"
       ++ message_location (fun p => p) demo_document (path missing_bar) ++ ": " ++ rest)%string.
Proof.
  apply (proj1 (validation_messages_start_with_domain_and_location "homeassistant"
                  (fun p => p) (fun _ => "{}"%string) str_exn (fun _ => "Error()"%string)
                  "light" demo_document None) missing_bar 43%Z).
  reflexivity.
Defined.
